(** * CellConstructor: the [Phonons] class (cellconstructor/Phonons.py)

    A shallow embedding of the dynamical-matrix container, its loader for
    Quantum ESPRESSO files, its diagonalisation and the quantities derived
    from it, followed by the properties of the specification settled on it.

    Conventions of the embedding.
    - A Python [float] (and a numpy float array entry) is a real number of
      [R]: arithmetic is exact, rounding and the special values inf and nan
      are not represented.  A complex array entry is a pair of reals.
    - A numpy array of shape (n, m) is the list of its n rows.
    - A Python exception is a value of [PyExc]; code that may raise returns
      a [Result].  The message of a [ValueError] is kept, since the class
      raises [ValueError] for every one of its own failures and only the
      message tells them apart.
    - What the file imports from outside the repository's sources (numpy's
      LAPACK bindings, numpy's argsort, scipy's solver, the builtin [float],
      the module [Methods]) is a field of the class [Library]: the code is
      verified for every implementation of them, under the hypotheses a
      statement names. *)

From Stdlib Require Import Reals Lra ZArith Lia String Ascii List.
From Stdlib Require Import Sorting.Sorted Sorting.Permutation.
From stdpp Require Import base gmap strings list pretty.
Import ListNotations.

Open Scope Z_scope.

(** ** Python values that fail: exceptions and results *)

Inductive PyExc : Type :=
| ValueError (msg : string)
| TypeError (msg : string)
| IndexError (msg : string)
| KeyError (key : string)
| AttributeError (msg : string)
| LinAlgError (msg : string)
| NoConvergence.

Inductive Result (A : Type) : Type :=
| Ok (a : A)
| Raise (e : PyExc).
Arguments Ok {A} a.
Arguments Raise {A} e.

(** [do x <- m; k]: run [m]; an exception ends the computation, a value
    is bound to [x] in [k]. *)
Definition bind {A B} (m : Result A) (f : A → Result B) : Result B :=
  match m with
  | Ok a => f a
  | Raise e => Raise e
  end.

Notation "'do' x <- m ; k" := (bind m (fun x => k))
  (at level 10, x name, m at level 100, k at level 200, only parsing).
Notation "'do' ' p <- m ; k" := (bind m (fun x => match x with p => k end))
  (at level 10, p pattern, m at level 100, k at level 200, only parsing).

Global Instance Result_ret : MRet Result := fun A a => Ok a.
Global Instance Result_bind : MBind Result := fun A B f m => bind m f.
Global Instance Result_fmap : FMap Result := fun A B f m =>
  match m with
  | Ok a => Ok (f a)
  | Raise e => Raise e
  end.

Definition is_Ok {A} (m : Result A) : Prop :=
  match m with Ok _ => True | Raise _ => False end.

(** [for x in xs: st = body(st, x)], stopping at the first exception. *)
Fixpoint for_each {A S : Type} (xs : list A) (body : S → A → Result S) (st : S)
  : Result S :=
  match xs with
  | [] => Ok st
  | x :: xs' => do st' <- body st x; for_each xs' body st'
  end.

(** [range(n)] for a Python integer [n]: empty when [n <= 0]. *)
Definition py_range (n : Z) : list Z := Z.of_nat <$> seq 0 (Z.to_nat n).

(** ** Python sequences: indexing with negative indices *)

(** The position [seq[i]] reads in a sequence of length [len]: an index
    from [-len] to [-1] counts from the end, anything outside
    [-len .. len-1] raises [IndexError]. *)
Definition py_index (len : nat) (i : Z) : Result nat :=
  if decide (0 ≤ i < Z.of_nat len) then Ok (Z.to_nat i)
  else if decide (- Z.of_nat len ≤ i < 0) then Ok (Z.to_nat (Z.of_nat len + i))
  else Raise (IndexError "index out of range").

Definition py_getitem {A} (l : list A) (i : Z) : Result A :=
  do k <- py_index (length l) i;
  match l !! k with
  | Some x => Ok x
  | None => Raise (IndexError "index out of range")
  end.

(** [l[k:]] for a constant [k >= 0]. *)
Definition py_slice_from {A} (k : nat) (l : list A) : list A := drop k l.

(** [l.insert(k, x)] for [0 <= k]: past the end it appends. *)
Definition py_insert {A} (k : nat) (x : A) (l : list A) : list A :=
  take k l ++ x :: drop k l.

(** ** Python strings *)

Module PyStr.

(** The characters [str.strip] and [str.split] treat as blank. *)
Definition is_blank (c : ascii) : bool :=
  match nat_of_ascii c with
  | 9%nat | 10%nat | 11%nat | 12%nat | 13%nat | 32%nat => true
  | _ => false
  end.

Fixpoint lstrip (s : string) : string :=
  match s with
  | EmptyString => EmptyString
  | String c s' => if is_blank c then lstrip s' else s
  end.

(** [s.strip()] *)
Definition strip (s : string) : string :=
  String.rev (lstrip (String.rev (lstrip s))).

(** [s.split()]: the maximal runs of non-blank characters. *)
Fixpoint split_go (cur : option string) (s : string) : list string :=
  match s with
  | EmptyString =>
      match cur with Some w => [String.rev w] | None => [] end
  | String c s' =>
      if is_blank c then
        match cur with
        | Some w => String.rev w :: split_go None s'
        | None => split_go None s'
        end
      else
        split_go (Some (String c (default EmptyString cur))) s'
  end.
Definition split (s : string) : list string := split_go None s.

(** [s.split(c)] for a one-character separator: empty pieces are kept. *)
Fixpoint split_on_go (sep : ascii) (cur : string) (s : string) : list string :=
  match s with
  | EmptyString => [String.rev cur]
  | String c s' =>
      if decide (c = sep) then String.rev cur :: split_on_go sep EmptyString s'
      else split_on_go sep (String c cur) s'
  end.
Definition split_on (sep : ascii) (s : string) : list string :=
  split_on_go sep EmptyString s.

(** [s.replace(a, b)] for one-character [a] and [b]. *)
Fixpoint replace (a b : ascii) (s : string) : string :=
  match s with
  | EmptyString => EmptyString
  | String c s' => String (if decide (c = a) then b else c) (replace a b s')
  end.

Definition lower_char (c : ascii) : ascii :=
  let n := nat_of_ascii c in
  if decide (65 ≤ n ≤ 90)%nat then ascii_of_nat (n + 32) else c.

(** [s.lower()] *)
Fixpoint lower (s : string) : string :=
  match s with
  | EmptyString => EmptyString
  | String c s' => String (lower_char c) (lower s')
  end.

(** [needle in hay] *)
Fixpoint contains (needle hay : string) : bool :=
  if String.prefix needle hay then true
  else match hay with
       | EmptyString => false
       | String _ hay' => contains needle hay'
       end.

Definition digit_of (c : ascii) : option Z :=
  let n := nat_of_ascii c in
  if decide (48 ≤ n ≤ 57)%nat then Some (Z.of_nat n - 48) else None.

Fixpoint digits_go (acc : Z) (s : string) : option Z :=
  match s with
  | EmptyString => Some acc
  | String c s' => d ← digit_of c; digits_go (10 * acc + d) s'
  end.

(** A non-empty run of decimal digits. *)
Definition digits (s : string) : option Z :=
  match s with
  | EmptyString => None
  | _ => digits_go 0 s
  end.

(** [int(s)] on a token without blanks: an optional sign and decimal
    digits, [ValueError] otherwise. *)
Definition to_int (s : string) : Result Z :=
  let r :=
    match s with
    | String "-"%char s' => Z.opp <$> digits s'
    | String "+"%char s' => digits s'
    | _ => digits s
    end in
  match r with
  | Some z => Ok z
  | None => Raise (ValueError ("invalid literal for int() with base 10: " +:+ s))
  end.

(** ["%i" % n] *)
Definition of_int (n : Z) : string := pretty n.

End PyStr.

(** ** Numbers and arrays *)

Module Num.
Local Open Scope R_scope.

(** A complex array entry. *)
Record C : Type := mkC { Re : R; Im : R }.

Definition C0 : C := mkC 0 0.
Definition RtoC (x : R) : C := mkC x 0.
Definition Cadd (a b : C) : C := mkC (Re a + Re b) (Im a + Im b).
Definition Cmul (a b : C) : C :=
  mkC (Re a * Re b - Im a * Im b) (Re a * Im b + Im a * Re b).
Definition Cscale (x : R) (a : C) : C := mkC (x * Re a) (x * Im a).
(** [abs(z**2)] *)
Definition Cabs_sq (a : C) : R := sqrt (Re (Cmul a a) * Re (Cmul a a) + Im (Cmul a a) * Im (Cmul a a)).

(** Comparisons of floats as the booleans Python branches on. *)
Definition Rltb (x y : R) : bool := if Rlt_dec x y then true else false.
Definition Rleb (x y : R) : bool := if Rle_dec x y then true else false.
Definition Reqb (x y : R) : bool := if Req_dec_T x y then true else false.

Global Instance R_inhabited : Inhabited R := populate 0.

Definition Rsum (l : list R) : R := foldr Rplus 0 l.
Definition Rprod (l : list R) : R := foldr Rmult 1 l.
Global Instance C_inhabited : Inhabited C := populate C0.

Definition Csum (l : list C) : C := foldr Cadd C0 l.

(** A two-dimensional array: the list of its rows. *)
Abbreviation Matrix A := (list (list A)) (only parsing).

(** The array whose entry (i, j) is [f i j], of shape (n, m). *)
Definition build {A} (n m : nat) (f : nat → nat → A) : Matrix A :=
  (fun i => f i <$> seq 0 m) <$> seq 0 n.

(** [np.zeros((n, m))]: negative dimensions are refused. *)
Definition np_zeros2 {A} (zero : A) (n m : Z) : Result (Matrix A) :=
  if decide (n < 0 ∨ m < 0)%Z then Raise (ValueError "negative dimensions are not allowed")
  else Ok (replicate (Z.to_nat n) (replicate (Z.to_nat m) zero)).

(** Every row of [M] has [m] entries. *)
Definition has_cols {A} (m : nat) (M : Matrix A) : bool :=
  forallb (fun row => Nat.eqb (length row) m) M.

(** [M] has shape (n, m). *)
Definition has_shape {A} (n m : nat) (M : Matrix A) : bool :=
  Nat.eqb (length M) n && has_cols m M.

Definition broadcast_error {A} : Result A :=
  Raise (ValueError "operands could not be broadcast together").

(** [A * B] for two arrays of one shape; arrays of different shapes are
    refused (numpy would also accept shapes it can broadcast, which the
    class never builds). *)
Definition mul_elementwise {A} (mul : A → A → A) (M N : Matrix A) : Result (Matrix A) :=
  if Nat.eqb (length M) (length N)
     && forallb (fun p => Nat.eqb (length p.1) (length p.2)) (zip M N)
  then Ok (zip_with (zip_with mul) M N)
  else broadcast_error.

(** [a[mask]] for an integer index array. *)
Definition take_indices {A} (l : list A) (mask : list nat) : Result (list A) :=
  mapM (fun k => match l !! k with
                 | Some x => Ok x
                 | None => Raise (IndexError "index out of bounds")
                 end) mask.

(** [M[:, mask]] *)
Definition take_columns {A} (M : Matrix A) (mask : list nat) : Result (Matrix A) :=
  mapM (fun row => take_indices row mask) M.

(** [M[:, k:]] *)
Definition drop_columns {A} (k : nat) (M : Matrix A) : Matrix A := drop k <$> M.

(** [sum_i f[i] * a[i] * b[i]] over three vectors of one length. *)
Fixpoint dot3 (f a b : list R) : R :=
  match f, a, b with
  | fi :: f', ai :: a', bi :: b' => fi * ai * bi + dot3 f' a' b'
  | _, _, _ => 0
  end.

Fixpoint dot3C (f : list R) (a b : list C) : C :=
  match f, a, b with
  | fi :: f', ai :: a', bi :: b' => Cadd (Cmul (Cscale fi ai) bi) (dot3C f' a' b')
  | _, _, _ => C0
  end.

(** [np.einsum("i, ji, ki", f, A, B)]: entry (j, k) is
    [sum_i f[i] * A[j, i] * B[k, i]]; the length of [f] and the second
    dimensions of [A] and [B] must agree. *)
Definition einsum_i_ji_ki (f : list R) (A B : Matrix R) : Result (Matrix R) :=
  if has_cols (length f) A && has_cols (length f) B
  then Ok ((fun a => (fun b => dot3 f a b) <$> B) <$> A)
  else broadcast_error.

Definition einsum_i_ji_ki_C (f : list R) (A B : Matrix C) : Result (Matrix C) :=
  if has_cols (length f) A && has_cols (length f) B
  then Ok ((fun a => (fun b => dot3C f a b) <$> B) <$> A)
  else broadcast_error.

(** [sum_j row[j] * v[j]] *)
Fixpoint dot (a b : list R) : R :=
  match a, b with
  | ai :: a', bi :: b' => ai * bi + dot a' b'
  | _, _ => 0
  end.

(** [np.einsum("i, ij, j", u, M, v)] = [sum_i u[i] * (sum_j M[i, j] * v[j])]. *)
Definition quadratic_form (u : list R) (M : Matrix R) (v : list R) : R :=
  dot u ((fun row => dot row v) <$> M).

Definition einsum_i_ij_j (u : list R) (M : Matrix R) (v : list R) : Result R :=
  if has_shape (length u) (length v) M then Ok (quadratic_form u M v)
  else broadcast_error.

(** [np.tile(v, (n, 1))] and its transpose. *)
Definition tile_rows {A} (v : list A) (n : nat) : Matrix A := replicate n v.
Definition tile_cols {A} (v : list A) (n : nat) : Matrix A := (fun x => replicate n x) <$> v.

(** [M v] for a complex matrix and a complex vector. *)
Definition Cmat_vec (M : Matrix C) (v : list C) : list C :=
  (fun row : list C => Csum (zip_with Cmul row v)) <$> M.

(** An answer of [np.linalg.eig] that is right: one eigenvalue per row of
    [M], and with each eigenvalue [vals[i]] the column [i] of [vecs] as an
    eigenvector of Euclidean norm 1. *)
Definition eigen_decomposition (M : Matrix C) (r : list C * Matrix C) : Prop :=
  length r.1 = length M
  ∧ ∀ (i : nat) (ev : C), r.1 !! i = Some ev →
      let v := (fun row : list C => row !!! i) <$> r.2 in
      Cmat_vec M v = Cmul ev <$> v
      ∧ Rsum ((fun z => Re z * Re z + Im z * Im z) <$> v) = 1.

(** [M] equals its transpose: the entries (a, b) and (b, a) agree
    wherever one of them exists. *)
Definition symmetric (M : Matrix R) : Prop :=
  ∀ a b : nat, (M !! a) ≫= (fun row : list R => row !! b)
               = (M !! b) ≫= (fun row : list R => row !! a).

(** [M] is positive-semidefinite: [u M u >= 0] for every vector of its
    dimension. *)
Definition positive_semidefinite (M : Matrix R) : Prop :=
  ∀ u : list R, length u = length M → 0 <= quadratic_form u M u.

End Num.
Export Num.

(** ** What the module takes from outside the sources *)

(** numpy, scipy, the builtin [float] and the repository's module [Methods]
    (not among the sources).  The class is verified for every
    implementation; a statement that needs a property of one of them says
    so in a hypothesis. *)
Class Library : Type := {
  (** [float(s)]: [None] on a string that is no number. *)
  float_of_string : string → option R;
  (** [np.linalg.eig] on a complex array: eigenvalues, and the array whose
      column [i] is the eigenvector of eigenvalue [i]; [None] when LAPACK
      gives up. *)
  linalg_eig : Matrix C → option (list C * Matrix C);
  (** [np.linalg.eig] on a real array whose eigenvalues are real. *)
  linalg_eig_real : Matrix R → option (list R * Matrix R);
  (** [np.linalg.eigvals] on a real array whose eigenvalues are real. *)
  linalg_eigvals : Matrix R → option (list R);
  (** [np.argsort]: the order among equal entries is numpy's business. *)
  np_argsort : list R → list nat;
  (** [scipy.optimize.anderson(f, x0)]: [None] when it does not converge. *)
  anderson : (list R → list R) → list R → option (list R);
  (** [Methods.get_unit_cell_from_ibrav(ibrav, celldm)] *)
  Methods_get_unit_cell_from_ibrav : Z → list R → Result (Matrix R);
  (** [Methods.covariant_coordinates(unit_cell, vector)] *)
  Methods_covariant_coordinates : Matrix R → list C → Result (list C);
  (** Whether [array == None] compares entry by entry (numpy from 1.13 on)
      or answers [False] at once (the numpy releases before it). *)
  np_eq_None_elementwise : bool
}.

(** The property of [np.argsort] the statements about sorted output use:
    the mask lists every position once, and reading the array through it
    gives a non-decreasing sequence. *)
Definition argsort_sorts (argsort : list R → list nat) : Prop :=
  ∀ l : list R,
    Permutation (argsort l) (seq 0 (length l))
    ∧ Sorted Rle ((fun k => l !!! k) <$> argsort l).

(** ** The atomic structure *)

(** Modelled from the spec: the class [Structure.Structure] is an external
    collaborator (its module is not among the sources).  The record holds
    the attributes [Phonons] reads and writes: atom count, coordinates,
    species labels, the mass of each species, the unit cell. *)
Record Structure : Type := mkStructure {
  N_atoms : Z;
  atoms : list string;
  coords : Matrix R;
  masses : gmap string R;
  unit_cell : Matrix R;
  has_unit_cell : bool
}.

(** Modelled from the spec: [Structure.Structure()], the structure with no
    atom, which the loader fills. *)
Definition Structure_new : Structure :=
  {| N_atoms := 0; atoms := []; coords := []; masses := ∅;
     unit_cell := replicate 3 (replicate 3 0%R); has_unit_cell := false |}.

(** Modelled from the spec: [structure.set_masses(d)] records the mass table. *)
Definition set_masses (d : gmap string R) (s : Structure) : Structure :=
  {| N_atoms := N_atoms s; atoms := atoms s; coords := coords s; masses := d;
     unit_cell := unit_cell s; has_unit_cell := has_unit_cell s |}.

(** Modelled from the spec: [structure.copy()], a structure with the same
    contents (values are immutable here, so the copy is the value). *)
Definition Structure_copy (s : Structure) : Structure := s.

(** Modelled from the spec: [structure.change_unit_cell(new_cell)] installs
    the new cell (the external method also moves the atoms with the cell;
    no statement below reads the coordinates after it). *)
Definition change_unit_cell (new_cell : Matrix R) (s : Structure) : Structure :=
  {| N_atoms := N_atoms s; atoms := atoms s; coords := coords s; masses := masses s;
     unit_cell := new_cell; has_unit_cell := true |}.

(** [structure.masses[label]] *)
Definition mass_of (s : Structure) (label : string) : Result R :=
  match masses s !! label with
  | Some m => Ok m
  | None => Raise (KeyError label)
  end.

(** ** The class [Phonons] *)

(** The attributes [__init__] sets, in its order.  An absent optional
    tensor and an absent structure are [None]. *)
Record Phonons : Type := mkPhonons {
  dynmats : list (Matrix C);
  nqirr : Z;
  q_tot : list (list R);
  dielectric_tensor : option (Matrix R);
  effective_charges : option (list (Matrix R));
  raman_tensor : option (list (Matrix R));
  alat : R;
  initialized : bool;
  q_stars : list (list (list R));
  structure : option Structure
}.

(** Attribute updates [self.f = v]. *)
Definition set_dynmats v (p : Phonons) : Phonons :=
  mkPhonons v (nqirr p) (q_tot p) (dielectric_tensor p) (effective_charges p)
    (raman_tensor p) (alat p) (initialized p) (q_stars p) (structure p).
Definition set_q_tot v (p : Phonons) : Phonons :=
  mkPhonons (dynmats p) (nqirr p) v (dielectric_tensor p) (effective_charges p)
    (raman_tensor p) (alat p) (initialized p) (q_stars p) (structure p).
Definition set_dielectric_tensor v (p : Phonons) : Phonons :=
  mkPhonons (dynmats p) (nqirr p) (q_tot p) v (effective_charges p)
    (raman_tensor p) (alat p) (initialized p) (q_stars p) (structure p).
Definition set_effective_charges v (p : Phonons) : Phonons :=
  mkPhonons (dynmats p) (nqirr p) (q_tot p) (dielectric_tensor p) v
    (raman_tensor p) (alat p) (initialized p) (q_stars p) (structure p).
Definition set_raman_tensor v (p : Phonons) : Phonons :=
  mkPhonons (dynmats p) (nqirr p) (q_tot p) (dielectric_tensor p) (effective_charges p)
    v (alat p) (initialized p) (q_stars p) (structure p).
Definition set_alat v (p : Phonons) : Phonons :=
  mkPhonons (dynmats p) (nqirr p) (q_tot p) (dielectric_tensor p) (effective_charges p)
    (raman_tensor p) v (initialized p) (q_stars p) (structure p).
Definition set_initialized v (p : Phonons) : Phonons :=
  mkPhonons (dynmats p) (nqirr p) (q_tot p) (dielectric_tensor p) (effective_charges p)
    (raman_tensor p) (alat p) v (q_stars p) (structure p).
Definition set_q_stars v (p : Phonons) : Phonons :=
  mkPhonons (dynmats p) (nqirr p) (q_tot p) (dielectric_tensor p) (effective_charges p)
    (raman_tensor p) (alat p) (initialized p) v (structure p).
Definition set_structure v (p : Phonons) : Phonons :=
  mkPhonons (dynmats p) (nqirr p) (q_tot p) (dielectric_tensor p) (effective_charges p)
    (raman_tensor p) (alat p) (initialized p) (q_stars p) v.

(** The first lines of [__init__]: the attributes before the argument is
    looked at. *)
Definition Phonons_blank (nqirr : Z) : Phonons :=
  {| dynmats := []; nqirr := nqirr; q_tot := [];
     dielectric_tensor := None; effective_charges := None; raman_tensor := None;
     alat := 1%R; initialized := false; q_stars := []; structure := None |}.

(** [self.structure] followed by an attribute access: [None] has none. *)
Definition the_structure (self : Phonons) : Result Structure :=
  match structure self with
  | Some s => Ok s
  | None => Raise (AttributeError "'NoneType' object has no attribute")
  end.

(** The values an argument of a method can be.  [Phonons] is declared
    [class Phonons:] in a Python 2 module, an old-style class, and
    [type(x)] of every instance of an old-style class is the one type
    [instance]; [PyInstance cls] is an instance of another old-style
    class [cls] that has no attribute [structure]. *)
Inductive PyValue : Type :=
| PyNone
| PyBool (b : bool)
| PyInt (n : Z)
| PyFloat (x : R)
| PyStr (s : string)
| PyStructure (s : Structure)
| PyPhonons (p : Phonons)
| PyInstance (cls : string).

Inductive PyType : Type :=
| TNoneType | TBool | TInt | TFloat | TStr
| TStructure     (* the type of [Structure.Structure()] *)
| TInstance.     (* the type of every old-style instance *)

Global Instance PyType_eq_dec : EqDecision PyType.
Proof. solve_decision. Defined.

(** [type(v)] *)
Definition py_type (v : PyValue) : PyType :=
  match v with
  | PyNone => TNoneType
  | PyBool _ => TBool
  | PyInt _ => TInt
  | PyFloat _ => TFloat
  | PyStr _ => TStr
  | PyStructure _ => TStructure
  | PyPhonons _ => TInstance
  | PyInstance _ => TInstance
  end.

Section Methods.
Context {lib : Library}.
Local Open Scope R_scope.

(** The library calls with the exceptions they raise. *)
Definition py_float (s : string) : Result R :=
  match float_of_string s with
  | Some x => Ok x
  | None => Raise (ValueError ("could not convert string to float: " +:+ s))
  end.

Definition lapack {A} (r : option A) : Result A :=
  match r with
  | Some x => Ok x
  | None => Raise (LinAlgError "Eigenvalues did not converge")
  end.

Definition np_linalg_eig (M : Matrix C) : Result (list C * Matrix C) := lapack (linalg_eig M).
Definition np_linalg_eig_real (M : Matrix R) : Result (list R * Matrix R) :=
  lapack (linalg_eig_real M).
Definition np_linalg_eigvals (M : Matrix R) : Result (list R) := lapack (linalg_eigvals M).

Definition scipy_optimize_anderson (f : list R → list R) (x0 : list R) : Result (list R) :=
  match anderson f x0 with
  | Some x => Ok x
  | None => Raise NoConvergence
  end.

(** *** DyagDinQ (lines 337-388) *)

(** The frequency of an eigenvalue: [frequencies] starts as zeros, the
    entries with [f2 > 0] get [sqrt(f2)], those with [f2 < 0] get
    [-sqrt(-f2)]. *)
Definition frequency_of (f2 : R) : R :=
  if Rltb 0 f2 then sqrt f2
  else if Rltb f2 0 then - sqrt (- f2)
  else 0.

(** [real_dyn] before it is multiplied by the matrix: zeros of shape
    (3 N_atoms, 3 N_atoms) in which the block of the atoms (i, j) of
    [structure.atoms] is set to [1 / sqrt(m_i m_j)]; a block outside the
    array is cut off, as a numpy slice is. *)
Definition mass_weights (n : Z) (ms : list R) : Matrix C :=
  build (Z.to_nat (3 * n)) (Z.to_nat (3 * n)) (fun a b =>
    match ms !! (a / 3)%nat, ms !! (b / 3)%nat with
    | Some m1, Some m2 => RtoC (1 / sqrt (m1 * m2))
    | _, _ => C0
    end).

(** [real_dyn] when [np.linalg.eig] is called: the stored matrix with
    the entry (a, b) divided by [sqrt(mass(a) mass(b))]. *)
Definition mass_weighted (self : Phonons) (iq : Z) : Result (Matrix C) :=
  do st <- the_structure self;
  do _ <- np_zeros2 C0 (3 * N_atoms st) (3 * N_atoms st);
  do ms <- mapM (mass_of st) (atoms st);
  let real_dyn := mass_weights (N_atoms st) ms in
  do dyn <- py_getitem (dynmats self) iq;
  mul_elementwise Cmul real_dyn dyn.

Definition DyagDinQ (self : Phonons) (iq : Z) : Result (list R * Matrix C) :=
  do real_dyn <- mass_weighted self iq;
  do '(eigvals, pol_vects) <- np_linalg_eig real_dyn;
  let f2 := Re <$> eigvals in
  let frequencies := frequency_of <$> f2 in
  let sorting_mask := np_argsort frequencies in
  do frequencies <- take_indices frequencies sorting_mask;
  do pol_vects <- take_columns pol_vects sorting_mask;
  Ok (frequencies, pol_vects).

(** *** Copy (lines 390-407) *)

Definition Copy (self : Phonons) : Result Phonons :=
  let ret := Phonons_blank 1 in
  do st <- the_structure self;
  let ret := set_structure (Some (Structure_copy st)) ret in
  let ret := set_q_tot (q_tot self) ret in
  let ret := mkPhonons (dynmats ret) (nqirr self) (q_tot ret) (dielectric_tensor ret)
               (effective_charges ret) (raman_tensor ret) (alat ret) (initialized ret)
               (q_stars ret) (structure ret) in
  let ret := set_initialized (initialized self) ret in
  let ret := set_q_stars (q_stars self) ret in
  Ok (set_dynmats (dynmats ret ++ dynmats self) ret).

(** *** CheckCompatibility (lines 409-437) *)

(** [other.structure] for the values of the model. *)
Definition getattr_structure (other : PyValue) : Result (option Structure) :=
  match other with
  | PyPhonons p => Ok (structure p)
  | _ => Raise (AttributeError "object has no attribute 'structure'")
  end.

(** [other.nqirr] *)
Definition getattr_nqirr (other : PyValue) : Result Z :=
  match other with
  | PyPhonons p => Ok (nqirr p)
  | _ => Raise (AttributeError "object has no attribute 'nqirr'")
  end.

(** [s.N_atoms] where [s] is the value of a [structure] attribute. *)
Definition getattr_N_atoms (s : option Structure) : Result Z :=
  match s with
  | Some st => Ok (N_atoms st)
  | None => Raise (AttributeError "'NoneType' object has no attribute 'N_atoms'")
  end.

Definition CheckCompatibility (self : Phonons) (other : PyValue) : Result bool :=
  if decide (py_type other ≠ py_type (PyPhonons self)) then Ok false
  else
    do n1 <- getattr_N_atoms (structure self);
    do s2 <- getattr_structure other;
    do n2 <- getattr_N_atoms s2;
    if decide (n1 ≠ n2) then Ok false
    else
      do q2 <- getattr_nqirr other;
      if decide (nqirr self ≠ q2) then Ok false
      else Ok true.

(** *** GetUpsilonMatrix (lines 439-500) *)

Definition K_to_Ry : R := 6.336857346553283e-06.

(** The array [mass1] with [f(masses[atoms[i]])] at the three positions of
    atom [i], for [i] in [range(N_atoms)]. *)
Definition mass_array (f : R → R) (st : Structure) : Result (list R) :=
  do _ <- np_zeros2 0 1 (3 * N_atoms st);
  do ms <- mapM (fun i => do label <- py_getitem (atoms st) i;
                       do m <- mass_of st label;
                       Ok (f m))
            (py_range (N_atoms st));
  Ok (ms ≫= (fun m => [m; m; m])).

Definition GetUpsilonMatrix (self : Phonons) (T : R) : Result (Matrix R) :=
  if Rltb T 0 then Raise (ValueError "Error, T must be posititive (or zero)")
  else if decide (nqirr self ≠ 1%Z) then
    Raise (ValueError "Error, this function yet not supports the supercells.")
  else
    do '(w, pols) <- DyagDinQ self 0;
    let pols := (fun row : list C => Re <$> row) <$> pols in
    let w := drop 3 w in
    let pols := drop_columns 3 pols in
    let nw : R → R :=
      if Reqb T 0 then (fun _ => 0)
      else (fun wi => 1 / (exp (wi / (K_to_Ry * T)) - 1)) in
    let factor := (fun wi => 2 * wi / (1 + 2 * nw wi)) <$> w in
    do Upsilon <- einsum_i_ji_ki factor pols pols;
    do st <- the_structure self;
    do mass1 <- mass_array sqrt st;
    let n := Z.to_nat (3 * N_atoms st) in
    let _m1_ := tile_rows mass1 n in
    let _m2_ := tile_cols mass1 n in
    do r <- mul_elementwise Rmult Upsilon _m1_;
    mul_elementwise Rmult r _m2_.

(** *** GetProbability (lines 503-565) *)

(** The argument [displacement]: a flat array or an array of shape (N, 3). *)
Inductive Displacement : Type :=
| Disp1 (u : list R)
| Disp2 (u : Matrix R).

(** [displacement.reshape(n)] *)
Definition reshape_flat (u : Matrix R) (n : nat) : Result (list R) :=
  if Nat.eqb (length (concat u)) n then Ok (concat u)
  else Raise (ValueError "cannot reshape array").

(** [det]: the eigenvalues ordered by absolute value, each divided by
    [2 pi], the first three left out of the product. *)
Definition normalisation_det (upsilon_matrix : Matrix R) : Result R :=
  do vals <- np_linalg_eigvals upsilon_matrix;
  do vals <- take_indices vals (np_argsort (Rabs <$> vals));
  let vals := (fun v => v / (2 * PI)) <$> vals in
  Ok (Rprod (drop 3 vals)).

(** The method starts with [disp = np.zeros(3 * N_atoms)], which raises on
    a negative atom count and gives [len(disp)] otherwise. *)
Definition GetProbability (self : Phonons) (displacement : Displacement) (T : R)
    (upsilon_matrix : option (Matrix R)) (normalize : bool) : Result R :=
  do st <- the_structure self;
  do _ <- np_zeros2 0 1 (3 * N_atoms st);
  let len_disp := Z.to_nat (3 * N_atoms st) in
  do disp <- match displacement with
         | Disp2 u => reshape_flat u len_disp
         | Disp1 u => Ok u
         end;
  do upsilon_matrix <- match upsilon_matrix with
                   | None => GetUpsilonMatrix self T
                   | Some Y => Ok Y
                   end;
  do braket <- einsum_i_ij_j disp upsilon_matrix disp;
  do det <- normalisation_det upsilon_matrix;
  if normalize then Ok (sqrt det * exp (- braket))
  else Ok (exp (- braket)).

(** *** GetStrainMatrix (lines 610-724) *)

(** Column [i] of an array. *)
Definition column {A} (M : Matrix A) (i : nat) : Result (list A) :=
  mapM (fun row : list A => match row !! i with
                            | Some x => Ok x
                            | None => Raise (IndexError "index out of bounds")
                            end) M.

(** [np.einsum("ij, i", cell, v)]: entry [j] is [sum_i cell[i, j] * v[i]]. *)
Definition einsum_ij_i (cell : Matrix R) (v : list C) : Result (list C) :=
  if Nat.eqb (length cell) (length v) && has_cols 3 cell
  then Ok ((fun j => Csum (zip_with (fun (row : list R) x => Cscale (row !!! j) x) cell v))
             <$> seq 0 3)
  else broadcast_error.

(** The strained pattern of atom [j] in mode [i]: the three entries
    [new_vect[3j : 3(j+1), i]] receives. *)
Definition strained_block (st : Structure) (new_cell : Matrix R) (pol_vects : Matrix C)
    (i j : nat) : Result (list R) :=
  do col <- column pol_vects i;
  do cov_coord <- Methods_covariant_coordinates (unit_cell st) (take 3 (drop (3 * j) col));
  do v <- einsum_ij_i new_cell cov_coord;
  if Nat.eqb (length (take 3 (drop (3 * j) col))) 3 then Ok (Re <$> v)
  else broadcast_error.

Definition block_entry (blocks : list (list (list R))) (i j k : nat) : R :=
  match blocks !! i with
  | Some b => match b !! j with
              | Some v => default 0 (v !! k)
              | None => 0
              end
  | None => 0
  end.

(** [new_vect]: zeros of the shape of [pol_vects]; for the modes from the
    fourth on and every atom, the strained block. *)
Definition strained_vectors (st : Structure) (new_cell : Matrix R) (pol_vects : Matrix C)
    (n_modes : nat) : Result (Matrix R) :=
  do blocks <- mapM (M := Result) (fun i => mapM (M := Result) (strained_block st new_cell pol_vects i)
                             (seq 0 (Z.to_nat (N_atoms st))))
                (seq 3 (n_modes - 3));
  Ok (imap (fun a (row : list C) =>
              imap (fun i (_ : C) =>
                      if Nat.ltb i 3 then 0
                      else block_entry blocks (i - 3) (a / 3) (a mod 3))
                   row)
           pol_vects).

(** [x = np.zeros(n); x[3:] = v]: the length of [v] must fit. *)
Definition zeros_then_from_3 (n : nat) (v : list R) : Result (list R) :=
  if Nat.eqb (length v) (n - 3) then Ok (replicate (min 3 n) 0 ++ v)
  else broadcast_error.

(** [u op v] for two arrays of one length. *)
Definition zip_arrays (op : R → R → R) (u v : list R) : Result (list R) :=
  if Nat.eqb (length u) (length v) then Ok (zip_with op u v) else broadcast_error.

Definition GetStrainMatrix (self : Phonons) (new_cell : Matrix R) (T : R)
  : Result Phonons :=
  if Rltb T 0 then Raise (ValueError "Error, the temperature must be positive.")
  else
    do '(w, pol_vects) <- DyagDinQ self 0;
    let n_modes := length w in
    do st <- the_structure self;
    do new_vect <- strained_vectors st new_cell pol_vects n_modes;
    do factor <- zeros_then_from_3 n_modes
      (if Reqb T 0 then (fun wi => 1 / (2 * wi)) <$> drop 3 w
       else (fun wi => (1 + 1 / (exp (wi / (K_to_Ry * T)) - 1)) / (2 * wi)) <$> drop 3 w);
    do cmat <- einsum_i_ji_ki factor new_vect new_vect;
    do '(newf, new_pols) <- np_linalg_eig_real cmat;
    let sort_mask := np_argsort newf in
    do newf <- take_indices newf sort_mask;
    do new_pols <- take_columns new_pols sort_mask;
    do new_w <- zeros_then_from_3 n_modes ((fun f => 1 / (2 * f)) <$> drop 3 newf);
    let sort_mask := np_argsort new_w in
    do new_w <- take_indices new_w sort_mask;
    do new_pols <- take_columns new_pols sort_mask;
    do new_w <- (if Reqb T 0 then Ok new_w
             else scipy_optimize_anderson
                    (fun w => zip_with (fun wi fi => 2 * wi * fi - 1 / (1 - exp (wi / (K_to_Ry * T))))
                                       w newf)
                    new_w);
    do out_dyn <- Copy self;
    do out_st <- the_structure out_dyn;
    let out_dyn := set_structure (Some (change_unit_cell new_cell out_st)) out_dyn in
    do m <- einsum_i_ji_ki ((fun x => x * x) <$> new_w) new_pols new_pols;
    do _ <- py_index (length (dynmats out_dyn)) 0;
    do mass1 <- mass_array (fun m => m) st;
    let n := Z.to_nat (3 * N_atoms st) in
    do mm <- mul_elementwise Rmult (tile_rows mass1 n) (tile_cols mass1 n);
    do m <- mul_elementwise Rmult m ((fun row : list R => sqrt <$> row) <$> mm);
    Ok (set_dynmats (<[0%nat := (fun row : list R => RtoC <$> row) <$> m]> (dynmats out_dyn))
          out_dyn).

(** *** save_qe (lines 727-868): the numbers of the header *)

Definition A_TO_BOHR : R := 1.889725989.

(** The fourth field of the third line: [self.alat * A_TO_BOHR]. *)
Definition save_qe_celldm1 (self : Phonons) : R := alat self * A_TO_BOHR.

(** The three lines after "Basis vectors": [unit_cell[i, :] / self.alat]. *)
Definition save_qe_basis_vectors (self : Phonons) (st : Structure) : Matrix R :=
  (fun row : list R => (fun x => x / alat self) <$> row) <$> take 3 (unit_cell st).

(** The coordinates of the atom lines: [coords[i, :] / self.alat]. *)
Definition save_qe_coords (self : Phonons) (st : Structure) : Matrix R :=
  (fun row : list R => (fun x => x / alat self) <$> row) <$> coords st.

(** *** ForcePositiveDefinite (lines 872-903) *)

(** The body of the loop over [iq]. *)
Definition force_positive_one (sqrt_mm : Matrix R) (self : Phonons) (iq : nat)
  : Result Phonons :=
  do '(w, pols) <- DyagDinQ self (Z.of_nat iq);
  do m <- einsum_i_ji_ki_C ((fun x => x * x) <$> w) pols pols;
  do matrix <- mul_elementwise Cmul m ((fun row : list R => RtoC <$> row) <$> sqrt_mm);
  Ok (set_dynmats (<[iq := matrix]> (dynmats self)) self).

Definition ForcePositiveDefinite (self : Phonons) : Result Phonons :=
  do st <- the_structure self;
  do mass1 <- mass_array (fun m => m) st;
  let n := Z.to_nat (3 * N_atoms st) in
  let _m1_ := tile_rows mass1 n in
  let _m2_ := tile_cols mass1 n in
  for_each (seq 0 (length (dynmats self)))
    (fun self iq =>
       do mm <- mul_elementwise Rmult _m1_ _m2_;
       force_positive_one ((fun row : list R => sqrt <$> row) <$> mm) self iq)
    self.

(** *** GetRamanResponce (lines 906-961) *)

Definition raman_undefined : PyExc :=
  ValueError "Error, to get the raman responce the raman tensor must be defined".

Definition ambiguous_truth_value : PyExc :=
  ValueError "The truth value of an array with more than one element is ambiguous. Use a.any() or a.all()".

(** [if self.raman_tensor == None: raise ...].  On [None] the test holds.
    On an array, numpy from 1.13 on compares every entry with [None], and
    the [if] refuses an array of more than one truth value; the releases
    before answer [False]. *)
Definition check_raman_tensor (self : Phonons) : Result (list (Matrix R)) :=
  match raman_tensor self with
  | None => Raise raman_undefined
  | Some rt =>
      if np_eq_None_elementwise && Nat.ltb 1 (length (concat (concat rt)))
      then Raise ambiguous_truth_value
      else Ok rt
  end.

(** [np.einsum("ijk, kl, k, i, j", raman, pol_vects, m, pol_in, pol_out)]:
    entry [l] is [sum_ijk raman[i,j,k] pol_vects[k,l] m[k] pol_in[i] pol_out[j]]. *)
Definition einsum_raman (rt : list (Matrix R)) (pol_vects : Matrix C) (m : list R)
    (pol_in pol_out : list R) : Result (list C) :=
  let K := length m in
  let L := match pol_vects with row :: _ => length row | [] => 0%nat end in
  if Nat.eqb (length rt) (length pol_in)
     && forallb (has_shape (length pol_out) K) rt
     && has_shape K L pol_vects
  then
    let c := (fun k => Rsum (zip_with (fun (plane : Matrix R) a =>
                         a * Rsum (zip_with (fun (row : list R) b => b * (row !!! k)) plane pol_out))
                       rt pol_in)) <$> seq 0 K in
    Ok ((fun l => Csum (zip_with (fun (row : list C) cm => Cscale cm (row !!! l))
                           pol_vects (zip_with Rmult c m)))
          <$> seq 0 L)
  else broadcast_error.

Definition GetRamanResponce (self : Phonons) (pol_in pol_out : list R) (T : R)
  : Result (list R) :=
  do rt <- check_raman_tensor self;
  do '(w, pol_vects) <- DyagDinQ self 0;
  do st <- the_structure self;
  do _m_ <- mass_array (fun m => m) st;
  do I <- einsum_raman rt pol_vects _m_ pol_in pol_out;
  let n : R → R :=
    if Rltb 0 T then (fun wi => 1 / (exp (1 / (K_to_Ry * T) * wi) - 1))
    else (fun _ => 0) in
  zip_arrays (fun i2 wi => i2 * (1 + n wi) / wi) (Cabs_sq <$> I) w.

(** *** LoadFromQE (lines 98-335) *)

Definition BOHR_TO_ANGSTROM : R := 0.52918.

(** The files the loader can see: a path that is a file, with what
    [readlines()] returns for it. *)
Definition Files : Type := gmap string (list string).

Definition invalid_nqirr : PyExc :=
  ValueError "Error, the specified nqirr is not valid: it must be positive!".
Definition full_name_only_gamma : PyExc :=
  ValueError "Error, with full_name only gamma matrices are loaded.".
Definition file_does_not_exist (filepath : string) : PyExc :=
  ValueError ("Error, file " +:+ filepath +:+ " does not exist.").

Definition out_of_bounds {A} : Result A := Raise (IndexError "index is out of bounds").

(** [int(x)] of a float: the fractional part is dropped. *)
Definition int_of_float (x : R) : Z :=
  if Rleb 0 x then Int_part x else (- Int_part (- x))%Z.

(** [M[r, :] = vals] *)
Definition set_row {A} (M : Matrix A) (r : Z) (vals : list A) : Result (Matrix A) :=
  do k <- py_index (length M) r;
  match M !! k with
  | Some row => if Nat.eqb (length row) (length vals) then Ok (<[k := vals]> M)
                else broadcast_error
  | None => out_of_bounds
  end.

(** [M[r, c] = x] *)
Definition set_entry {A} (M : Matrix A) (r c : Z) (x : A) : Result (Matrix A) :=
  do k <- py_index (length M) r;
  match M !! k with
  | Some row => do j <- py_index (length row) c; Ok (<[k := <[j := x]> row]> M)
  | None => out_of_bounds
  end.

(** [M[:, c] = vals] *)
Definition set_column {A} (M : Matrix A) (c : Z) (vals : list A) : Result (Matrix A) :=
  if Nat.eqb (length M) (length vals) then
    mapM (M := Result)
         (fun p : list A * A => do j <- py_index (length p.1) c; Ok (<[j := p.2]> p.1))
         (zip M vals)
  else broadcast_error.

(** [T[k, ...] = f(T[k, ...])] on the first axis. *)
Definition update_plane {A} (T : list A) (k : Z) (f : A → Result A) : Result (list A) :=
  do i <- py_index (length T) k;
  match T !! i with
  | Some x => do y <- f x; Ok (<[i := y]> T)
  | None => out_of_bounds
  end.

(** The value a row of three entries receives from [np.array(vals) * alat]:
    three numbers, or one that numpy repeats. *)
Definition row3_of (vals : list R) (alat : R) : Result (list R) :=
  match vals with
  | [x; y; z] => Ok [x * alat; y * alat; z * alat]
  | [x] => Ok [x * alat; x * alat; x * alat]
  | _ => broadcast_error
  end.

Definition floats (toks : list string) : Result (list R) := mapM py_float toks.

(** [self.alat = float(struct_info[3]) * BOHR_TO_ANGSTROM] *)
Definition loaded_alat (celldm1 : R) : R := celldm1 * BOHR_TO_ANGSTROM.

(** The block [if (iq == 0)]: the header, the cell, the species and the
    atoms, read from the first file.  It returns the object and the lines
    (four are inserted when the cell comes from [ibrav]). *)
Definition read_species (dynlines : list string) (ntyp : Z)
  : Result (gmap Z string * gmap string R) :=
  for_each (Z.of_nat <$> seq 1 (Z.to_nat ntyp))
    (fun (d : gmap Z string * gmap string R) atom_index =>
       do atm_line <- py_getitem dynlines (6 + atom_index);
       do label <- py_getitem (PyStr.split_on "'" atm_line) 1;
       let atoms_dict := <[atom_index := PyStr.strip label]> d.1 in
       do mass_str <- py_getitem (PyStr.split_on "'" atm_line) (-1);
       do mass <- py_float (PyStr.strip mass_str);
       Ok (atoms_dict, <[PyStr.strip label := mass]> d.2))
    (∅, ∅).

Definition read_atoms (dynlines : list string) (atoms_dict : gmap Z string)
    (nat ntyp : Z) (alat : R) (st : Structure) : Result Structure :=
  for_each (py_range nat)
    (fun (st : Structure) i =>
       let line_index := (7 + ntyp + i)%Z in
       do line <- py_getitem dynlines line_index;
       do atom_info <- floats (PyStr.split line);
       do species <- py_getitem atom_info 1;
       do label <- match atoms_dict !! int_of_float species with
                   | Some l => Ok l
                   | None => Raise (KeyError (pretty (int_of_float species)))
                   end;
       let st := mkStructure (N_atoms st) (atoms st ++ [label]) (coords st)
                   (masses st) (unit_cell st) (has_unit_cell st) in
       do row <- row3_of (drop 2 atom_info) alat;
       do coords' <- set_row (coords st) i row;
       Ok (mkStructure (N_atoms st) (atoms st) coords'
             (masses st) (unit_cell st) (has_unit_cell st)))
    st.

Definition read_structure (self : Phonons) (dynlines : list string)
  : Result (Phonons * list string) :=
  do line2 <- py_getitem dynlines 2;
  let struct_info := PyStr.split line2 in
  do ibrav <- (do t <- py_getitem struct_info 2; PyStr.to_int t);
  do celldm <- mapM (M := Result) (fun k => do t <- py_getitem struct_info k; py_float t)
                 [3; 4; 5; 6; 7; 8]%Z;
  do nat <- (do t <- py_getitem struct_info 1; PyStr.to_int t);
  do ntyp <- (do t <- py_getitem struct_info 0; PyStr.to_int t);
  do celldm1 <- (do t <- py_getitem struct_info 3; py_float t);
  let self := set_alat (loaded_alat celldm1) self in
  do st <- the_structure self;
  do coords0 <- np_zeros2 0 nat 3;
  let st := mkStructure nat (atoms st) coords0 (masses st) (unit_cell st)
              (has_unit_cell st) in
  let unit_cell0 := replicate 3 (replicate 3 0) in
  do '(unit_cell, dynlines) <-
    (if decide (ibrav = 0%Z) then
       do cell <- for_each [0; 1; 2]%Z
                    (fun (cell : Matrix R) i =>
                       do line <- py_getitem dynlines (4 + i);
                       do vals <- floats (PyStr.split line);
                       do row <- row3_of vals (alat self);
                       set_row cell i row)
                    unit_cell0;
       Ok (cell, dynlines)
     else
       do cell <- Methods_get_unit_cell_from_ibrav ibrav celldm;
       Ok (cell, py_insert 3 ""%string (py_insert 3 ""%string
                   (py_insert 3 ""%string (py_insert 3 ""%string dynlines)))));
  do '(atoms_dict, masses_dict) <- read_species dynlines ntyp;
  let st := set_masses masses_dict st in
  let st := mkStructure (N_atoms st) (atoms st) (coords st) (masses st) unit_cell true in
  do st <- read_atoms dynlines atoms_dict nat ntyp (alat self) st;
  Ok (set_structure (Some st) self, dynlines).

(** The first [while]: lines are dropped up to and with the first one that
    contains "cartesian axes"; running out of lines is an [IndexError]. *)
Fixpoint pop_to_dynmat (dynlines : list string) : Result (list string) :=
  match dynlines with
  | [] => Raise (IndexError "list index out of range")
  | line :: rest =>
      if PyStr.contains "cartesian axes" line then Ok rest else pop_to_dynmat rest
  end.

(** The local variables of the second [while], with the object. *)
Record Scan : Type := mkScan {
  sc_self : Phonons;
  current_dyn : Matrix C;
  q_star : list (list R);
  atm_i : Z;
  atm_j : Z;
  coordline : Z;
  dielectric_read : Z;
  pol_read : Z;
  reading_dielectric : bool;
  reading_eff_charges : bool;
  reading_raman : bool
}.

Definition no_item_assignment {A} : Result A :=
  Raise (TypeError "'NoneType' object does not support item assignment").

(** A line that is no marker and has tokens: the part of the loop body
    under "Read what is needed". *)
Definition scan_numbers (sc : Scan) (numbers_in_line : list string) : Result Scan :=
  let self := sc_self sc in
  let n := length numbers_in_line in
  if reading_dielectric sc then
    if Nat.eqb n 3 then
      do vals <- floats numbers_in_line;
      match dielectric_tensor self with
      | None => no_item_assignment
      | Some eps =>
          do eps <- set_row eps (dielectric_read sc) vals;
          Ok (mkScan (set_dielectric_tensor (Some eps) self) (current_dyn sc) (q_star sc)
                (atm_i sc) (atm_j sc) (coordline sc) (dielectric_read sc + 1)%Z (pol_read sc)
                (reading_dielectric sc) (reading_eff_charges sc) (reading_raman sc))
      end
    else Ok sc
  else if reading_eff_charges sc then
    do first <- py_getitem numbers_in_line 0;
    if decide (PyStr.lower first = "atom"%string) then
      do i <- (do t <- py_getitem numbers_in_line 2; PyStr.to_int t);
      Ok (mkScan self (current_dyn sc) (q_star sc)
            (i - 1)%Z (atm_j sc) (coordline sc) 0%Z (pol_read sc)
            (reading_dielectric sc) (reading_eff_charges sc) (reading_raman sc))
    else if Nat.eqb n 3 then
      do vals <- floats numbers_in_line;
      match effective_charges self with
      | None => no_item_assignment
      | Some Zeff =>
          do Zeff <- update_plane Zeff (atm_i sc)
                       (fun plane => set_row plane (dielectric_read sc) vals);
          Ok (mkScan (set_effective_charges (Some Zeff) self) (current_dyn sc) (q_star sc)
                (atm_i sc) (atm_j sc) (coordline sc) (dielectric_read sc + 1)%Z (pol_read sc)
                (reading_dielectric sc) (reading_eff_charges sc) (reading_raman sc))
      end
    else Ok sc
  else if reading_raman sc then
    do first <- py_getitem numbers_in_line 0;
    if decide (PyStr.lower first = "atom"%string) then
      do i <- (do t <- py_getitem numbers_in_line 2; PyStr.to_int t);
      do p <- (do t <- py_getitem numbers_in_line 4; PyStr.to_int t);
      Ok (mkScan self (current_dyn sc) (q_star sc)
            (i - 1)%Z (atm_j sc) (coordline sc) 0%Z (p - 1)%Z
            (reading_dielectric sc) (reading_eff_charges sc) (reading_raman sc))
    else if Nat.eqb n 3 then
      do vals <- floats numbers_in_line;
      match raman_tensor self with
      | None => no_item_assignment
      | Some rt =>
          do rt <- update_plane rt (dielectric_read sc)
                     (fun plane => set_column plane (3 * atm_i sc + pol_read sc)%Z vals);
          Ok (mkScan (set_raman_tensor (Some rt) self) (current_dyn sc) (q_star sc)
                (atm_i sc) (atm_j sc) (coordline sc) (dielectric_read sc + 1)%Z (pol_read sc)
                (reading_dielectric sc) (reading_eff_charges sc) (reading_raman sc))
      end
    else Ok sc
  else if Nat.eqb n 2 then
    do i <- (do t <- py_getitem numbers_in_line 0; PyStr.to_int t);
    do j <- (do t <- py_getitem numbers_in_line 1; PyStr.to_int t);
    Ok (mkScan self (current_dyn sc) (q_star sc)
          (i - 1)%Z (j - 1)%Z 0%Z (dielectric_read sc) (pol_read sc)
          (reading_dielectric sc) (reading_eff_charges sc) (reading_raman sc))
  else if Nat.eqb n 6 then
    do dyn <- for_each [0; 1; 2]%Z
                (fun (dyn : Matrix C) k =>
                   do re <- (do t <- py_getitem numbers_in_line (2 * k); py_float t);
                   do im <- (do t <- py_getitem numbers_in_line (2 * k + 1); py_float t);
                   set_entry dyn (3 * atm_i sc + coordline sc)%Z (3 * atm_j sc + k)%Z
                     (mkC re im))
                (current_dyn sc);
    Ok (mkScan self dyn (q_star sc)
          (atm_i sc) (atm_j sc) (coordline sc + 1)%Z (dielectric_read sc) (pol_read sc)
          (reading_dielectric sc) (reading_eff_charges sc) (reading_raman sc))
  else Ok sc.

(** The flags of the three optional blocks, all set at once. *)
Definition set_reading (d e r : bool) (self : Phonons) (sc : Scan) : Scan :=
  mkScan self (current_dyn sc) (q_star sc) (atm_i sc) (atm_j sc) (coordline sc)
    (dielectric_read sc) (pol_read sc) d e r.

(** The second [while]: one line per turn, from the first on; it ends at
    the line that contains "Diagonalizing" and raises [IndexError] when the
    lines end before. *)
Fixpoint scan_lines (dynlines : list string) (sc : Scan) : Result Scan :=
  match dynlines with
  | [] => Raise (IndexError "list index out of range")
  | line :: rest =>
      let self := sc_self sc in
      if PyStr.contains "Diagonalizing" line then
        Ok (set_reading (reading_dielectric sc) (reading_eff_charges sc) (reading_raman sc)
              (set_dynmats (dynmats self ++ [current_dyn sc]) self) sc)
      else if PyStr.contains "Dielectric" line then
        let self := set_dielectric_tensor (Some (replicate 3 (replicate 3 0))) self in
        let sc := set_reading true false false self sc in
        scan_lines rest
          (mkScan (sc_self sc) (current_dyn sc) (q_star sc) (atm_i sc) (atm_j sc)
             (coordline sc) 0%Z (pol_read sc)
             (reading_dielectric sc) (reading_eff_charges sc) (reading_raman sc))
      else if PyStr.contains "Effective" line then
        do st <- the_structure self;
        if decide (N_atoms st < 0)%Z
        then Raise (ValueError "negative dimensions are not allowed")
        else
          let self := set_effective_charges
                        (Some (replicate (Z.to_nat (N_atoms st)) (replicate 3 (replicate 3 0))))
                        self in
          scan_lines rest (set_reading false true false self sc)
      else if PyStr.contains "Raman" line then
        do st <- the_structure self;
        if decide (N_atoms st < 0)%Z
        then Raise (ValueError "negative dimensions are not allowed")
        else
          let self := set_raman_tensor
                        (Some (replicate 3 (replicate 3
                                 (replicate (Z.to_nat (3 * N_atoms st)) 0))))
                        self in
          scan_lines rest (set_reading false false true self sc)
      else if PyStr.contains "q = " line then
        do inside <- py_getitem (PyStr.split_on ")" (PyStr.replace "(" ")" line)) 1;
        do qpoint <- floats (PyStr.split inside);
        let self := set_q_tot (q_tot self ++ [qpoint]) self in
        let sc := set_reading false false false self sc in
        scan_lines rest
          (mkScan (sc_self sc) (current_dyn sc) (q_star sc ++ [qpoint]) (atm_i sc) (atm_j sc)
             (coordline sc) (dielectric_read sc) (pol_read sc)
             (reading_dielectric sc) (reading_eff_charges sc) (reading_raman sc))
      else if PyStr.contains "ynamical" line then
        let self := set_dynmats (dynmats self ++ [current_dyn sc]) self in
        scan_lines rest (set_reading false false false self sc)
      else
        match PyStr.split line with
        | [] => scan_lines rest sc
        | numbers_in_line => do sc <- scan_numbers sc numbers_in_line; scan_lines rest sc
        end
  end.

(** The file of the q point [iq]: ["%s%i" % (fildyn_prefix, iq + 1)], or
    the name itself with [full_name]. *)
Definition filepath_of (fildyn_prefix : string) (full_name : bool) (iq : Z) : string :=
  if negb full_name then (fildyn_prefix +:+ PyStr.of_int (iq + 1))%string
  else fildyn_prefix.

(** The body of [for iq in range(nqirr)]. *)
Definition load_file (fs : Files) (fildyn_prefix : string) (full_name : bool)
    (self : Phonons) (iq : Z) : Result Phonons :=
  let filepath := filepath_of fildyn_prefix full_name iq in
  match fs !! filepath with
  | None => Raise (file_does_not_exist filepath)
  | Some lines =>
      let dynlines := PyStr.strip <$> lines in
      do '(self, dynlines) <-
        (if decide (iq = 0%Z) then read_structure self dynlines else Ok (self, dynlines));
      do dynlines <- pop_to_dynmat dynlines;
      do st <- the_structure self;
      do current_dyn <- np_zeros2 C0 (3 * N_atoms st) (3 * N_atoms st);
      do sc <- scan_lines dynlines
                 (mkScan self current_dyn [] 0%Z 0%Z 0%Z 0%Z 0%Z false false false);
      let self := sc_self sc in
      Ok (set_q_stars (q_stars self ++ [q_star sc]) self)
  end.

Definition LoadFromQE (fs : Files) (self : Phonons) (fildyn_prefix : string)
    (nqirr : Z) (full_name : bool) : Result Phonons :=
  if decide (nqirr ≤ 0)%Z then Raise invalid_nqirr
  else if full_name && bool_decide (nqirr > 1)%Z then Raise full_name_only_gamma
  else
    let self := set_structure (Some Structure_new) self in
    do self <- for_each (py_range nqirr) (load_file fs fildyn_prefix full_name) self;
    Ok (set_initialized true self).

(** *** __init__ (lines 28-95) *)

Definition structure_empty : PyExc :=
  ValueError "Error, the given structure cannot be empty.".
Definition nqirr_not_positive : PyExc :=
  ValueError "Error, nqirr argument must be a strictly positive number.".

(** [for i in n] where [n] is an integer: an integer cannot be iterated. *)
Definition iterate_int (n : Z) : Result (list Z) :=
  Raise (TypeError "'int' object is not iterable").

Definition Phonons_init (fs : Files) (structure : PyValue) (nqirr : Z)
    (full_name : bool) : Result Phonons :=
  let self := Phonons_blank nqirr in
  if decide (py_type structure = py_type (PyStr "hello there!")) then
    match structure with
    | PyStr path => LoadFromQE fs self path nqirr full_name
    | _ => Ok self
    end
  else if decide (py_type structure = py_type (PyStructure Structure_new)) then
    match structure with
    | PyStructure st =>
        let self := set_structure (Some st) self in
        if decide (N_atoms st ≤ 0)%Z then Raise structure_empty
        else if decide (nqirr ≤ 0)%Z then Raise nqirr_not_positive
        else
          let self := set_dynmats [] self in
          do items <- iterate_int nqirr;
          for_each items
            (fun self (_ : Z) =>
               do zeros <- np_zeros2 C0 (3 * N_atoms st) (3 * N_atoms st);
               Ok (set_dynmats (dynmats self ++ [zeros]) self))
            self
    | _ => Ok self
    end
  else Ok self.

End Methods.

(** ** More of the class: what it writes, samples and measures *)

Section MoreMethods.
Context {lib : Library}.
Local Open Scope R_scope.

(** *** save_qe (lines 727-868): the files and the species numbers *)

(** The names of the files [save_qe] opens, in the order of the loop over
    [iq]: [filename] itself with [full_name] (one file), and
    [filename + str(iq + 1)] for each irreducible q point otherwise. *)
Definition save_qe_filenames (self : Phonons) (filename : string) (full_name : bool)
  : list string :=
  let nqirr := if full_name then 1%Z else nqirr self in
  (fun iq => if negb full_name then (filename +:+ PyStr.of_int (iq + 1))%string else filename)
    <$> py_range nqirr.

(** [types]: the labels of the atoms [0 .. N_atoms - 1], each once, in
    the order of first appearance. *)
Definition save_qe_types (st : Structure) : Result (list string) :=
  for_each (py_range (N_atoms st))
    (fun (types : list string) i =>
       do a <- py_getitem (atoms st) i;
       if bool_decide (a ∈ types) then Ok types else Ok (types ++ [a]))
    [].

(** [itau]: the number of each species, counted from 1. *)
Definition save_qe_itau (types : list string) : Result (gmap string Z) :=
  for_each (py_range (Z.of_nat (length types)))
    (fun (itau : gmap string Z) i =>
       do t <- py_getitem types i; Ok (<[t := (i + 1)%Z]> itau))
    ∅.

(** The species number written on the line of atom [i]:
    [itau[self.structure.atoms[i]]]. *)
Definition save_qe_species_number (st : Structure) (itau : gmap string Z) (i : Z)
  : Result Z :=
  do a <- py_getitem (atoms st) i;
  match itau !! a with
  | Some k => Ok k
  | None => Raise (KeyError a)
  end.

(** *** ExtractRandomStructures (lines 965-1050) *)

Definition BOHR_TO_ANG : R := 0.529177249.

Definition supercells_not_implemented : PyExc :=
  ValueError "Error, not yet implemented with supercells".
Definition isolate_atoms_out_of_boundary : PyExc :=
  ValueError "Error, index in isolate_atoms out of boundary".

(** [np.max(l)] of a list of integers that is not empty. *)
Definition np_max (l : list Z) : Z := foldr Z.max (hd 0%Z l) l.

(** [np.einsum("ij, j, kj", P, a, rand)]: entry (i, k) is
    [sum_j P[i, j] * a[j] * rand[k, j]]. *)
Definition einsum_ij_j_kj (P : Matrix R) (a : list R) (rand : Matrix R) : Result (Matrix R) :=
  if has_cols (length a) P && has_cols (length a) rand
  then Ok ((fun p => (fun r => dot3 a p r) <$> rand) <$> P)
  else broadcast_error.

(** [row += v] on a row of an array: [v] has the length of the row, or
    one entry that is added everywhere. *)
Definition iadd_broadcast (row v : list R) : Result (list R) :=
  if Nat.eqb (length v) (length row) then Ok (zip_with Rplus row v)
  else match v with
       | [x] => Ok ((fun r => r + x) <$> row)
       | _ => broadcast_error
       end.

(** [s.coords = c] and [s.N_atoms = n] *)
Definition with_coords (c : Matrix R) (s : Structure) : Structure :=
  mkStructure (N_atoms s) (atoms s) c (masses s) (unit_cell s) (has_unit_cell s).
Definition with_N_atoms (n : Z) (s : Structure) : Structure :=
  mkStructure n (atoms s) (coords s) (masses s) (unit_cell s) (has_unit_cell s).

(** [total_coords[3*k : 3*(k+1), i]] for [k >= 0], where [ncols] is the
    second dimension of [total_coords]. *)
Definition mode_slice (total_coords : Matrix R) (ncols : nat) (k : Z) (i : nat)
  : Result (list R) :=
  if Nat.ltb i ncols
  then Ok ((fun row : list R => row !!! i) <$> take 3 (drop (Z.to_nat (3 * k)) total_coords))
  else Raise (IndexError "index out of bounds").

(** The loop over [k]: the copy of the structure with every atom moved by
    its part of the column [i] of [total_coords], divided by the square root
    of its mass.  The row [coords[k, :]] is read before the right-hand side
    of [+=] is computed. *)
Definition displaced (st : Structure) (total_coords : Matrix R) (ncols : nat) (i : nat)
  : Result Structure :=
  let tmp_str := Structure_copy st in
  for_each (py_range (N_atoms tmp_str))
    (fun (tmp_str : Structure) k =>
       do row <- py_getitem (coords tmp_str) k;
       do slice <- mode_slice total_coords ncols k i;
       do label <- py_getitem (atoms st) k;
       do m <- mass_of st label;
       do row <- iadd_broadcast row ((fun x => x / sqrt m) <$> slice);
       do coords' <- set_row (coords tmp_str) k row;
       Ok (with_coords coords' tmp_str))
    tmp_str.

(** The block [if len(isolate_atoms)]: the atom count becomes the number
    of indices, and row [j] of the coordinates the row of the [j]-th index
    in the coordinates as they were (the other rows and the labels stay). *)
Definition isolated (isolate_atoms : list Z) (tmp_str : Structure) : Result Structure :=
  if Nat.eqb (length isolate_atoms) 0 then Ok tmp_str
  else
    let tmp_str := with_N_atoms (Z.of_nat (length isolate_atoms)) tmp_str in
    let new_coords := coords tmp_str in
    for_each (imap (fun j x => (Z.of_nat j, x)) isolate_atoms)
      (fun (tmp_str : Structure) '(j, x) =>
         do row <- py_getitem new_coords x;
         do coords' <- set_row (coords tmp_str) j row;
         Ok (with_coords coords' tmp_str))
      tmp_str.

(** The random numbers are an argument: [normal size n] is the array
    [np.random.normal(size = (size, n))] draws, of that shape. *)
Definition ExtractRandomStructures (self : Phonons) (size : Z) (T : R)
    (isolate_atoms : list Z) (normal : nat → nat → Matrix R) : Result (list Structure) :=
  if decide (nqirr self ≠ 1%Z) then Raise supercells_not_implemented
  else
    do _ <- (if Nat.eqb (length isolate_atoms) 0 then Ok tt
             else do st <- the_structure self;
                  if decide (np_max isolate_atoms >= N_atoms st)%Z
                  then Raise isolate_atoms_out_of_boundary
                  else Ok tt);
    do '(ws, pol_vects) <- DyagDinQ self 0;
    let ws := drop 3 ws in
    let pol_vects := drop_columns 3 pol_vects in
    let n_modes := length ws in
    let a_mu :=
      if Reqb T 0 then (fun w => 1 / sqrt (2 * w) * BOHR_TO_ANG) <$> ws
      else (fun w => 1 / sqrt (tanh (1 / (K_to_Ry * T) * w / 2) * 2 * w) * BOHR_TO_ANG) <$> ws in
    do st <- the_structure self;
    do _ <- np_zeros2 0 size (N_atoms st);
    let rand := normal (Z.to_nat size) n_modes in
    do mass1 <- mass_array (fun m => m) st;
    do total_coords <- einsum_ij_j_kj ((fun row : list C => Re <$> row) <$> pol_vects) a_mu rand;
    mapM (M := Result)
      (fun i => do tmp_str <- displaced st total_coords (length rand) i;
                isolated isolate_atoms tmp_str)
      (seq 0 (Z.to_nat size)).

End MoreMethods.

Section WithDisplacement.
Context {lib : Library}.
Local Open Scope R_scope.

(** [structure.get_displacement(other)], a method of the class
    [Structure.Structure], whose module is not among the sources: the
    array of the displacements of the atoms of [structure] from those of
    [other] ([other] is [None] when the set has no structure), or an
    exception.  The two methods below are verified for every such method. *)
Variable get_displacement : Structure → option Structure → Result (Matrix R).

(** *** GetRatioProbability (lines 567-608) *)

Definition GetRatioProbability (self : Phonons) (struct : Structure) (T : R)
    (dyn0 : Phonons) (T0 : R) : Result R :=
  do disp1 <- get_displacement struct (structure self);
  do disp0 <- get_displacement struct (structure dyn0);
  do p1 <- GetProbability self (Disp2 disp1) T None true;
  do p0 <- GetProbability dyn0 (Disp2 disp0) T0 None true;
  Ok (p1 / p0).

(** *** get_energy_forces (lines 1052-1100) *)

Definition shapes_not_aligned {A} : Result A := Raise (ValueError "shapes not aligned").

(** [u.reshape(n)] for an integer [n] other than -1. *)
Definition reshape_to (u : Matrix R) (n : Z) : Result (list R) :=
  if decide (n < 0)%Z then Raise (ValueError "negative dimensions not allowed")
  else reshape_flat u (Z.to_nat n).

(** [M.dot(v)] for a complex array of two dimensions and a real vector. *)
Definition dot_matrix_vector (M : Matrix C) (v : list R) : Result (list C) :=
  if has_cols (length v) M
  then Ok ((fun row : list C => Csum (zip_with Cscale v row)) <$> M)
  else shapes_not_aligned.

(** [v.dot(w)] for a real and a complex vector. *)
Definition dot_vector (v : list R) (w : list C) : Result C :=
  if Nat.eqb (length v) (length w) then Ok (Csum (zip_with Cscale v w))
  else shapes_not_aligned.

(** [f.reshape((n, 3))] *)
Definition reshape_rows3 (f : list C) (n : Z) : Result (Matrix C) :=
  if decide (n < 0)%Z then Raise (ValueError "negative dimensions not allowed")
  else if Nat.eqb (length f) (3 * Z.to_nat n)
       then Ok ((fun k => take 3 (drop (3 * k) f)) <$> seq 0 (Z.to_nat n))
       else Raise (ValueError "cannot reshape array").

(** The forces as the method returns them: a vector, or one row per atom. *)
Inductive Forces : Type :=
| ForceVector (f : list C)
| ForceRows (f : Matrix C).

(** The entries of the forces, in the order of the coordinates. *)
Definition force_entries (f : Forces) : list C :=
  match f with
  | ForceVector v => v
  | ForceRows rows => concat rows
  end.

Definition get_energy_forces (self : Phonons) (struct : Structure) (vector1d : bool)
  : Result (C * Forces) :=
  do disp <- get_displacement struct (structure self);
  do rv <- reshape_to disp (N_atoms struct * 3);
  let rv := (fun x => x * A_TO_BOHR) <$> rv in
  do dyn <- py_getitem (dynmats self) 0;
  do Frv <- dot_matrix_vector dyn rv;
  do e <- dot_vector rv Frv;
  let energy := Cscale 0.5 e in
  let forces := Cscale A_TO_BOHR <$> Frv in
  if negb vector1d then
    do st <- the_structure self;
    do rows <- reshape_rows3 forces (N_atoms st);
    Ok (energy, ForceRows rows)
  else Ok (energy, ForceVector forces).

End WithDisplacement.

(** ** Notions the statements use *)

Section Notions.
Context {lib : Library}.
Local Open Scope R_scope.

(** [m] does not raise [e]. *)
Definition avoids {A} (e : PyExc) (m : Result A) : Prop := m ≠ Raise e.

(** Every species of the structure has a mass. *)
Definition masses_cover (st : Structure) : Prop :=
  ∀ a, a ∈ atoms st → is_Some (masses st !! a).

(** The files before the q point [k] are read without error, from the
    object as [LoadFromQE] prepares it, and leave the object [self_k]. *)
Definition loaded_before (fs : Files) (fildyn_prefix : string) (full_name : bool)
    (self : Phonons) (k : Z) (self_k : Phonons) : Prop :=
  for_each (py_range k) (load_file fs fildyn_prefix full_name)
    (set_structure (Some Structure_new) self) = Ok self_k.

(** The factor by which a length grows when the header [save_qe] writes is
    read by [LoadFromQE]: the two conversion constants are not inverse. *)
Definition reload_factor : R := A_TO_BOHR * BOHR_TO_ANGSTROM.

(** [sum_p u1[p] * sum_q g(L1[p], L2[q]) * u2[q]] *)
Definition bilinear {X Y} (g : X → Y → R) (L1 : list X) (u1 : list R)
    (L2 : list Y) (u2 : list R) : R :=
  dot u1 ((fun p => dot ((fun q => g p q) <$> L2) u2) <$> L1).

(** The entry of the weighted sum of outer products: rows [p], [q] of the
    vectors with their weights [sqrt(m)]. *)
Definition gram (f : list R) (p q : list R * R) : R :=
  dot3 f p.1 q.1 * q.2 * p.2.

End Notions.

Section MoreNotions.
Local Open Scope R_scope.

(** Every entry of the array has a zero imaginary part. *)
Definition real_entries (M : Matrix C) : Prop :=
  ∀ row z, row ∈ M → z ∈ row → Im z = 0.

(** The complex array with the real entries of [U]. *)
Definition to_complex (U : Matrix R) : Matrix C := (fun row : list R => RtoC <$> row) <$> U.

(** [np.linalg.eig] answers with real eigenvectors, as it does on a real
    symmetric matrix. *)
Definition real_eigenvectors (lib : Library) : Prop :=
  ∀ M vals vecs, linalg_eig M = Some (vals, vecs) → real_entries vecs.

(** What the loader leaves alone while it reads numbers: [b] differs from
    [a] at most in the optional tensors, [alat] and [initialized]. *)
Definition same_core (a b : Phonons) : Prop :=
  nqirr b = nqirr a ∧ structure b = structure a ∧ q_stars b = q_stars a
  ∧ q_tot b = q_tot a ∧ dynmats b = dynmats a.

(** The parts of a structure the extraction of random structures does
    not touch. *)
Definition same_frame (st tmp : Structure) : Prop :=
  atoms tmp = atoms st ∧ masses tmp = masses st ∧ unit_cell tmp = unit_cell st
  ∧ has_unit_cell tmp = has_unit_cell st ∧ length (coords tmp) = length (coords st).

(** What makes a structure usable by the class: the atom count is not
    negative and is the number of labels and of coordinate rows, every row
    has three entries, every label has a mass. *)
Definition well_formed (st : Structure) : Prop :=
  (0 ≤ N_atoms st)%Z
  ∧ length (atoms st) = Z.to_nat (N_atoms st)
  ∧ has_shape (Z.to_nat (N_atoms st)) 3 (coords st) = true
  ∧ masses_cover st.

End MoreNotions.

(** ** An implementation of the library, to run the methods *)

(** It is exact on the inputs the examples below use: plain decimal
    literals for [float], diagonal matrices for the eigenvalue routines
    (the eigenvalues of a diagonal matrix are its diagonal entries, the
    eigenvectors the unit vectors), and a stable sort for [argsort]. *)
Module Reference.
Local Open Scope R_scope.

(** [float] on an optional sign, digits, and an optional fraction. *)
Definition unsigned_decimal (s : string) : option R :=
  match PyStr.split_on "." s with
  | [a] => IZR <$> PyStr.digits a
  | [a; b] =>
      match PyStr.digits_go 0 a, PyStr.digits_go 0 b with
      | Some x, Some y =>
          if decide (a = ""%string ∧ b = ""%string) then None
          else Some (IZR x + IZR y / IZR (10 ^ Z.of_nat (String.length b)))
      | _, _ => None
      end
  | _ => None
  end.

Definition decimal_float (s : string) : option R :=
  match s with
  | String "-"%char s' => Ropp <$> unsigned_decimal s'
  | String "+"%char s' => unsigned_decimal s'
  | _ => unsigned_decimal s
  end.

Definition diagonal {A} (zero : A) (M : Matrix A) : list A :=
  imap (fun i (row : list A) => default zero (row !! i)) M.

Definition identity {A} (zero one : A) (n : nat) : Matrix A :=
  build n n (fun i j => if Nat.eqb i j then one else zero).

Definition eig_diagonal (M : Matrix C) : option (list C * Matrix C) :=
  Some (diagonal C0 M, identity C0 (RtoC 1) (length M)).

Definition eig_real_diagonal (M : Matrix R) : option (list R * Matrix R) :=
  Some (diagonal 0 M, identity 0 1 (length M)).

Definition eigvals_diagonal (M : Matrix R) : option (list R) := Some (diagonal 0 M).

(** Insertion of the position [k] before the first position whose entry
    is not smaller. *)
Fixpoint insert_by (key : nat → R) (k : nat) (mask : list nat) : list nat :=
  match mask with
  | [] => [k]
  | j :: mask' => if Rleb (key k) (key j) then k :: mask else j :: insert_by key k mask'
  end.

Definition argsort (l : list R) : list nat :=
  foldr (insert_by (fun k => l !!! k)) [] (seq 0 (length l)).

(** A solver that accepts a seed which already solves the equation. *)
Definition anderson_at_root (f : list R → list R) (x0 : list R) : option (list R) :=
  if forallb (fun y => Reqb y 0) (f x0) then Some x0 else None.

(** The implementation with a given answer for the complex eigenproblem. *)
Definition library_with (eig : Matrix C → option (list C * Matrix C)) : Library := {|
  float_of_string := decimal_float;
  linalg_eig := eig;
  linalg_eig_real := eig_real_diagonal;
  linalg_eigvals := eigvals_diagonal;
  np_argsort := argsort;
  anderson := anderson_at_root;
  Methods_get_unit_cell_from_ibrav := fun _ _ => Raise (ValueError "ibrav not supported");
  Methods_covariant_coordinates := fun cell v =>
    Ok ((fun row : list R => Csum (zip_with Cscale row v)) <$> cell);
  np_eq_None_elementwise := true
|}.

Definition library : Library := library_with eig_diagonal.

End Reference.

(** ** Inputs for the examples *)

Module Examples.
Local Open Scope R_scope.

(** One atom of unit mass in a unit cell. *)
Definition one_atom : Structure :=
  {| N_atoms := 1; atoms := ["H"%string]; coords := [[0; 0; 0]];
     masses := {[ "H"%string := 1 ]};
     unit_cell := [[1; 0; 0]; [0; 1; 0]; [0; 0; 1]]; has_unit_cell := true |}.

(** Two atoms of unit mass. *)
Definition two_atoms : Structure :=
  {| N_atoms := 2; atoms := ["H"%string; "H"%string]; coords := [[0; 0; 0]; [1; 0; 0]];
     masses := {[ "H"%string := 1 ]};
     unit_cell := [[2; 0; 0]; [0; 2; 0]; [0; 0; 2]]; has_unit_cell := true |}.

(** A loaded Gamma-only set over a structure, with one matrix. *)
Definition gamma_set (st : Structure) (D : Matrix C) : Phonons :=
  {| dynmats := [D]; nqirr := 1; q_tot := [[0; 0; 0]];
     dielectric_tensor := None; effective_charges := None; raman_tensor := None;
     alat := 1; initialized := true; q_stars := [[[0; 0; 0]]];
     structure := Some st |}.

(** The real diagonal matrix with the entries [d]. *)
Definition diag (d : list R) : Matrix C :=
  imap (fun i x => imap (fun j _ => if Nat.eqb i j then RtoC x else C0) d) d.

(** The same as a real array, as an Upsilon matrix is. *)
Definition rdiag (d : list R) : Matrix R :=
  imap (fun i x => imap (fun j _ => if Nat.eqb i j then x else 0) d) d.

(** The diagonal matrix of three real entries. *)
Definition diag3 (a b c : R) : Matrix C :=
  [[RtoC a; C0; C0]; [C0; RtoC b; C0]; [C0; C0; RtoC c]].

(** A Hermitian matrix with complex entries, as a matrix at a q point
    other than Gamma is: rows (1, i, 0), (-i, 1, 0), (0, 0, 1).  Its
    eigenvalues are 2, 0 and 1, all non-negative. *)
Definition hermitian : Matrix C :=
  [[RtoC 1; mkC 0 1; C0]; [mkC 0 (-1); RtoC 1; C0]; [C0; C0; RtoC 1]].

(** The eigen-decomposition of [hermitian] (with unit mass the
    mass-weighted matrix is the matrix itself): the unit eigenvectors
    (1, -i, 0)/sqrt(2) for 2, (1, i, 0)/sqrt(2) for 0 and (0, 0, 1) for 1, as
    columns. *)
Definition eig_of_hermitian : list C * Matrix C :=
  let r := / sqrt 2 in
  ([RtoC 2; C0; RtoC 1],
   [[mkC r 0; mkC r 0; C0]; [mkC 0 (- r); mkC 0 r; C0]; [C0; C0; RtoC 1]]).

(** The eigen-decomposition of the matrix with the rows (1, -i, 0),
    (-i, -1, 0), (0, 0, 1), which [ForcePositiveDefinite] makes of
    [hermitian]: the eigenvalue 0 twice, with the only eigenvector
    (1, -i, 0)/sqrt(2) it has, and 1 with (0, 0, 1). *)
Definition eig_of_rebuilt : list C * Matrix C :=
  let r := / sqrt 2 in
  ([C0; C0; RtoC 1],
   [[mkC r 0; mkC r 0; C0]; [mkC 0 (- r); mkC 0 (- r); C0]; [C0; C0; RtoC 1]]).

(** [np.linalg.eig] on the two matrices of this example, told apart by the
    sign of the entry (1, 1). *)
Definition eig_hermitian_example (M : Matrix C) : option (list C * Matrix C) :=
  if Rltb (Re ((M !!! 1%nat) !!! 1%nat)) 0 then Some eig_of_rebuilt
  else Some eig_of_hermitian.

(** A Gamma-point file of one hydrogen atom in a cubic cell of 10 Bohr,
    as [readlines()] returns it (without the line ends). *)
Definition sample_file : list string := [
  "Dynamical matrix file";
  "one atom";
  "  1    1   0  10.0  0.0  0.0  0.0  0.0  0.0";
  "Basis vectors";
  "      1.0    0.0    0.0";
  "      0.0    1.0    0.0";
  "      0.0    0.0    1.0";
  "           1  'H  '  1.0";
  "    1    1      0.0      0.0      0.0";
  "";
  "     Dynamical  Matrix in cartesian axes";
  "";
  "     q = (    0.0   0.0   0.0 )";
  "";
  "    1    1";
  "  1.0  0.0    0.0  0.0    0.0  0.0";
  "  0.0  0.0    4.0  0.0    0.0  0.0";
  "  0.0  0.0    0.0  0.0    9.0  0.0";
  "";
  "     Diagonalizing the dynamical matrix"
]%string.

(** A Gamma-only set of one atom of unit mass with the identity matrix. *)
Definition unit_set : Phonons := gamma_set one_atom (diag3 1 1 1).

(** [unit_set] with a Raman tensor of zeros. *)
Definition with_raman_tensor : Phonons :=
  set_raman_tensor (Some (replicate 3 (replicate 3 (replicate 3 0)))) unit_set.

(** A draw in which every random number is zero. *)
Definition zero_draw (size n : nat) : Matrix R := replicate size (replicate n 0).

(** A [get_displacement] for structures that sit on their reference. *)
Definition at_rest (s : Structure) (other : option Structure) : Result (Matrix R) :=
  Ok (replicate (Z.to_nat (N_atoms s)) [0; 0; 0]).

End Examples.

(** * Properties *)

Example split_header :
  PyStr.split "  2    3   0  10.0 0.0  0.0 " = ["2"; "3"; "0"; "10.0"; "0.0"; "0.0"]%string.
Proof. reflexivity. Qed.

Example split_label :
  PyStr.strip <$> (PyStr.split_on "'" "1  'H  '  1837.47")
  = ["1"; "H"; "1837.47"]%string.
Proof. reflexivity. Qed.

Example contains_marker :
  PyStr.contains "cartesian axes" "     Dynamical  Matrix in cartesian axes" = true
  ∧ PyStr.contains "ynamical" "Diagonalizing the dynamical matrix" = true
  ∧ PyStr.contains "q = " "q=(0 0 0)" = false.
Proof. repeat split; reflexivity. Qed.

Example to_int_cases :
  PyStr.to_int "-12" = Ok (-12) ∧ PyStr.to_int "007" = Ok 7
  ∧ is_Ok (PyStr.to_int "1.5") = False ∧ PyStr.of_int 12 = "12"%string.
Proof. repeat split; reflexivity. Qed.

(** ** Computations that avoid an exception *)

Section Avoids.
Context {lib : Library}.

Lemma avoids_Ok {A} e (a : A) : avoids e (Ok a).
Proof. discriminate. Qed.

Lemma avoids_Raise {A} e e' : e' ≠ e → avoids (A := A) e (Raise e').
Proof. intros Hne Heq. apply Hne. congruence. Qed.

Lemma avoids_bind {A B} e (m : Result A) (f : A → Result B) :
  avoids e m → (∀ a, m = Ok a → avoids e (f a)) → avoids e (bind m f).
Proof.
  intros Hm Hf. destruct m as [a|e']; simpl.
  - apply Hf. reflexivity.
  - intros Heq. apply Hm. congruence.
Qed.

Lemma avoids_mapM {A B} e (f : A → Result B) (l : list A) :
  (∀ x, avoids e (f x)) → avoids e (mapM f l).
Proof.
  intros Hf. induction l as [|x l IH]; simpl.
  - apply avoids_Ok.
  - unfold mbind, Result_bind. apply avoids_bind; [apply Hf|].
    intros y _. apply avoids_bind; [exact IH|]. intros. apply avoids_Ok.
Qed.

Lemma avoids_for_each {A S} e (body : S → A → Result S) (xs : list A) (st : S) :
  (∀ s x, avoids e (body s x)) → avoids e (for_each xs body st).
Proof.
  intros Hb. revert st. induction xs as [|x xs IH]; intros st; simpl.
  - apply avoids_Ok.
  - apply avoids_bind; [apply Hb | intros; apply IH].
Qed.

End Avoids.

Create HintDb avoids.

Ltac avoid_step :=
  first
    [ apply avoids_Ok
    | apply avoids_Raise; discriminate
    | solve [auto with avoids]
    | apply avoids_bind; [| intros ? _]
    | apply avoids_mapM; intros ?
    | match goal with
      | |- avoids _ (match ?x with _ => _ end) => destruct x
      | |- avoids _ (if ?b then _ else _) => destruct b
      end ].

Ltac avoid := repeat avoid_step.

Section RamanResponse.
Context {lib : Library}.

Lemma the_structure_avoids self : avoids raman_undefined (the_structure self).
Proof. unfold the_structure. avoid. Qed.

Lemma py_index_avoids len i : avoids raman_undefined (py_index len i).
Proof. unfold py_index. avoid. Qed.

Lemma np_zeros2_avoids {A} (z : A) n m : avoids raman_undefined (np_zeros2 z n m).
Proof. unfold np_zeros2. avoid. Qed.

Lemma mass_of_avoids st label : avoids raman_undefined (mass_of st label).
Proof. unfold mass_of. avoid. Qed.

Lemma mul_elementwise_avoids {A} (f : A → A → A) M N :
  avoids raman_undefined (mul_elementwise f M N).
Proof. unfold mul_elementwise, broadcast_error. avoid. Qed.

Lemma np_linalg_eig_avoids M : avoids raman_undefined (np_linalg_eig M).
Proof. unfold np_linalg_eig, lapack. avoid. Qed.

#[local] Hint Resolve the_structure_avoids py_index_avoids np_zeros2_avoids
  mass_of_avoids mul_elementwise_avoids np_linalg_eig_avoids : avoids.

Lemma py_getitem_avoids {A} (l : list A) i : avoids raman_undefined (py_getitem l i).
Proof. unfold py_getitem. avoid. Qed.

Lemma take_indices_avoids {A} (l : list A) mask :
  avoids raman_undefined (take_indices l mask).
Proof. unfold take_indices. avoid. Qed.

#[local] Hint Resolve py_getitem_avoids take_indices_avoids : avoids.

Lemma mass_array_avoids f st : avoids raman_undefined (mass_array f st).
Proof. unfold mass_array. avoid. Qed.

Lemma DyagDinQ_avoids self iq : avoids raman_undefined (DyagDinQ self iq).
Proof. unfold DyagDinQ, mass_weighted, take_columns. avoid. Qed.

#[local] Hint Resolve mass_array_avoids DyagDinQ_avoids : avoids.

(** C9. [GetRamanResponce] raises the error "the raman tensor must be
    defined" on every set whose [raman_tensor] is [None], and on a set
    whose [raman_tensor] is present it ends in another way (with a value
    or with another exception), whatever numpy answers. *)
Theorem GetRamanResponce_raman_tensor (self : Phonons) (pol_in pol_out : list R) (T : R) :
  (raman_tensor self = None →
     GetRamanResponce self pol_in pol_out T = Raise raman_undefined)
  ∧ (raman_tensor self ≠ None →
     GetRamanResponce self pol_in pol_out T ≠ Raise raman_undefined).
Proof.
  split.
  - intros Hnone. unfold GetRamanResponce, check_raman_tensor. rewrite Hnone. reflexivity.
  - intros Hsome. change (avoids raman_undefined (GetRamanResponce self pol_in pol_out T)).
    unfold GetRamanResponce, check_raman_tensor.
    destruct (raman_tensor self) as [rt|]; [|congruence].
    unfold einsum_raman, zip_arrays, broadcast_error, ambiguous_truth_value.
    avoid.
Qed.

End RamanResponse.

Lemma GetRamanResponce_raman_tensor_witness :
  let with_tensor :=
    set_raman_tensor (Some (replicate 3 (replicate 3 (replicate 3 0%R))))
      (Examples.gamma_set Examples.one_atom (Examples.diag3 1 4 9)) in
  GetRamanResponce (lib := Reference.library)
    (Examples.gamma_set Examples.one_atom (Examples.diag3 1 4 9))
    [1; 0; 0]%R [1; 0; 0]%R 0%R = Raise raman_undefined
  ∧ GetRamanResponce (lib := Reference.library) with_tensor [1; 0; 0]%R [1; 0; 0]%R 0%R
    ≠ Raise raman_undefined.
Proof.
  split.
  - apply (proj1 (GetRamanResponce_raman_tensor (lib := Reference.library) _ _ _ _)).
    reflexivity.
  - apply (proj2 (GetRamanResponce_raman_tensor (lib := Reference.library) _ _ _ _)).
    discriminate.
Defined.

(** ** Guards on the temperature and on supercells *)

Section Guards.
Context {lib : Library}.
Local Open Scope R_scope.

Lemma Rltb_true x y : x < y → Rltb x y = true.
Proof. intros H. unfold Rltb. destruct (Rlt_dec x y); [reflexivity | contradiction]. Qed.

Lemma Rltb_false x y : ¬ x < y → Rltb x y = false.
Proof. intros H. unfold Rltb. destruct (Rlt_dec x y); [contradiction | reflexivity]. Qed.

Lemma Rleb_true x y : x <= y → Rleb x y = true.
Proof. intros H. unfold Rleb. destruct (Rle_dec x y); [reflexivity | contradiction]. Qed.

Lemma Rleb_false x y : ¬ x <= y → Rleb x y = false.
Proof. intros H. unfold Rleb. destruct (Rle_dec x y); [contradiction | reflexivity]. Qed.

Lemma Reqb_true x y : x = y → Reqb x y = true.
Proof. intros H. unfold Reqb. destruct (Req_dec_T x y); [reflexivity | contradiction]. Qed.

Lemma Reqb_false x y : x ≠ y → Reqb x y = false.
Proof. intros H. unfold Reqb. destruct (Req_dec_T x y); [contradiction | reflexivity]. Qed.

(** C8. [GetUpsilonMatrix] raises its [ValueError] on a negative
    temperature, and a [ValueError] on every set with more than one
    irreducible q point (the one about the temperature when the temperature
    is negative too, the one about supercells otherwise); [GetStrainMatrix]
    raises its [ValueError] on a negative temperature. *)
Theorem negative_temperature_and_supercell_rejected
    (self : Phonons) (new_cell : Matrix R) (T : R) :
  (T < 0 →
     GetUpsilonMatrix self T = Raise (ValueError "Error, T must be posititive (or zero)")
     ∧ GetStrainMatrix self new_cell T
       = Raise (ValueError "Error, the temperature must be positive."))
  ∧ ((1 < nqirr self)%Z →
     GetUpsilonMatrix self T
     = Raise (ValueError (if Rltb T 0 then "Error, T must be posititive (or zero)"
                          else "Error, this function yet not supports the supercells."))).
Proof.
  split.
  - intros HT. unfold GetUpsilonMatrix, GetStrainMatrix.
    rewrite (Rltb_true _ _ HT). split; reflexivity.
  - intros Hq. unfold GetUpsilonMatrix. destruct (Rltb T 0); [reflexivity|].
    destruct (decide (nqirr self ≠ 1%Z)) as [_|Heq]; [reflexivity|].
    exfalso. apply Heq. lia.
Qed.

End Guards.

Lemma negative_temperature_and_supercell_rejected_witness :
  let self := Examples.gamma_set Examples.one_atom (Examples.diag3 1 4 9) in
  let supercell := mkPhonons (dynmats self) 2 (q_tot self) None None None 1%R true
                     (q_stars self) (structure self) in
  (GetUpsilonMatrix (lib := Reference.library) self (-1)%R
   = Raise (ValueError "Error, T must be posititive (or zero)")
   ∧ GetStrainMatrix (lib := Reference.library) self (unit_cell Examples.one_atom) (-1)%R
     = Raise (ValueError "Error, the temperature must be positive."))
  ∧ GetUpsilonMatrix (lib := Reference.library) supercell 0%R
    = Raise (ValueError "Error, this function yet not supports the supercells.").
Proof.
  intros self supercell. split.
  - apply (proj1 (negative_temperature_and_supercell_rejected (lib := Reference.library)
                    self (unit_cell Examples.one_atom) (-1)%R)).
    lra.
  - pose proof (proj2 (negative_temperature_and_supercell_rejected (lib := Reference.library)
                         supercell [] 0%R)) as H.
    rewrite (Rltb_false 0 0) in H by lra. apply H. simpl. lia.
Defined.

(** ** The constructor on a structure *)

(** C4 (what the code does instead).  On every structure with at least
    one atom and every integer [nqirr >= 1], [__init__] reaches
    [for i in nqirr] and raises [TypeError]: no object is built, so no list
    of [nqirr] zero matrices. *)
Theorem Phonons_init_structure_raises (lib : Library) (fs : Files) (st : Structure)
    (nqirr : Z) (full_name : bool) :
  0 < N_atoms st → 1 ≤ nqirr →
  Phonons_init fs (PyStructure st) nqirr full_name
  = Raise (TypeError "'int' object is not iterable").
Proof.
  intros Hn Hq. unfold Phonons_init. simpl.
  destruct (decide (N_atoms st ≤ 0)); [lia|].
  destruct (decide (nqirr ≤ 0)); [lia|].
  reflexivity.
Qed.

Lemma Phonons_init_structure_raises_witness :
  0 < N_atoms Examples.one_atom ∧ 1 ≤ 1
  ∧ Phonons_init (lib := Reference.library) ∅ (PyStructure Examples.one_atom) 1 false
    = Raise (TypeError "'int' object is not iterable").
Proof.
  assert (H1 : 0 < N_atoms Examples.one_atom) by (simpl; lia).
  assert (H2 : 1 ≤ 1) by lia.
  exact (conj H1 (conj H2
    (Phonons_init_structure_raises Reference.library ∅ Examples.one_atom 1 false H1 H2))).
Defined.

(** ** CheckCompatibility *)

(** C10 (amended).  On a set that has a structure: the result is [False]
    for every [other] whose type is not the type of the set; for an
    [other] that is a set with a structure, the result is [True] exactly
    when the atom counts and the numbers of irreducible q points agree (the
    species are not compared).  The function returns a boolean and nothing
    else, so neither object changes. *)
Theorem CheckCompatibility_result (self : Phonons) (other : PyValue) (s1 : Structure) :
  structure self = Some s1 →
  (py_type other ≠ py_type (PyPhonons self) → CheckCompatibility self other = Ok false)
  ∧ (∀ p s2, other = PyPhonons p → structure p = Some s2 →
       CheckCompatibility self other
       = Ok (bool_decide (N_atoms s1 = N_atoms s2 ∧ nqirr self = nqirr p))).
Proof.
  intros Hs1. split.
  - intros Hty. unfold CheckCompatibility.
    destruct (decide (py_type other ≠ py_type (PyPhonons self))); [reflexivity|contradiction].
  - intros p s2 -> Hs2. unfold CheckCompatibility. simpl.
    rewrite Hs1, Hs2. simpl.
    destruct (decide (N_atoms s1 ≠ N_atoms s2)) as [Hn|Hn]; simpl.
    + rewrite bool_decide_eq_false_2; [reflexivity|]. intros [? _]. contradiction.
    + destruct (decide (nqirr self ≠ nqirr p)) as [Hq|Hq].
      * rewrite bool_decide_eq_false_2; [reflexivity|]. intros [_ ?]. contradiction.
      * rewrite bool_decide_eq_true_2; [reflexivity|]. split; [lia|lia].
Qed.

Lemma CheckCompatibility_result_witness :
  let self := Examples.gamma_set Examples.one_atom (Examples.diag3 1 4 9) in
  let other := Examples.gamma_set Examples.two_atoms [] in
  structure self = Some Examples.one_atom
  ∧ CheckCompatibility self (PyStr "dyn") = Ok false
  ∧ CheckCompatibility self (PyPhonons other) = Ok false
  ∧ CheckCompatibility self (PyPhonons self) = Ok true.
Proof.
  intros self other.
  assert (Hs : structure self = Some Examples.one_atom) by reflexivity.
  split; [exact Hs|]. split; [|split].
  - apply (proj1 (CheckCompatibility_result self (PyStr "dyn") _ Hs)). discriminate.
  - exact (proj2 (CheckCompatibility_result self (PyPhonons other) _ Hs)
             other Examples.two_atoms eq_refl eq_refl).
  - exact (proj2 (CheckCompatibility_result self (PyPhonons self) _ Hs)
             self Examples.one_atom eq_refl eq_refl).
Defined.

(** C10 as stated fails: on a set without a structure (the object
    [Phonons()] builds) the function raises [AttributeError] instead of
    returning, and on an instance of another old-style class, which is no
    set, it does not return [False] but raises as well. *)
Lemma CheckCompatibility_raises :
  CheckCompatibility (Phonons_blank 1) (PyPhonons (Phonons_blank 1))
  = Raise (AttributeError "'NoneType' object has no attribute 'N_atoms'")
  ∧ CheckCompatibility (Examples.gamma_set Examples.one_atom (Examples.diag3 1 4 9))
      (PyInstance "Atoms")
    = Raise (AttributeError "object has no attribute 'structure'").
Proof. split; reflexivity. Qed.

(** ** The failures of the loader *)

Section Loader.
Context {lib : Library}.

Lemma for_each_app {A S} (body : S → A → Result S) (xs ys : list A) (st : S) :
  for_each (xs ++ ys) body st = bind (for_each xs body st) (for_each ys body).
Proof.
  revert st. induction xs as [|x xs IH]; intros st; simpl; [reflexivity|].
  destruct (body st x) as [st'|e]; simpl; [apply IH | reflexivity].
Qed.

Lemma py_range_split (n k : Z) :
  0 ≤ k < n →
  py_range n = py_range k ++ k :: (Z.of_nat <$> seq (S (Z.to_nat k)) (Z.to_nat (n - k - 1))).
Proof.
  intros Hk. unfold py_range.
  replace (Z.to_nat n) with (Z.to_nat k + S (Z.to_nat (n - k - 1)))%nat by lia.
  rewrite seq_app, fmap_app. simpl. f_equal. f_equal. lia.
Qed.

(** C3 (amended).  [LoadFromQE] raises the error about [nqirr] whenever
    [nqirr <= 0]; the error about [full_name] whenever [full_name] comes
    with [nqirr > 1]; and, when the arguments pass these two tests, the
    error "file ... does not exist" for the first q point whose file is
    missing, provided the files before it were read without error. *)
Theorem LoadFromQE_failures (fs : Files) (self : Phonons) (fildyn_prefix : string)
    (nqirr : Z) (full_name : bool) :
  (nqirr ≤ 0 → LoadFromQE fs self fildyn_prefix nqirr full_name = Raise invalid_nqirr)
  ∧ (full_name = true → 1 < nqirr →
     LoadFromQE fs self fildyn_prefix nqirr full_name = Raise full_name_only_gamma)
  ∧ (∀ k self_k,
       0 ≤ k < nqirr → ¬ (full_name = true ∧ 1 < nqirr) →
       loaded_before fs fildyn_prefix full_name self k self_k →
       fs !! filepath_of fildyn_prefix full_name k = None →
       LoadFromQE fs self fildyn_prefix nqirr full_name
       = Raise (file_does_not_exist (filepath_of fildyn_prefix full_name k))).
Proof.
  split; [|split].
  - intros Hn. unfold LoadFromQE. destruct (decide (nqirr ≤ 0)); [reflexivity|lia].
  - intros -> Hn. unfold LoadFromQE. destruct (decide (nqirr ≤ 0)); [lia|].
    simpl. rewrite bool_decide_eq_true_2 by lia. reflexivity.
  - intros k self_k Hk Hargs Hbefore Hmissing. unfold LoadFromQE.
    destruct (decide (nqirr ≤ 0)); [lia|].
    assert (full_name && bool_decide (nqirr > 1) = false) as ->.
    { destruct full_name; [|reflexivity]. simpl. apply bool_decide_eq_false_2.
      intros ?. apply Hargs. split; [reflexivity|lia]. }
    rewrite (py_range_split nqirr k Hk), for_each_app.
    unfold loaded_before in Hbefore. rewrite Hbefore. simpl.
    unfold load_file at 1. rewrite Hmissing. reflexivity.
Qed.

End Loader.

Lemma LoadFromQE_failures_witness :
  LoadFromQE (lib := Reference.library) ∅ (Phonons_blank 0) "dyn" 0 false = Raise invalid_nqirr
  ∧ LoadFromQE (lib := Reference.library) ∅ (Phonons_blank 2) "dyn" 2 true
    = Raise full_name_only_gamma
  ∧ LoadFromQE (lib := Reference.library) ∅ (Phonons_blank 2) "dyn" 2 false
    = Raise (file_does_not_exist "dyn1").
Proof.
  split; [|split].
  - apply (proj1 (LoadFromQE_failures (lib := Reference.library) ∅ (Phonons_blank 0) "dyn" 0 false)).
    lia.
  - apply (proj1 (proj2 (LoadFromQE_failures (lib := Reference.library) ∅ (Phonons_blank 2)
                           "dyn" 2 true))); [reflexivity | lia].
  - apply (proj2 (proj2 (LoadFromQE_failures (lib := Reference.library) ∅ (Phonons_blank 2)
                           "dyn" 2 false)) 0 (set_structure (Some Structure_new) (Phonons_blank 2))).
    + lia.
    + intros [Hf _]. discriminate Hf.
    + reflexivity.
    + reflexivity.
Defined.

(** C3 as stated fails: with two q points, a first file that exists and
    is empty and a second file that does not exist, the loader ends with
    the [IndexError] of the first file, not with the error about the
    missing file. *)
Lemma LoadFromQE_missing_file_not_reached :
  let fs : Files := {[ "dyn1"%string := [] ]} in
  fs !! "dyn2"%string = None
  ∧ LoadFromQE (lib := Reference.library) fs (Phonons_blank 2) "dyn" 2 false
    = Raise (IndexError "index out of range").
Proof. split; reflexivity. Qed.

(** ** The diagonaliser *)

Section Diagonaliser.
Context {lib : Library}.
Local Open Scope R_scope.

Lemma frequency_of_convention (f2 : R) :
  (0 < f2 → frequency_of f2 = sqrt f2)
  ∧ (f2 < 0 → frequency_of f2 = - sqrt (- f2))
  ∧ (f2 = 0 → frequency_of f2 = 0).
Proof.
  unfold frequency_of. repeat split; intros H.
  - rewrite Rltb_true by exact H. reflexivity.
  - rewrite Rltb_false by lra. rewrite Rltb_true by exact H. reflexivity.
  - rewrite !Rltb_false by lra. reflexivity.
Qed.

Lemma mapM_cons {A B} (f : A → Result B) (x : A) (l : list A) :
  mapM f (x :: l) = bind (f x) (fun y => bind (mapM f l) (fun k => Ok (y :: k))).
Proof. reflexivity. Qed.

Lemma mapM_Ok {A B} (f : A → Result B) (g : A → B) (l : list A) :
  (∀ x, x ∈ l → f x = Ok (g x)) → mapM f l = Ok (g <$> l).
Proof.
  induction l as [|x l IH]; intros Hf; [reflexivity|].
  rewrite mapM_cons, Hf by left. simpl.
  rewrite IH; [reflexivity|]. intros y Hy. apply Hf. right. exact Hy.
Qed.

Lemma mapM_is_Ok {A B} (f : A → Result B) (l : list A) :
  (∀ x, x ∈ l → is_Ok (f x)) → ∃ ys, mapM f l = Ok ys ∧ length ys = length l.
Proof.
  induction l as [|x l IH]; intros Hf.
  - exists []. split; reflexivity.
  - rewrite mapM_cons.
    pose proof (Hf x ltac:(left)) as Hx. destruct (f x) as [y|e]; [|contradiction].
    destruct IH as (ys & Hys & Hlen). { intros z Hz. apply Hf. right. exact Hz. }
    exists (y :: ys). simpl. rewrite Hys. simpl. split; [reflexivity|]. rewrite Hlen. reflexivity.
Qed.

Lemma take_indices_Ok {A} `{!Inhabited A} (l : list A) (mask : list nat) :
  (∀ k, k ∈ mask → (k < length l)%nat) →
  take_indices l mask = Ok ((fun k => l !!! k) <$> mask).
Proof.
  intros Hin. unfold take_indices. apply mapM_Ok. intros k Hk.
  destruct (lookup_lt_is_Some_2 l k (Hin k Hk)) as [x Hx].
  rewrite Hx. f_equal. symmetry. apply list_lookup_total_correct. exact Hx.
Qed.

Lemma has_cols_length {A} (m : nat) (M : Matrix A) (row : list A) :
  has_cols m M = true → row ∈ M → length row = m.
Proof.
  unfold has_cols. rewrite forallb_forall. intros H Hin.
  apply Nat.eqb_eq, H, list_elem_of_In, Hin.
Qed.

Lemma take_columns_Ok {A} `{!Inhabited A} (M : Matrix A) (m : nat) (mask : list nat) :
  has_cols m M = true → (∀ k, k ∈ mask → (k < m)%nat) →
  take_columns M mask = Ok ((fun row : list A => (fun k => row !!! k) <$> mask) <$> M).
Proof.
  intros Hcols Hin. unfold take_columns. apply mapM_Ok. intros row Hrow.
  apply take_indices_Ok. intros k Hk. rewrite (has_cols_length m M row Hcols Hrow).
  apply Hin, Hk.
Qed.

Lemma mask_in_range (mask : list nat) (n : nat) :
  Permutation mask (seq 0 n) → ∀ k, k ∈ mask → (k < n)%nat.
Proof.
  intros Hperm k Hk. rewrite Hperm in Hk. apply elem_of_seq in Hk. lia.
Qed.

(** What [DyagDinQ] returns once [np.linalg.eig] has answered. *)
Lemma DyagDinQ_of_eig self iq real_dyn eigvals pol_vects :
  argsort_sorts np_argsort →
  mass_weighted self iq = Ok real_dyn →
  linalg_eig real_dyn = Some (eigvals, pol_vects) →
  has_cols (length eigvals) pol_vects = true →
  ∃ mask, Permutation mask (seq 0 (length eigvals))
    ∧ DyagDinQ self iq
      = Ok ((fun k => frequency_of (Re (eigvals !!! k))) <$> mask,
            (fun row : list C => (fun k => row !!! k) <$> mask) <$> pol_vects)
    ∧ Sorted Rle ((fun k => frequency_of (Re (eigvals !!! k))) <$> mask).
Proof.
  intros Hsort Hdyn Heig Hcols.
  set (frequencies := frequency_of <$> (Re <$> eigvals)).
  destruct (Hsort frequencies) as [Hperm Hsorted].
  assert (Hlen : length frequencies = length eigvals).
  { unfold frequencies. rewrite !length_fmap. reflexivity. }
  rewrite Hlen in Hperm.
  assert (Hrange := mask_in_range _ _ Hperm).
  assert (Hfreq : (fun k => frequencies !!! k) <$> np_argsort frequencies
                  = (fun k => frequency_of (Re (eigvals !!! k))) <$> np_argsort frequencies).
  { apply list_fmap_ext. intros i k Hk.
    assert (k < length eigvals)%nat as Hlt
      by (apply Hrange; eapply list_elem_of_lookup_2; exact Hk).
    unfold frequencies.
    rewrite (list_lookup_total_fmap frequency_of) by (rewrite length_fmap; lia).
    rewrite (list_lookup_total_fmap Re) by lia. reflexivity. }
  exists (np_argsort frequencies). split; [exact Hperm|]. split.
  - unfold DyagDinQ. rewrite Hdyn. simpl. unfold np_linalg_eig. rewrite Heig. simpl.
    fold frequencies.
    rewrite take_indices_Ok by (intros k Hk; rewrite Hlen; apply Hrange, Hk). simpl.
    rewrite (take_columns_Ok pol_vects (length eigvals)) by assumption. simpl.
    rewrite Hfreq. reflexivity.
  - rewrite <- Hfreq. exact Hsorted.
Qed.

Lemma py_getitem_Ok {A} (l : list A) (i : Z) (x : A) :
  (0 ≤ i)%Z → l !! Z.to_nat i = Some x → py_getitem l i = Ok x.
Proof.
  intros Hi Hx. unfold py_getitem, py_index.
  assert (Z.to_nat i < length l)%nat by (apply lookup_lt_is_Some; eauto).
  destruct (decide (0 ≤ i < Z.of_nat (length l))%Z); [|lia].
  simpl. rewrite Hx. reflexivity.
Qed.

Lemma build_shape {A} (n m : nat) (f : nat → nat → A) : has_shape n m (build n m f) = true.
Proof.
  unfold has_shape, build, has_cols. rewrite length_fmap, length_seq, Nat.eqb_refl. simpl.
  apply forallb_forall. intros row Hrow. apply in_map_iff in Hrow as (i & <- & _).
  rewrite length_fmap, length_seq. apply Nat.eqb_refl.
Qed.

Lemma mul_elementwise_Ok {A} (mul : A → A → A) (n m : nat) (M N : Matrix A) :
  has_shape n m M = true → has_shape n m N = true →
  mul_elementwise mul M N = Ok (zip_with (zip_with mul) M N).
Proof.
  unfold has_shape. intros [HM HMc]%andb_true_iff [HN HNc]%andb_true_iff.
  apply Nat.eqb_eq in HM, HN. unfold mul_elementwise.
  rewrite HM, HN, Nat.eqb_refl. simpl.
  assert (forallb (fun p : list A * list A => Nat.eqb (length p.1) (length p.2)) (zip M N)
          = true) as ->; [|reflexivity].
  apply forallb_forall. intros [r1 r2] Hin. apply list_elem_of_In in Hin.
  apply elem_of_zip_l in Hin as H1. apply elem_of_zip_r in Hin as H2. simpl in *.
  rewrite (has_cols_length m M r1 HMc H1), (has_cols_length m N r2 HNc H2).
  apply Nat.eqb_refl.
Qed.

(** On a set whose structure names a mass for every atom and whose
    matrix [iq] has the shape of the structure, the mass-weighted matrix
    is built. *)
Lemma mass_weighted_defined self st dyn iq :
  structure self = Some st → (0 ≤ N_atoms st)%Z → masses_cover st →
  (0 ≤ iq)%Z → dynmats self !! Z.to_nat iq = Some dyn →
  has_shape (Z.to_nat (3 * N_atoms st)) (Z.to_nat (3 * N_atoms st)) dyn = true →
  ∃ real_dyn, mass_weighted self iq = Ok real_dyn.
Proof.
  intros Hst HN Hmass Hiq Hdyn Hshape. unfold mass_weighted, the_structure.
  rewrite Hst. simpl. unfold np_zeros2.
  destruct (decide (3 * N_atoms st < 0 ∨ 3 * N_atoms st < 0)%Z); [lia|]. simpl.
  destruct (mapM_is_Ok (mass_of st) (atoms st)) as (ms & -> & _).
  { intros a Ha. unfold mass_of. destruct (Hmass a Ha) as [m ->]. exact I. }
  simpl. rewrite (py_getitem_Ok _ _ _ Hiq Hdyn). simpl.
  eexists. apply (mul_elementwise_Ok _ _ _ _ _ (build_shape _ _ _) Hshape).
Qed.

(** C2. On a set with a structure that names a mass for every atom, and
    for the index of a stored matrix of the shape of the structure:
    [DyagDinQ] passes the mass-weighted matrix to [np.linalg.eig], and from
    its answer (eigenvalues [eigvals], eigenvectors the columns of
    [pol_vects]) returns the frequencies [sqrt(f2)], [-sqrt(-f2)] or [0] of the
    real parts [f2] of the eigenvalues, in non-decreasing order, and the
    columns of [pol_vects] in the same order: position [i] of the result holds
    the frequency and the column of the eigenvalue [mask[i]], for one
    permutation [mask]. *)
Theorem DyagDinQ_frequencies_sorted (self : Phonons) (st : Structure)
    (dyn : Matrix C) (iq : Z) :
  argsort_sorts np_argsort →
  structure self = Some st → (0 ≤ N_atoms st)%Z → masses_cover st →
  (0 ≤ iq)%Z → dynmats self !! Z.to_nat iq = Some dyn →
  has_shape (Z.to_nat (3 * N_atoms st)) (Z.to_nat (3 * N_atoms st)) dyn = true →
  ∃ real_dyn, mass_weighted self iq = Ok real_dyn
    ∧ ∀ eigvals pol_vects,
        linalg_eig real_dyn = Some (eigvals, pol_vects) →
        has_cols (length eigvals) pol_vects = true →
        ∃ mask frequencies pols,
          DyagDinQ self iq = Ok (frequencies, pols)
          ∧ Permutation mask (seq 0 (length eigvals))
          ∧ frequencies = (fun k => frequency_of (Re (eigvals !!! k))) <$> mask
          ∧ pols = (fun row : list C => (fun k => row !!! k) <$> mask) <$> pol_vects
          ∧ Sorted Rle frequencies
          ∧ ∀ f2, (0 < f2 → frequency_of f2 = sqrt f2)
                  ∧ (f2 < 0 → frequency_of f2 = - sqrt (- f2))
                  ∧ (f2 = 0 → frequency_of f2 = 0).
Proof.
  intros Hsort Hst HN Hmass Hiq Hdyn Hshape.
  destruct (mass_weighted_defined self st dyn iq Hst HN Hmass Hiq Hdyn Hshape)
    as [real_dyn Hreal].
  exists real_dyn. split; [exact Hreal|]. intros eigvals pol_vects Heig Hcols.
  destruct (DyagDinQ_of_eig self iq real_dyn eigvals pol_vects Hsort Hreal Heig Hcols)
    as (mask & Hperm & Hret & Hsorted).
  exists mask. eexists. eexists. split; [exact Hret|].
  repeat split; try reflexivity; try assumption; apply frequency_of_convention.
Qed.

End Diagonaliser.

(** ** The reference [argsort] sorts *)

Section ReferenceArgsort.
Local Open Scope R_scope.
Variable key : nat → R.

Lemma insert_by_Permutation k mask :
  Permutation (Reference.insert_by key k mask) (k :: mask).
Proof.
  induction mask as [|j mask IH]; simpl; [reflexivity|].
  destruct (Rleb (key k) (key j)); [reflexivity|].
  rewrite IH. apply perm_swap.
Qed.

Lemma insert_by_HdRel x k mask :
  x <= key k → HdRel Rle x (key <$> mask) →
  HdRel Rle x (key <$> Reference.insert_by key k mask).
Proof.
  intros Hx Hhd. destruct mask as [|j mask]; simpl.
  - constructor. exact Hx.
  - destruct (Rleb (key k) (key j)); simpl; constructor; [exact Hx|].
    inversion Hhd; subst. assumption.
Qed.

Lemma insert_by_Sorted k mask :
  Sorted Rle (key <$> mask) → Sorted Rle (key <$> Reference.insert_by key k mask).
Proof.
  induction mask as [|j mask IH]; simpl; intros Hs.
  - constructor; constructor.
  - inversion Hs as [|? ? Hs' Hhd]; subst.
    unfold Rleb. destruct (Rle_dec (key k) (key j)) as [Hle|Hnle]; simpl.
    + constructor; [exact Hs|]. constructor. exact Hle.
    + constructor; [apply IH, Hs'|]. apply insert_by_HdRel; [lra|exact Hhd].
Qed.

Lemma foldr_insert_by_sorts (xs : list nat) :
  Permutation (foldr (Reference.insert_by key) [] xs) xs
  ∧ Sorted Rle (key <$> foldr (Reference.insert_by key) [] xs).
Proof.
  induction xs as [|x xs [IHp IHs]]; simpl.
  - split; constructor.
  - split.
    + rewrite insert_by_Permutation. constructor. exact IHp.
    + apply insert_by_Sorted, IHs.
Qed.

End ReferenceArgsort.

Lemma reference_argsort_sorts : argsort_sorts Reference.argsort.
Proof. intros l. apply foldr_insert_by_sorts. Qed.

Lemma DyagDinQ_frequencies_sorted_witness :
  let self := Examples.gamma_set Examples.one_atom (Examples.diag3 9 (-4) 0) in
  ∃ real_dyn, mass_weighted self 0 = Ok real_dyn
    ∧ ∀ eigvals pol_vects,
        Reference.eig_diagonal real_dyn = Some (eigvals, pol_vects) →
        has_cols (length eigvals) pol_vects = true →
        ∃ mask frequencies pols,
          DyagDinQ (lib := Reference.library) self 0 = Ok (frequencies, pols)
          ∧ Permutation mask (seq 0 (length eigvals))
          ∧ frequencies = (fun k => frequency_of (Re (eigvals !!! k))) <$> mask
          ∧ pols = (fun row : list C => (fun k => row !!! k) <$> mask) <$> pol_vects
          ∧ Sorted Rle frequencies
          ∧ ∀ f2, (0 < f2 → frequency_of f2 = sqrt f2)%R
                  ∧ (f2 < 0 → frequency_of f2 = - sqrt (- f2))%R
                  ∧ (f2 = 0 → frequency_of f2 = 0)%R.
Proof.
  intros self.
  apply (DyagDinQ_frequencies_sorted (lib := Reference.library) self Examples.one_atom
           (Examples.diag3 9 (-4) 0) 0).
  - exact reference_argsort_sorts.
  - reflexivity.
  - simpl. lia.
  - intros a Ha. apply list_elem_of_singleton in Ha as ->. eexists. reflexivity.
  - lia.
  - reflexivity.
  - reflexivity.
Defined.

(** ** Sums of products over lists *)

Section BilinearForms.
Local Open Scope R_scope.

Lemma dot_comm (a b : list R) : dot a b = dot b a.
Proof.
  revert b. induction a as [|x a IH]; intros [|y b]; simpl; try reflexivity.
  rewrite IH. ring.
Qed.

Lemma dot3_comm (f a b : list R) : dot3 f a b = dot3 f b a.
Proof.
  revert a b. induction f as [|c f IH]; intros [|x a] [|y b]; simpl; try reflexivity.
  rewrite IH. ring.
Qed.

Lemma dot_fmap_ext {X} (f g : X → R) (l : list X) (u : list R) :
  (∀ x, x ∈ l → f x = g x) → dot (f <$> l) u = dot (g <$> l) u.
Proof.
  intros Hext. f_equal. apply Forall_fmap_ext_1, Forall_forall. exact Hext.
Qed.

Lemma dot_fmap_plus {X} (f g : X → R) (l : list X) (u : list R) :
  dot ((fun x => f x + g x) <$> l) u = dot (f <$> l) u + dot (g <$> l) u.
Proof.
  revert u. induction l as [|x l IH]; intros [|y u]; csimpl; try ring.
  rewrite IH. ring.
Qed.

Lemma dot_fmap_scale {X} (c : R) (f : X → R) (l : list X) (u : list R) :
  dot ((fun x => c * f x) <$> l) u = c * dot (f <$> l) u.
Proof.
  revert u. induction l as [|x l IH]; intros [|y u]; csimpl; try ring.
  rewrite IH. ring.
Qed.

Lemma bilinear_ext {X Y} (g g' : X → Y → R) L1 u1 L2 u2 :
  (∀ p q, p ∈ L1 → q ∈ L2 → g p q = g' p q) →
  bilinear g L1 u1 L2 u2 = bilinear g' L1 u1 L2 u2.
Proof.
  intros Hext. unfold bilinear. rewrite !(dot_comm u1). apply dot_fmap_ext.
  intros p Hp. apply dot_fmap_ext. intros q Hq. apply Hext; assumption.
Qed.

Lemma bilinear_plus {X Y} (g1 g2 : X → Y → R) L1 u1 L2 u2 :
  bilinear (fun p q => g1 p q + g2 p q) L1 u1 L2 u2
  = bilinear g1 L1 u1 L2 u2 + bilinear g2 L1 u1 L2 u2.
Proof.
  unfold bilinear. rewrite !(dot_comm u1).
  rewrite <- dot_fmap_plus. apply dot_fmap_ext. intros p _. apply dot_fmap_plus.
Qed.

Lemma bilinear_rank_one {X Y} (c : R) (α : X → R) (β : Y → R) L1 u1 L2 u2 :
  bilinear (fun p q => c * α p * β q) L1 u1 L2 u2
  = c * dot u1 (α <$> L1) * dot (β <$> L2) u2.
Proof.
  unfold bilinear. rewrite !(dot_comm u1).
  rewrite (dot_fmap_ext _ (fun p => (c * dot (β <$> L2) u2) * α p)).
  - rewrite dot_fmap_scale. ring.
  - intros p _. rewrite (dot_fmap_scale (c * α p) β). ring.
Qed.

Lemma bilinear_fmap {X Y X' Y'} (g : X' → Y' → R) (φ : X → X') (ψ : Y → Y') L1 u1 L2 u2 :
  bilinear g (φ <$> L1) u1 (ψ <$> L2) u2 = bilinear (fun p q => g (φ p) (ψ q)) L1 u1 L2 u2.
Proof.
  unfold bilinear. rewrite <- list_fmap_compose. f_equal. apply list_fmap_ext.
  intros i p _. simpl. rewrite <- list_fmap_compose. reflexivity.
Qed.

Lemma gram_comm f p q : gram f p q = gram f q p.
Proof. unfold gram. rewrite dot3_comm. ring. Qed.

(** A sum of outer products with non-negative factors is a non-negative
    form: mode by mode, [u G u = sum_i f[i] (sum_a u[a] s[a] e[a, i])^2]. *)
Lemma gram_form_nonneg (f : list R) (L : list (list R * R)) (u : list R) :
  Forall (Rle 0) f → Forall (fun p => length p.1 = length f) L →
  0 <= bilinear (gram f) L u L u.
Proof.
  revert L. induction f as [|c f IH]; intros L Hf HL.
  - rewrite (bilinear_ext _ (fun p q => 0 * 1 * 1)).
    + rewrite bilinear_rank_one. lra.
    + intros p q _ _. unfold gram. simpl. ring.
  - inversion Hf as [|? ? Hc Hf']; subst.
    set (α := fun p : list R * R => hd 0 p.1 * p.2).
    set (rest := fun p : list R * R => (tl p.1, p.2)).
    rewrite (bilinear_ext _ (fun p q => c * α p * α q + gram f (rest p) (rest q))).
    + rewrite bilinear_plus, bilinear_rank_one, <- bilinear_fmap.
      rewrite (dot_comm u (α <$> L)).
      assert (0 <= bilinear (gram f) (rest <$> L) u (rest <$> L) u) as Hrest.
      { apply IH; [exact Hf'|]. apply Forall_fmap. eapply Forall_impl; [exact HL|].
        intros [[|x t] m] Hlen; simpl in *; [discriminate|]. lia. }
      pose proof (Rle_0_sqr (dot (α <$> L) u)) as Hsq. unfold Rsqr in Hsq.
      nra.
    + intros [[|hp tp] mp] [[|hq tq] mq] Hp Hq;
        rewrite Forall_forall in HL;
        pose proof (HL _ Hp) as H1; pose proof (HL _ Hq) as H2; simpl in H1, H2;
        try discriminate.
      unfold gram, α, rest. simpl. ring.
Qed.

End BilinearForms.

(** ** The Upsilon matrix at zero temperature *)

Section Upsilon.
Context {lib : Library}.
Local Open Scope R_scope.

Lemma bind_Ok_inv {A B} (m : Result A) (f : A → Result B) (b : B) :
  bind m f = Ok b → ∃ a, m = Ok a ∧ f a = Ok b.
Proof. destruct m as [a|e]; simpl; [eauto | discriminate]. Qed.

Lemma mapM_Ok_inv {A B} (f : A → Result B) (l : list A) (ys : list B) :
  mapM f l = Ok ys → Forall2 (fun x y => f x = Ok y) l ys.
Proof.
  revert ys. induction l as [|x l IH]; intros ys.
  - intros [= <-]. constructor.
  - rewrite mapM_cons. intros (y & Hy & H)%bind_Ok_inv.
    apply bind_Ok_inv in H as (k & Hk & [= <-]). constructor; [exact Hy | apply IH, Hk].
Qed.






Lemma elem_of_drop_inv {A} (k : nat) (l : list A) (x : A) : x ∈ drop k l → x ∈ l.
Proof.
  revert l. induction k as [|k IH]; intros [|y l]; simpl; try done.
  intros H. right. apply IH, H.
Qed.

Lemma elem_of_take_inv {A} (k : nat) (l : list A) (x : A) : x ∈ take k l → x ∈ l.
Proof.
  revert l. induction k as [|k IH]; intros [|y l]; simpl; try done.
  - intros H. inversion H.
  - intros [->|H]%elem_of_cons; [left | right; apply IH, H].
Qed.

Lemma fmap_zip_with {A B C D} (g : C → D) (f : A → B → C) (l : list A) (k : list B) :
  g <$> zip_with f l k = zip_with (fun x y => g (f x y)) l k.
Proof. revert k. induction l as [|x l IH]; intros [|y k]; csimpl; [done..|]. by rewrite IH. Qed.


(** The weighted matrix of a sum of outer products, row by row over the
    pairs (vector row, weight). *)
Lemma weighted_gram (f : list R) (P : Matrix R) (s : list R) :
  zip_with (fun (row : list R) sa => zip_with (fun v sb => v * sb * sa) row s)
    ((fun a => (fun b => dot3 f a b) <$> P) <$> P) s
  = (fun p => (fun q => gram f p q) <$> zip P s) <$> zip P s.
Proof.
  rewrite zip_with_fmap_l, zip_with_zip. apply list_fmap_ext. intros i [a sa] _. simpl.
  rewrite zip_with_fmap_l, zip_with_zip. apply list_fmap_ext. intros j [b sb] _. reflexivity.
Qed.

Lemma gram_matrix_symmetric (f : list R) (L : list (list R * R)) :
  symmetric ((fun p => (fun q => gram f p q) <$> L) <$> L).
Proof.
  intros a b. rewrite !list_lookup_fmap.
  destruct (L !! a) as [p|] eqn:Hp, (L !! b) as [q|] eqn:Hq; simpl;
    rewrite ?list_lookup_fmap, ?Hp, ?Hq; simpl; try reflexivity.
  f_equal. apply gram_comm.
Qed.

Lemma gram_matrix_form (f : list R) (L : list (list R * R)) (u : list R) :
  quadratic_form u ((fun p => (fun q => gram f p q) <$> L) <$> L) u
  = bilinear (gram f) L u L u.
Proof.
  unfold quadratic_form, bilinear. rewrite <- list_fmap_compose. reflexivity.
Qed.


End Upsilon.

Ltac compute_reals :=
  cbv - [Rplus Rminus Rmult Rdiv Rinv Ropp sqrt exp IZR Rltb Rleb Reqb Rabs PI
         Rlt Rle Rgt Rge].



(** ** The probability density *)

Section Probability.
Context {lib : Library}.
Local Open Scope R_scope.

Lemma dot_zeros_l (n : nat) (v : list R) : dot (replicate n 0) v = 0.
Proof.
  revert v. induction n as [|n IH]; intros [|y v]; simpl; try reflexivity.
  rewrite IH. ring.
Qed.

Lemma quadratic_form_zeros (n : nat) (M : Matrix R) :
  quadratic_form (replicate n 0) M (replicate n 0) = 0.
Proof. unfold quadratic_form. apply dot_zeros_l. Qed.

Lemma exp_le_compat (x y : R) : x <= y → exp x <= exp y.
Proof.
  intros [Hlt| ->]; [|apply Rle_refl]. apply Rlt_le, exp_increasing, Hlt.
Qed.

(** What [GetProbability] returns for a flat displacement and a given
    Upsilon matrix: [exp(-u Y u)], times [sqrt(det)] when normalised. *)
Lemma GetProbability_value self st Y T normalize n det u :
  structure self = Some st → (0 ≤ N_atoms st)%Z →
  has_shape n n Y = true → normalisation_det Y = Ok det →
  length u = n →
  GetProbability self (Disp1 u) T (Some Y) normalize
  = Ok (if normalize then sqrt det * exp (- quadratic_form u Y u)
        else exp (- quadratic_form u Y u)).
Proof.
  intros Hst HN HY Hdet Hu. unfold GetProbability, the_structure, np_zeros2. rewrite Hst. simpl.
  destruct (decide (1 < 0 ∨ 3 * N_atoms st < 0)%Z) as [Hneg|_]; [lia|]. simpl.
  unfold einsum_i_ij_j. rewrite Hu, HY. simpl. rewrite Hdet. simpl.
  destruct normalize; reflexivity.
Qed.

(** A product keeps its sign when every factor is divided by a positive
    number. *)
Lemma Rprod_scaled_pos (c : R) (l : list R) :
  0 < c → 0 < Rprod l → 0 < Rprod ((fun v => v / c) <$> l).
Proof.
  intros Hc. unfold Rprod.
  enough (Hgen : foldr Rmult 1 ((fun v => v / c) <$> l)
                 = foldr Rmult 1 l * / c ^ length l).
  { intros Hl. rewrite Hgen. apply Rmult_lt_0_compat; [exact Hl|].
    apply Rinv_0_lt_compat, pow_lt, Hc. }
  induction l as [|x l IH]; csimpl; [field|].
  rewrite IH. field. split; [apply pow_nonzero|]; lra.
Qed.

(** The normalisation in terms of the eigenvalues ordered by magnitude. *)
Lemma normalisation_det_sorted (Y : Matrix R) (vals : list R) :
  argsort_sorts np_argsort → linalg_eigvals Y = Some vals →
  ∃ sorted, take_indices vals (np_argsort (Rabs <$> vals)) = Ok sorted
    ∧ normalisation_det Y = Ok (Rprod ((fun v => v / (2 * PI)) <$> drop 3 sorted)).
Proof.
  intros Hsort Hvals. unfold normalisation_det, np_linalg_eigvals. rewrite Hvals. simpl.
  destruct (Hsort (Rabs <$> vals)) as [Hperm _]. rewrite length_fmap in Hperm.
  exists ((fun k => vals !!! k) <$> np_argsort (Rabs <$> vals)).
  rewrite take_indices_Ok by (apply mask_in_range, Hperm). simpl.
  split; [reflexivity|]. rewrite fmap_drop. reflexivity.
Qed.

(** C6 (amended).  For a fixed positive-semidefinite Upsilon matrix passed
    to [GetProbability] (of which numpy returns the eigenvalues, on a set
    whose atom count is not negative), the value at a displacement [u] is a
    function [prob u] such that: the all-zero displacement attains the
    maximum; a larger quadratic form never gives a larger probability; and
    it gives a strictly smaller one whenever the probability at zero is
    positive, which it is without normalisation, and with normalisation
    when the product of the eigenvalues that are kept (all but the three of
    smallest magnitude, [sorted] being the eigenvalues in the order of their
    magnitude) is positive. *)
Theorem GetProbability_decreasing (self : Phonons) (st : Structure) (Y : Matrix R)
    (T : R) (normalize : bool) (n : nat) (vals : list R) :
  argsort_sorts np_argsort → structure self = Some st → (0 ≤ N_atoms st)%Z →
  has_shape n n Y = true → length Y = n → positive_semidefinite Y →
  linalg_eigvals Y = Some vals →
  ∃ (prob : list R → R) (sorted : list R),
    take_indices vals (np_argsort (Rabs <$> vals)) = Ok sorted
    ∧ (∀ u, length u = n →
         GetProbability self (Disp1 u) T (Some Y) normalize = Ok (prob u))
    ∧ (∀ u, length u = n → prob u <= prob (replicate n 0))
    ∧ (∀ u1 u2, length u1 = n → length u2 = n →
         quadratic_form u1 Y u1 < quadratic_form u2 Y u2 →
         prob u2 <= prob u1 ∧ (0 < prob (replicate n 0) → prob u2 < prob u1))
    ∧ (normalize = false → 0 < prob (replicate n 0))
    ∧ (normalize = true → 0 < Rprod (drop 3 sorted) → 0 < prob (replicate n 0))
    ∧ (normalize = false ∨ 0 < Rprod (drop 3 sorted) →
       ∀ u1 u2, length u1 = n → length u2 = n →
         quadratic_form u1 Y u1 < quadratic_form u2 Y u2 → prob u2 < prob u1).
Proof.
  intros Hsort Hst HN HY HYn Hpsd Hvals.
  destruct (normalisation_det_sorted Y vals Hsort Hvals) as (sorted & Hsorted & Hdet).
  set (det := Rprod ((fun v => v / (2 * PI)) <$> drop 3 sorted)) in *.
  set (norm := if normalize then sqrt det else 1).
  assert (Hnorm : 0 <= norm) by (unfold norm; destruct normalize; [apply sqrt_pos | lra]).
  assert (Hstrict : normalize = false ∨ 0 < Rprod (drop 3 sorted) → 0 < norm).
  { unfold norm. destruct normalize; [|intros _; lra].
    intros [Hf|Hprod]; [discriminate|]. apply sqrt_lt_R0.
    apply Rprod_scaled_pos; [|exact Hprod]. pose proof PI_RGT_0. lra. }
  exists (fun u => if normalize then sqrt det * exp (- quadratic_form u Y u)
                   else exp (- quadratic_form u Y u)), sorted.
  assert (Hprob : ∀ u, (if normalize then sqrt det * exp (- quadratic_form u Y u)
                        else exp (- quadratic_form u Y u))
                       = norm * exp (- quadratic_form u Y u)).
  { intros u. unfold norm. destruct normalize; ring. }
  assert (Hexp : ∀ u1 u2, quadratic_form u1 Y u1 < quadratic_form u2 Y u2 →
                 exp (- quadratic_form u2 Y u2) < exp (- quadratic_form u1 Y u1))
    by (intros u1 u2 Hlt; apply exp_increasing; lra).
  split; [exact Hsorted|]. split; [|split; [|split; [|split; [|split]]]].
  - intros u Hu. apply (GetProbability_value self st Y T normalize n det u); assumption.
  - intros u Hu. rewrite !Hprob, quadratic_form_zeros.
    apply Rmult_le_compat_l; [exact Hnorm|]. apply exp_le_compat.
    pose proof (Hpsd u ltac:(congruence)). lra.
  - intros u1 u2 Hu1 Hu2 Hlt. rewrite !Hprob, quadratic_form_zeros.
    pose proof (Hexp u1 u2 Hlt).
    split; [apply Rmult_le_compat_l; lra|].
    rewrite Ropp_0, exp_0, Rmult_1_r. intros Hpos. apply Rmult_lt_compat_l; assumption.
  - intros Hf. rewrite Hprob, quadratic_form_zeros, Ropp_0, exp_0, Rmult_1_r.
    apply Hstrict. left. exact Hf.
  - intros _ Hprod. rewrite Hprob, quadratic_form_zeros, Ropp_0, exp_0, Rmult_1_r.
    apply Hstrict. right. exact Hprod.
  - intros Hcase u1 u2 Hu1 Hu2 Hlt. rewrite !Hprob.
    apply Rmult_lt_compat_l; [apply Hstrict, Hcase|apply Hexp, Hlt].
Qed.

End Probability.

Lemma rdiag6_psd (a b c d e f : R) :
  (0 <= a → 0 <= b → 0 <= c → 0 <= d → 0 <= e → 0 <= f →
   positive_semidefinite (Examples.rdiag [a; b; c; d; e; f]))%R.
Proof.
  intros Ha Hb Hc Hd He Hf u Hu.
  destruct u as [|x1 [|x2 [|x3 [|x4 [|x5 [|x6 [|]]]]]]]; try discriminate Hu.
  compute_reals.
  pose proof (Rle_0_sqr x1). pose proof (Rle_0_sqr x2). pose proof (Rle_0_sqr x3).
  pose proof (Rle_0_sqr x4). pose proof (Rle_0_sqr x5). pose proof (Rle_0_sqr x6).
  unfold Rsqr in *. nra.
Qed.

Ltac decide_Rleb :=
  repeat match goal with
    | |- context [Rleb ?a ?b] =>
        first [ rewrite (Rleb_true a b) by (rewrite ?Rabs_R0, ?Rabs_R1; lra)
              | rewrite (Rleb_false a b) by (rewrite ?Rabs_R0, ?Rabs_R1; lra) ]
    end.

(** On the matrix 2 I of two atoms, normalised: the six eigenvalues are
    2, the product of the three that are kept is 8, and the density is
    strictly smaller wherever the quadratic form is larger. *)
Lemma GetProbability_decreasing_witness :
  let self := Examples.gamma_set Examples.two_atoms (Examples.diag [1; 1; 1; 4; 4; 9]%R) in
  let Y := Examples.rdiag [2; 2; 2; 2; 2; 2]%R in
  ∃ prob : list R → R,
    (∀ u, length u = 6%nat →
       GetProbability (lib := Reference.library) self (Disp1 u) 0%R (Some Y) true
       = Ok (prob u))
    ∧ (∀ u, length u = 6%nat → prob u <= prob (replicate 6 0))%R
    ∧ (0 < prob (replicate 6 0))%R
    ∧ (∀ u1 u2, length u1 = 6%nat → length u2 = 6%nat →
         (quadratic_form u1 Y u1 < quadratic_form u2 Y u2)%R → (prob u2 < prob u1)%R).
Proof.
  intros self Y.
  destruct (GetProbability_decreasing (lib := Reference.library) self Examples.two_atoms Y
              0%R true 6 [2; 2; 2; 2; 2; 2]%R)
    as (prob & sorted & Hsorted & Hval & Hmax & _ & _ & Hzero & Hstrict).
  - exact reference_argsort_sorts.
  - reflexivity.
  - simpl. lia.
  - reflexivity.
  - reflexivity.
  - apply rdiag6_psd; lra.
  - reflexivity.
  - assert (Hprod : (0 < Rprod (drop 3 sorted))%R).
    { revert Hsorted. compute_reals. decide_Rleb. compute_reals.
      intros [= <-]. compute_reals. lra. }
    exists prob. split; [exact Hval|]. split; [exact Hmax|].
    split; [exact (Hzero eq_refl Hprod)|].
    apply Hstrict. right. exact Hprod.
Defined.

(** C6 as stated fails: with the default normalisation and the
    positive-semidefinite matrix diag(1, 0, 0, 0, 0, 0), the product of the
    three eigenvalues that are kept is 0, so the density is 0 at the zero
    displacement and at a displacement of quadratic form 1 alike: the first
    is not strictly greater. *)
Lemma GetProbability_not_strictly_decreasing :
  let self := Examples.gamma_set Examples.two_atoms (Examples.diag [1; 1; 1; 4; 4; 9]%R) in
  let Y := Examples.rdiag [1; 0; 0; 0; 0; 0]%R in
  let u1 := [0; 0; 0; 0; 0; 0]%R in
  let u2 := [1; 0; 0; 0; 0; 0]%R in
  positive_semidefinite Y
  ∧ (quadratic_form u1 Y u1 < quadratic_form u2 Y u2)%R
  ∧ GetProbability (lib := Reference.library) self (Disp1 u1) 0%R (Some Y) true = Ok 0%R
  ∧ GetProbability (lib := Reference.library) self (Disp1 u2) 0%R (Some Y) true = Ok 0%R.
Proof.
  intros self Y u1 u2.
  assert (Hdet : normalisation_det (lib := Reference.library) Y = Ok 0%R).
  { unfold normalisation_det. compute_reals. decide_Rleb. compute_reals.
    f_equal. field. apply PI_neq0. }
  split; [apply rdiag6_psd; lra|]. split; [compute_reals; lra|].
  split.
  - rewrite (GetProbability_value self Examples.two_atoms Y 0%R true 6 0%R u1); try reflexivity;
      [|simpl; lia|exact Hdet].
    rewrite sqrt_0. f_equal. ring.
  - rewrite (GetProbability_value self Examples.two_atoms Y 0%R true 6 0%R u2); try reflexivity;
      [|simpl; lia|exact Hdet].
    rewrite sqrt_0. f_equal. ring.
Qed.

(** ** A file read by the loader *)

Section LoaderExample.
Local Open Scope R_scope.
Local Transparent gmap_empty.

Lemma int_of_float_IZR (n : Z) : int_of_float (IZR n) = n.
Proof.
  assert (Hint : ∀ k, Int_part (IZR k) = k).
  { intros k. unfold Int_part. rewrite <- (tech_up (IZR k) (k + 1)); [lia| |];
      rewrite plus_IZR; lra. }
  unfold int_of_float. destruct (Rleb 0 (IZR n)); [apply Hint|].
  rewrite <- opp_IZR, Hint. lia.
Qed.

Ltac compute_loader :=
  cbv - [Rplus Rminus Rmult Rdiv Rinv Ropp sqrt exp IZR Rltb Rleb Reqb Rabs PI Rlt Rle Rgt Rge
         int_of_float pretty pretty_Z pretty_N].

Ltac same_reals :=
  repeat first
    [ reflexivity | lra
    | apply (f_equal (@Some _)) | apply (f_equal2 (@cons _)) | apply (f_equal2 mkC) ].

(** The loader on [Examples.sample_file]: the call succeeds, the set is
    initialized, lengths are in Angstrom ([alat] is 10 Bohr), and the one
    matrix of the file is stored with its star. *)
Example LoadFromQE_sample_file :
  ∃ self st,
    LoadFromQE (lib := Reference.library) {[ "dyn1"%string := Examples.sample_file ]}
      (Phonons_blank 1) "dyn" 1 false = Ok self
    ∧ structure self = Some st
    ∧ initialized self = true
    ∧ nqirr self = 1%Z
    ∧ alat self = 5.2918
    ∧ N_atoms st = 1%Z
    ∧ atoms st = ["H"%string]
    ∧ masses st !! "H"%string = Some 1
    ∧ unit_cell st = [[5.2918; 0; 0]; [0; 5.2918; 0]; [0; 0; 5.2918]]
    ∧ coords st = [[0; 0; 0]]
    ∧ dynmats self = [Examples.diag3 1 4 9]
    ∧ q_tot self = [[0; 0; 0]]
    ∧ q_stars self = [[[0; 0; 0]]].
Proof.
  eexists _, _. split.
  - unfold LoadFromQE. destruct (decide (1 ≤ 0)%Z); [lia|].
    change (py_range 1) with [0%Z]. cbn [andb for_each]. unfold load_file.
    change (_ !! filepath_of "dyn" false 0) with (Some Examples.sample_file).
    destruct (decide (0 = 0)%Z); [|done].
    match goal with |- context [@read_structure ?L ?s ?l] =>
      eassert (Hst : @read_structure L s l = Ok _) end.
    { compute_loader. rewrite int_of_float_IZR. compute_loader. reflexivity. }
    rewrite Hst. compute_loader. reflexivity.
  - split; [reflexivity|]. compute_loader.
    repeat split; same_reals.
Qed.

End LoaderExample.

(** ** Saving and loading again *)

Section RoundTrip.
Local Open Scope R_scope.

Lemma reload_factor_bounds : 1.0000051 < reload_factor < 1.0000053.
Proof. unfold reload_factor, A_TO_BOHR, BOHR_TO_ANGSTROM. lra. Qed.

(** C1 (what the code does instead).  Let a set have the lattice length
    [alat <> 0] and a row (a, b, c) of its unit cell.  [save_qe] writes
    [alat * A_TO_BOHR] in the header and the row divided by [alat]; reading
    these numbers back, even with no loss in the text, [LoadFromQE] sets the
    lattice length and the row to their old values times [reload_factor],
    which exceeds 1 by more than five parts in a million: more than the
    tolerance of one part in a million whenever the entry is not zero. *)
Theorem save_qe_then_load_rescales (self : Phonons) (st : Structure) :
  alat self ≠ 0 →
  Forall (fun row => length row = 3%nat) (unit_cell st) →
  let alat' := loaded_alat (save_qe_celldm1 self) in
  alat' = alat self * reload_factor
  ∧ mapM (M := Result) (fun row => row3_of row alat') (save_qe_basis_vectors self st)
    = Ok ((fun row : list R => (fun x => x * reload_factor) <$> row) <$> take 3 (unit_cell st))
  ∧ ∀ x, x ≠ 0 → Rabs (x * reload_factor - x) > 1e-6 * Rabs x.
Proof.
  intros Halat Hcell alat'.
  assert (Halat' : alat' = alat self * reload_factor).
  { unfold alat', loaded_alat, save_qe_celldm1, reload_factor. ring. }
  split; [exact Halat'|]. split.
  - unfold save_qe_basis_vectors.
    rewrite (mapM_Ok _ (fun row : list R => (fun x => x * alat') <$> row)).
    + f_equal. rewrite <- list_fmap_compose. apply list_fmap_ext. intros i row _. simpl.
      rewrite <- list_fmap_compose. apply list_fmap_ext. intros j x _. simpl.
      rewrite Halat'. field. exact Halat.
    + intros row Hrow. apply list_elem_of_fmap in Hrow as (row0 & -> & Hrow0).
      apply elem_of_take_inv in Hrow0. rewrite Forall_forall in Hcell.
      pose proof (Hcell row0 Hrow0) as Hlen.
      destruct row0 as [|x [|y [|z [|]]]]; try discriminate Hlen. reflexivity.
  - intros x Hx. pose proof reload_factor_bounds as [Hlo Hhi].
    replace (x * reload_factor - x) with (x * (reload_factor - 1)) by ring.
    rewrite Rabs_mult, (Rabs_pos_eq (reload_factor - 1)) by lra.
    pose proof (Rabs_pos_lt x Hx). nra.
Qed.

End RoundTrip.

Lemma save_qe_then_load_rescales_witness :
  let self := set_alat (loaded_alat 10) (Examples.gamma_set Examples.one_atom
                                           (Examples.diag3 1 4 9)) in
  let st := Examples.one_atom in
  let alat' := loaded_alat (save_qe_celldm1 self) in
  (alat' = alat self * reload_factor)%R
  ∧ mapM (M := Result) (fun row => row3_of row alat') (save_qe_basis_vectors self st)
    = Ok ((fun row : list R => (fun x => x * reload_factor)%R <$> row)
            <$> take 3 (unit_cell st))
  ∧ ∀ x, x ≠ 0%R → (Rabs (x * reload_factor - x) > 1e-6 * Rabs x)%R.
Proof.
  intros self st.
  apply (save_qe_then_load_rescales self st).
  - unfold self, loaded_alat, BOHR_TO_ANGSTROM. simpl. lra.
  - repeat constructor.
Defined.

(** ** ForcePositiveDefinite on a complex Hermitian matrix *)

Section ForcePositive.
Local Open Scope R_scope.
Local Transparent gmap_empty.

Lemma sqrt_1_1 : sqrt (1 * 1) = 1.
Proof. rewrite Rmult_1_r. apply sqrt_1. Qed.

Lemma sqrt2_facts :
  1 < sqrt 2 ∧ sqrt 2 * sqrt 2 = 2 ∧ / sqrt 2 * / sqrt 2 = / 2 ∧ 0 < / sqrt 2
  ∧ sqrt 2 * / sqrt 2 = 1.
Proof.
  assert (H2 : sqrt 2 * sqrt 2 = 2) by (apply sqrt_sqrt; lra).
  assert (H1 : 1 < sqrt 2) by (rewrite <- sqrt_1; apply sqrt_lt_1; lra).
  repeat split; try assumption.
  - rewrite <- Rinv_mult, H2. reflexivity.
  - apply Rinv_0_lt_compat. lra.
  - apply Rinv_r. lra.
Qed.

Ltac solve_real :=
  rewrite ?sqrt_1_1, ?sqrt_0, ?sqrt_1, ?Rabs_R0, ?Rabs_R1;
  pose proof sqrt2_facts as (? & ? & ? & ? & ?); nra.

Ltac decide_cmp :=
  repeat match goal with
    | |- context [Rltb ?a ?b] =>
        first [ rewrite (Rltb_true a b) by solve_real
              | rewrite (Rltb_false a b) by solve_real ]
    | |- context [Rleb ?a ?b] =>
        first [ rewrite (Rleb_true a b) by solve_real
              | rewrite (Rleb_false a b) by solve_real ]
    end.

Ltac run := compute_reals; repeat (progress decide_cmp; compute_reals).

Lemma vec3_eq (a1 b1 a2 b2 a3 b3 c1 d1 c2 d2 c3 d3 : R) :
  a1 = c1 → b1 = d1 → a2 = c2 → b2 = d2 → a3 = c3 → b3 = d3 →
  [mkC a1 b1; mkC a2 b2; mkC a3 b3] = [mkC c1 d1; mkC c2 d2; mkC c3 d3].
Proof. intros. subst. reflexivity. Qed.

Let self := Examples.gamma_set Examples.one_atom Examples.hermitian.

(** The answers the example takes from [np.linalg.eig] are
    eigen-decompositions of the matrices it is called on. *)
Lemma eig_of_hermitian_right :
  ∃ M, mass_weighted self 0 = Ok M
    ∧ Examples.eig_hermitian_example M = Some Examples.eig_of_hermitian
    ∧ eigen_decomposition M Examples.eig_of_hermitian.
Proof.
  eexists. split; [reflexivity|]. split.
  - unfold Examples.eig_hermitian_example. rewrite Rltb_false; [reflexivity|].
    compute_reals. solve_real.
  - split; [reflexivity|]. intros i ev Hi.
    destruct i as [|[|[|i]]]; try discriminate Hi; injection Hi as <-;
      (split; [compute_reals; apply vec3_eq; solve_real | compute_reals; solve_real]).
Qed.

Lemma eig_of_rebuilt_right (self1 : Phonons) :
  ForcePositiveDefinite (lib := Reference.library_with Examples.eig_hermitian_example) self
  = Ok self1 →
  ∃ M, mass_weighted self1 0 = Ok M
    ∧ Examples.eig_hermitian_example M = Some Examples.eig_of_rebuilt
    ∧ eigen_decomposition M Examples.eig_of_rebuilt.
Proof.
  run. intros [= <-]. eexists. split; [reflexivity|]. split.
  - unfold Examples.eig_hermitian_example. rewrite Rltb_true; [reflexivity|].
    compute_reals. solve_real.
  - split; [reflexivity|]. intros i ev Hi.
    destruct i as [|[|[|i]]]; try discriminate Hi; injection Hi as <-;
      (split; [compute_reals; apply vec3_eq; solve_real | compute_reals; solve_real]).
Qed.

(** C7 (what the code does instead).  The set holds one Hermitian matrix
    with the eigenvalues 2, 0 and 1, none negative.  The first
    [ForcePositiveDefinite] replaces it by a matrix with the diagonal entry
    -1 (the eigenvectors are multiplied without complex conjugation), and
    the second application changes the matrices again. *)
Theorem ForcePositiveDefinite_twice_differs :
  ∃ self1 self2 D1,
    ForcePositiveDefinite (lib := Reference.library_with Examples.eig_hermitian_example) self
    = Ok self1
    ∧ dynmats self1 = [D1]
    ∧ Re ((D1 !!! 1%nat) !!! 1%nat) = -1
    ∧ ForcePositiveDefinite (lib := Reference.library_with Examples.eig_hermitian_example) self1
      = Ok self2
    ∧ dynmats self2 ≠ dynmats self1.
Proof.
  eexists _, _, _. split; [run; reflexivity|]. split; [reflexivity|].
  split; [compute_reals; solve_real|]. split; [run; reflexivity|].
  intros Heq.
  apply (f_equal (fun d : list (Matrix C) => Re (((d !!! 0%nat) !!! 0%nat) !!! 0%nat))) in Heq.
  revert Heq. compute_reals. intros Heq.
  pose proof sqrt2_facts as (? & ? & ? & ? & ?).
  assert (Hone : sqrt 2 * sqrt 2 * / sqrt 2 * / sqrt 2 = 1) by (field; lra).
  rewrite Hone, sqrt_1_1, ?sqrt_1 in Heq. lra.
Qed.

End ForcePositive.

(** * Further properties of the class *)

(** ** Loops and lists *)

Section Loops.

(** A property that every turn of a loop keeps holds when the loop ends. *)
Lemma for_each_invariant {A S} (P : S → Prop) (body : S → A → Result S)
    (xs : list A) (st st' : S) :
  P st → (∀ s x s', x ∈ xs → P s → body s x = Ok s' → P s') →
  for_each xs body st = Ok st' → P st'.
Proof.
  revert st. induction xs as [|x xs IH]; intros st Hst Hstep; simpl.
  - intros [= <-]. exact Hst.
  - intros (s1 & H1 & H2)%bind_Ok_inv. apply (IH s1); [| |exact H2].
    + apply (Hstep st x s1); [left|exact Hst|exact H1].
    + intros s y s' Hy. apply Hstep. right. exact Hy.
Qed.

(** The same with the position of the turn. *)
Lemma for_each_seq_invariant {S} (P : nat → S → Prop) (body : S → nat → Result S)
    (a m : nat) (st st' : S) :
  P a st → (∀ k s s', (a ≤ k < a + m)%nat → P k s → body s k = Ok s' → P (Datatypes.S k) s') →
  for_each (seq a m) body st = Ok st' → P (a + m)%nat st'.
Proof.
  revert a st. induction m as [|m IH]; intros a st Hst Hstep; simpl.
  - intros [= <-]. rewrite Nat.add_0_r. exact Hst.
  - intros (s1 & H1 & H2)%bind_Ok_inv.
    replace (a + Datatypes.S m)%nat with (Datatypes.S a + m)%nat by lia.
    apply (IH (Datatypes.S a) s1); [| |exact H2].
    + apply (Hstep a st s1); [lia|exact Hst|exact H1].
    + intros k s s' Hk. apply Hstep. lia.
Qed.

(** The same with the number of turns taken. *)
Lemma for_each_counting {A S} (P : nat → S → Prop) (body : S → A → Result S)
    (xs : list A) (st st' : S) :
  P 0%nat st → (∀ k s x s', P k s → body s x = Ok s' → P (Datatypes.S k) s') →
  for_each xs body st = Ok st' → P (length xs) st'.
Proof.
  intros Hst Hstep. revert st Hst.
  enough (∀ k st, P k st → for_each xs body st = Ok st' → P (k + length xs)%nat st')
    as Hgen by (intros st Hst; apply (Hgen 0%nat st Hst)).
  induction xs as [|x xs IH]; intros k st Hst; simpl.
  - intros [= <-]. rewrite Nat.add_0_r. exact Hst.
  - intros (s1 & H1 & H2)%bind_Ok_inv.
    replace (k + Datatypes.S (length xs))%nat with (Datatypes.S k + length xs)%nat by lia.
    apply (IH _ s1); [|exact H2]. apply (Hstep k st x s1 Hst H1).
Qed.

(** A loop that ends without error ran its body without error on every
    element. *)
Lemma for_each_Ok_each {A S} (body : S → A → Result S) (xs : list A) (st st' : S) :
  for_each xs body st = Ok st' → ∀ x, x ∈ xs → ∃ s s', body s x = Ok s'.
Proof.
  revert st. induction xs as [|y xs IH]; intros st; simpl.
  - intros _ x Hx. inversion Hx.
  - intros (s1 & H1 & H2)%bind_Ok_inv x [->|Hx]%elem_of_cons; [eauto|].
    apply (IH s1 H2 x Hx).
Qed.

Lemma for_each_fmap {A B S} (g : A → B) (body : S → B → Result S) (xs : list A) (st : S) :
  for_each (g <$> xs) body st = for_each xs (fun s x => body s (g x)) st.
Proof.
  revert st. induction xs as [|x xs IH]; intros st; csimpl; [reflexivity|].
  destruct (body st (g x)); simpl; [apply IH|reflexivity].
Qed.

(** The loop over the positions [0 .. n - 1] succeeds when its body does
    at every position, and what held before holds after. *)
Lemma for_each_range {S} (P : nat → S → Prop) (body : S → Z → Result S) (n : nat) (st : S) :
  P 0%nat st →
  (∀ k s, (k < n)%nat → P k s → ∃ s', body s (Z.of_nat k) = Ok s' ∧ P (Datatypes.S k) s') →
  ∃ st', for_each (py_range (Z.of_nat n)) body st = Ok st' ∧ P n st'.
Proof.
  intros Hst Hstep. unfold py_range. rewrite Nat2Z.id, for_each_fmap.
  enough (∀ m a s, (a + m = n)%nat → P a s →
            ∃ st', for_each (seq a m) (fun s x => body s (Z.of_nat x)) s = Ok st' ∧ P n st')
    as Hgen by (apply (Hgen n 0%nat st); [lia|exact Hst]).
  induction m as [|m IH]; intros a s Ham Hs; simpl.
  - exists s. split; [reflexivity|]. replace n with a by lia. exact Hs.
  - destruct (Hstep a s ltac:(lia) Hs) as (s1 & -> & Hs1). simpl.
    apply (IH (Datatypes.S a) s1); [lia|exact Hs1].
Qed.

(** The first element on which the function fails decides the result. *)
Lemma mapM_first_error {A B} (f : A → Result B) (pre post : list A) (a : A) (e : PyExc) :
  (∀ x, x ∈ pre → is_Ok (f x)) → f a = Raise e →
  mapM f (pre ++ a :: post) = Raise e.
Proof.
  intros Hpre Ha. induction pre as [|x pre IH]; cbn [app].
  - rewrite mapM_cons, Ha. reflexivity.
  - rewrite mapM_cons. pose proof (Hpre x ltac:(left)) as Hx.
    destruct (f x) as [y|]; [|contradiction]. simpl.
    rewrite IH; [reflexivity|]. intros z Hz. apply Hpre. right. exact Hz.
Qed.

Lemma fmap_id_on {A} (f : A → A) (l : list A) : (∀ x, x ∈ l → f x = x) → f <$> l = l.
Proof.
  induction l as [|x l IH]; intros Hf; csimpl; [reflexivity|].
  rewrite Hf by left. rewrite IH; [reflexivity|]. intros y Hy. apply Hf. right. exact Hy.
Qed.

Lemma zip_with_ext_in {A B D} (f g : A → B → D) (l : list A) (k : list B) :
  (∀ x y, x ∈ l → y ∈ k → f x y = g x y) → zip_with f l k = zip_with g l k.
Proof.
  revert k. induction l as [|x l IH]; intros [|y k] Hf; simpl; try reflexivity.
  rewrite Hf by left. rewrite IH; [reflexivity|].
  intros a b Ha Hb. apply Hf; right; assumption.
Qed.

Lemma elem_of_concat {A} (x : A) (ls : list (list A)) :
  x ∈ concat ls → ∃ l, x ∈ l ∧ l ∈ ls.
Proof.
  induction ls as [|l ls IH]; simpl; [intros H; inversion H|].
  intros [H|H]%elem_of_app.
  - exists l. split; [exact H|left].
  - destruct (IH H) as (l' & Hx & Hl'). exists l'. split; [exact Hx|right; exact Hl'].
Qed.

Lemma py_getitem_Ok_inv {A} (l : list A) (i : Z) (x : A) :
  py_getitem l i = Ok x → ∃ k, py_index (length l) i = Ok k ∧ l !! k = Some x.
Proof.
  unfold py_getitem. intros (k & Hk & H)%bind_Ok_inv.
  destruct (l !! k) as [y|] eqn:Hy; [|discriminate]. injection H as <-. eauto.
Qed.

Lemma py_getitem_negative {A} (l : list A) (i : Z) :
  (- Z.of_nat (length l) ≤ i < 0)%Z →
  py_getitem l i = py_getitem l (Z.of_nat (length l) + i).
Proof.
  intros Hi. unfold py_getitem, py_index.
  destruct (decide (0 ≤ i < Z.of_nat (length l))%Z); [lia|].
  destruct (decide (- Z.of_nat (length l) ≤ i < 0)%Z); [|lia].
  destruct (decide (0 ≤ Z.of_nat (length l) + i < Z.of_nat (length l))%Z); [|lia].
  reflexivity.
Qed.

Lemma py_getitem_out_of_range {A} (l : list A) (i : Z) :
  (i < - Z.of_nat (length l) ∨ Z.of_nat (length l) ≤ i)%Z →
  py_getitem l i = Raise (IndexError "index out of range").
Proof.
  intros Hi. unfold py_getitem, py_index.
  destruct (decide (0 ≤ i < Z.of_nat (length l))%Z); [lia|].
  destruct (decide (- Z.of_nat (length l) ≤ i < 0)%Z); [lia|]. reflexivity.
Qed.

End Loops.

(** Running the methods on the inputs of the examples: the comparisons of
    reals that the code branches on are settled one by one. *)
Ltac settle_real := rewrite ?sqrt_1_1, ?sqrt_0, ?sqrt_1, ?Rabs_R0, ?Rabs_R1; lra.
Ltac settle_cmp :=
  repeat match goal with
    | |- context [Rltb ?a ?b] =>
        first [ rewrite (Rltb_true a b) by settle_real | rewrite (Rltb_false a b) by settle_real ]
    | |- context [Rleb ?a ?b] =>
        first [ rewrite (Rleb_true a b) by settle_real | rewrite (Rleb_false a b) by settle_real ]
    | |- context [Reqb ?a ?b] =>
        first [ rewrite (Reqb_true a b) by settle_real | rewrite (Reqb_false a b) by settle_real ]
    end.
Ltac evaluate := compute_reals; repeat (progress settle_cmp; compute_reals).

(** A computation that ended without error, taken apart step by step. *)
Ltac invert_ok :=
  repeat match goal with
    | H : bind ?m _ = Ok _ |- _ =>
        let a := fresh "a" in let Ha := fresh "Ha" in
        apply bind_Ok_inv in H as (a & Ha & H)
    | H : Ok _ = Ok _ |- _ => injection H as <-
    | H : Raise _ = Ok _ |- _ => discriminate H
    | H : no_item_assignment = Ok _ |- _ => discriminate H
    | H : broadcast_error = Ok _ |- _ => discriminate H
    | H : out_of_bounds = Ok _ |- _ => discriminate H
    | H : (if ?c then _ else _) = Ok _ |- _ => destruct c eqn:?
    | H : match ?x with _ => _ end = Ok _ |- _ => destruct x eqn:?
    end.

(** ** Copies *)

Section Copies.
Context {lib : Library}.
Local Open Scope R_scope.

(** What [DyagDinQ] reads of the object: the structure and the matrices. *)
Lemma DyagDinQ_reads (a b : Phonons) (iq : Z) :
  structure a = structure b → dynmats a = dynmats b → DyagDinQ a iq = DyagDinQ b iq.
Proof.
  intros Hs Hd. unfold DyagDinQ, mass_weighted, the_structure. rewrite Hs, Hd. reflexivity.
Qed.

(** [CheckCompatibility] between two sets that have a structure. *)
Lemma CheckCompatibility_sets (a b : Phonons) (sa sb : Structure) :
  structure a = Some sa → structure b = Some sb →
  CheckCompatibility a (PyPhonons b)
  = Ok (bool_decide (N_atoms sa = N_atoms sb ∧ nqirr a = nqirr b)).
Proof.
  intros Ha Hb. unfold CheckCompatibility. simpl. rewrite Ha, Hb. simpl.
  destruct (decide (N_atoms sa ≠ N_atoms sb)) as [Hn|Hn]; simpl.
  - rewrite bool_decide_eq_false_2; [reflexivity|]. intros [? _]. contradiction.
  - destruct (decide (nqirr a ≠ nqirr b)) as [Hq|Hq].
    + rewrite bool_decide_eq_false_2; [reflexivity|]. intros [_ ?]. contradiction.
    + rewrite bool_decide_eq_true_2; [reflexivity|]. split; lia.
Qed.

(** X1. [Copy] does not copy everything: the copy of any set has no Raman
    tensor, no effective charges, no dielectric tensor and the lattice
    length 1, whatever the original holds.  So [GetRamanResponce] on a copy
    always fails with the error of the undefined tensor, and [save_qe] on a
    copy writes [A_TO_BOHR] as the first cell parameter. *)
Theorem Copy_drops_optional_data (self ret : Phonons) (pol_in pol_out : list R) (T : R) :
  Copy self = Ok ret →
  GetRamanResponce ret pol_in pol_out T = Raise raman_undefined
  ∧ raman_tensor ret = None ∧ effective_charges ret = None ∧ dielectric_tensor ret = None
  ∧ alat ret = 1 ∧ save_qe_celldm1 ret = A_TO_BOHR.
Proof.
  intros Hc. unfold Copy, the_structure in Hc.
  destruct (structure self) as [st|]; [|discriminate]. injection Hc as <-.
  repeat split. unfold save_qe_celldm1. simpl. ring.
Qed.

(** X2. A copy diagonalises as its original at every index (same
    frequencies, same polarisation vectors, same exception), and the two
    are compatible in both directions. *)
Theorem Copy_diagonalises_alike (self ret : Phonons) (iq : Z) :
  Copy self = Ok ret →
  DyagDinQ ret iq = DyagDinQ self iq
  ∧ CheckCompatibility self (PyPhonons ret) = Ok true
  ∧ CheckCompatibility ret (PyPhonons self) = Ok true.
Proof.
  intros Hc. unfold Copy, the_structure in Hc.
  destruct (structure self) as [st|] eqn:Hst; [|discriminate]. injection Hc as <-.
  split; [|split].
  - apply DyagDinQ_reads; simpl; [symmetry; exact Hst | reflexivity].
  - erewrite (CheckCompatibility_sets _ _ st st); [|exact Hst|reflexivity].
    rewrite bool_decide_eq_true_2; [reflexivity|]. split; reflexivity.
  - erewrite (CheckCompatibility_sets _ _ st st); [|reflexivity|exact Hst].
    rewrite bool_decide_eq_true_2; [reflexivity|]. split; reflexivity.
Qed.

(** X3. On sets that have a structure [CheckCompatibility] is an
    equivalence: every set is compatible with itself, the answer does not
    depend on which of the two sets is asked, and compatibility with a
    common set passes on. *)
Theorem CheckCompatibility_equivalence (a b c : Phonons) (sa sb sc : Structure) :
  structure a = Some sa → structure b = Some sb → structure c = Some sc →
  CheckCompatibility a (PyPhonons a) = Ok true
  ∧ CheckCompatibility a (PyPhonons b) = CheckCompatibility b (PyPhonons a)
  ∧ (CheckCompatibility a (PyPhonons b) = Ok true →
     CheckCompatibility b (PyPhonons c) = Ok true →
     CheckCompatibility a (PyPhonons c) = Ok true).
Proof.
  intros Ha Hb Hc.
  rewrite (CheckCompatibility_sets a a sa sa Ha Ha), (CheckCompatibility_sets a b sa sb Ha Hb),
    (CheckCompatibility_sets b a sb sa Hb Ha), (CheckCompatibility_sets b c sb sc Hb Hc),
    (CheckCompatibility_sets a c sa sc Ha Hc).
  split; [|split].
  - rewrite bool_decide_eq_true_2; [reflexivity|]. split; reflexivity.
  - f_equal. apply bool_decide_ext. intuition congruence.
  - intros [= H1] [= H2]. apply bool_decide_eq_true_1 in H1, H2.
    rewrite bool_decide_eq_true_2; [reflexivity|]. intuition congruence.
Qed.

End Copies.

Lemma Copy_drops_optional_data_witness :
  ∃ ret, Copy Examples.with_raman_tensor = Ok ret
    ∧ GetRamanResponce (lib := Reference.library) ret [1; 0; 0]%R [1; 0; 0]%R 0%R
      = Raise raman_undefined
    ∧ raman_tensor ret = None ∧ effective_charges ret = None ∧ dielectric_tensor ret = None
    ∧ alat ret = 1%R ∧ save_qe_celldm1 ret = A_TO_BOHR.
Proof.
  eexists. split; [reflexivity|].
  apply (Copy_drops_optional_data (lib := Reference.library) Examples.with_raman_tensor).
  reflexivity.
Defined.

Lemma Copy_diagonalises_alike_witness :
  ∃ ret, Copy Examples.unit_set = Ok ret
    ∧ DyagDinQ (lib := Reference.library) ret 0
      = DyagDinQ (lib := Reference.library) Examples.unit_set 0
    ∧ CheckCompatibility Examples.unit_set (PyPhonons ret) = Ok true
    ∧ CheckCompatibility ret (PyPhonons Examples.unit_set) = Ok true.
Proof.
  eexists. split; [reflexivity|].
  apply (Copy_diagonalises_alike (lib := Reference.library) Examples.unit_set). reflexivity.
Defined.

Lemma CheckCompatibility_equivalence_witness :
  let a := Examples.gamma_set Examples.one_atom (Examples.diag3 1 4 9) in
  let b := Examples.unit_set in
  CheckCompatibility a (PyPhonons a) = Ok true
  ∧ CheckCompatibility a (PyPhonons b) = CheckCompatibility b (PyPhonons a)
  ∧ (CheckCompatibility a (PyPhonons b) = Ok true →
     CheckCompatibility b (PyPhonons a) = Ok true →
     CheckCompatibility a (PyPhonons a) = Ok true).
Proof.
  intros a b.
  exact (CheckCompatibility_equivalence a b a Examples.one_atom Examples.one_atom
           Examples.one_atom eq_refl eq_refl eq_refl).
Defined.

(** ** Indices, masses and the order of the frequencies *)

Section Indices.
Context {lib : Library}.
Local Open Scope R_scope.

(** X4. The index of [DyagDinQ] is a Python index into the list of
    matrices: with [n] matrices, an index from [-n] to [-1] selects the
    matrix [n + iq], and on a set that is otherwise in order an index
    outside [-n .. n - 1] raises [IndexError]. *)
Theorem DyagDinQ_index (self : Phonons) (iq : Z) :
  let n := Z.of_nat (length (dynmats self)) in
  ((- n ≤ iq < 0)%Z → DyagDinQ self iq = DyagDinQ self (n + iq))
  ∧ (∀ st, structure self = Some st → (0 ≤ N_atoms st)%Z → masses_cover st →
       (iq < - n ∨ n ≤ iq)%Z →
       DyagDinQ self iq = Raise (IndexError "index out of range")).
Proof.
  intros n. split.
  - intros Hi. unfold DyagDinQ, mass_weighted.
    rewrite (py_getitem_negative (dynmats self) iq Hi). reflexivity.
  - intros st Hst HN Hmass Hi. unfold DyagDinQ, mass_weighted, the_structure.
    rewrite Hst. simpl. unfold np_zeros2.
    destruct (decide (3 * N_atoms st < 0 ∨ 3 * N_atoms st < 0)%Z); [lia|]. simpl.
    destruct (mapM_is_Ok (mass_of st) (atoms st)) as (ms & -> & _).
    { intros a Ha. unfold mass_of. destruct (Hmass a Ha) as [m ->]. exact I. }
    simpl. rewrite (py_getitem_out_of_range (dynmats self) iq Hi). reflexivity.
Qed.

(** X5. When the mass table of the structure lacks the label of one of
    its atoms, [DyagDinQ] raises [KeyError] with the first such label,
    whatever the index and the matrices. *)
Theorem DyagDinQ_missing_mass (self : Phonons) (st : Structure) (iq : Z)
    (pre post : list string) (a : string) :
  structure self = Some st → (0 ≤ N_atoms st)%Z →
  atoms st = pre ++ a :: post →
  (∀ x, x ∈ pre → is_Some (masses st !! x)) → masses st !! a = None →
  DyagDinQ self iq = Raise (KeyError a).
Proof.
  intros Hst HN Hatoms Hpre Ha. unfold DyagDinQ, mass_weighted, the_structure.
  rewrite Hst. simpl. unfold np_zeros2.
  destruct (decide (3 * N_atoms st < 0 ∨ 3 * N_atoms st < 0)%Z); [lia|]. simpl.
  rewrite Hatoms, (mapM_first_error (mass_of st) pre post a (KeyError a)); [reflexivity| |].
  - intros x Hx. unfold mass_of. destruct (Hpre x Hx) as [m ->]. exact I.
  - unfold mass_of. rewrite Ha. reflexivity.
Qed.

Lemma frequency_of_pos (x : R) : 0 < x → frequency_of x = sqrt x.
Proof. intros H. unfold frequency_of. rewrite Rltb_true by exact H. reflexivity. Qed.

Lemma frequency_of_neg (x : R) : x < 0 → frequency_of x = - sqrt (- x).
Proof.
  intros H. unfold frequency_of. rewrite Rltb_false by lra. rewrite Rltb_true by exact H.
  reflexivity.
Qed.

Lemma frequency_of_0 : frequency_of 0 = 0.
Proof. unfold frequency_of. rewrite !Rltb_false by lra. reflexivity. Qed.

(** X6. The frequency [DyagDinQ] makes of an eigenvalue keeps its sign
    and its order and squares to its absolute value: the map is odd and
    strictly increasing, so sorting by frequency is sorting by eigenvalue,
    and [w**2] is [|eigenvalue|]. *)
Theorem frequency_of_order_and_square (x y : R) :
  frequency_of x * frequency_of x = Rabs x
  ∧ frequency_of (- x) = - frequency_of x
  ∧ (x < y → frequency_of x < frequency_of y)
  ∧ (0 < frequency_of x ↔ 0 < x) ∧ (frequency_of x < 0 ↔ x < 0).
Proof.
  assert (Hsign : ∀ z, (0 < z → 0 < frequency_of z) ∧ (z < 0 → frequency_of z < 0)
                       ∧ (z = 0 → frequency_of z = 0)).
  { intros z. repeat split; intros Hz.
    - rewrite frequency_of_pos by exact Hz. apply sqrt_lt_R0, Hz.
    - rewrite frequency_of_neg by exact Hz.
      assert (0 < sqrt (- z)) by (apply sqrt_lt_R0; lra). lra.
    - subst z. apply frequency_of_0. }
  split; [|split; [|split; [|split]]].
  - destruct (Rtotal_order x 0) as [Hx|[->|Hx]].
    + rewrite frequency_of_neg by exact Hx. rewrite Rabs_left by exact Hx.
      replace (- sqrt (- x) * - sqrt (- x)) with (sqrt (- x) * sqrt (- x)) by ring.
      apply sqrt_sqrt. lra.
    + rewrite frequency_of_0, Rabs_R0. ring.
    + rewrite frequency_of_pos by exact Hx. rewrite Rabs_right by lra.
      apply sqrt_sqrt. lra.
  - destruct (Rtotal_order x 0) as [Hx|[->|Hx]].
    + rewrite (frequency_of_neg x) by exact Hx. rewrite frequency_of_pos by lra. ring.
    + rewrite Ropp_0, frequency_of_0. ring.
    + rewrite (frequency_of_pos x) by exact Hx. rewrite frequency_of_neg by lra.
      rewrite Ropp_involutive. reflexivity.
  - intros Hxy.
    destruct (Rtotal_order x 0) as [Hx|[->|Hx]], (Rtotal_order y 0) as [Hy|[->|Hy]];
      try lra.
    + rewrite !frequency_of_neg by assumption.
      assert (sqrt (- y) < sqrt (- x)) by (apply sqrt_lt_1; lra). lra.
    + rewrite frequency_of_0. apply (Hsign x). exact Hx.
    + pose proof (proj1 (proj2 (Hsign x)) Hx). pose proof (proj1 (Hsign y) Hy). lra.
    + rewrite frequency_of_0. apply (Hsign y). exact Hy.
    + rewrite !frequency_of_pos by assumption. apply sqrt_lt_1; lra.
  - split; [|apply Hsign].
    intros Hf. destruct (Rtotal_order x 0) as [Hx|[->|Hx]]; [| |exact Hx].
    + pose proof (proj1 (proj2 (Hsign x)) Hx). lra.
    + rewrite frequency_of_0 in Hf. lra.
  - split; [|apply Hsign].
    intros Hf. destruct (Rtotal_order x 0) as [Hx|[->|Hx]]; [exact Hx| |].
    + rewrite frequency_of_0 in Hf. lra.
    + pose proof (proj1 (Hsign x) Hx). lra.
Qed.

End Indices.

Lemma DyagDinQ_missing_mass_witness :
  let st := mkStructure 2 ["H"; "He"]%string [[0; 0; 0]; [1; 0; 0]]%R
              {[ "H"%string := 1%R ]} (unit_cell Examples.one_atom) true in
  DyagDinQ (lib := Reference.library) (Examples.gamma_set st []) 0 = Raise (KeyError "He").
Proof.
  intros st.
  apply (DyagDinQ_missing_mass (lib := Reference.library) (Examples.gamma_set st []) st 0
           ["H"%string] [] "He").
  - reflexivity.
  - simpl. lia.
  - reflexivity.
  - intros x Hx. apply list_elem_of_singleton in Hx as ->. eexists. reflexivity.
  - reflexivity.
Defined.

(** ** The probability density as a function of the displacement *)

Section Density.
Context {lib : Library}.
Local Open Scope R_scope.

Lemma dot_opp_l (a b : list R) : dot (Ropp <$> a) b = - dot a b.
Proof.
  revert b. induction a as [|x a IH]; intros [|y b]; csimpl; try ring.
  rewrite IH. ring.
Qed.

Lemma dot_opp_r (a b : list R) : dot a (Ropp <$> b) = - dot a b.
Proof.
  revert b. induction a as [|x a IH]; intros [|y b]; csimpl; try ring.
  rewrite IH. ring.
Qed.

Lemma quadratic_form_opp (u : list R) (M : Matrix R) :
  quadratic_form (Ropp <$> u) M (Ropp <$> u) = quadratic_form u M u.
Proof.
  unfold quadratic_form. rewrite dot_opp_l.
  rewrite (list_fmap_ext (fun row => dot row (Ropp <$> u)) (fun row => - dot row u) M)
    by (intros i row _; apply dot_opp_r).
  rewrite (list_fmap_compose (fun row => dot row u) Ropp), dot_opp_r. ring.
Qed.

(** X7. [GetProbability] is an even function of the displacement: the
    displacement with every entry negated gives the same result (the same
    density, or the same exception), for every temperature, every Upsilon
    matrix (given or computed) and with or without normalisation. *)
Theorem GetProbability_even (self : Phonons) (u : list R) (T : R)
    (upsilon_matrix : option (Matrix R)) (normalize : bool) :
  GetProbability self (Disp1 (Ropp <$> u)) T upsilon_matrix normalize
  = GetProbability self (Disp1 u) T upsilon_matrix normalize.
Proof.
  unfold GetProbability. destruct (the_structure self) as [st|e]; [|reflexivity]. simpl.
  destruct (np_zeros2 0 1 (3 * N_atoms st)) as [zeros|e]; [|reflexivity]. simpl.
  destruct (match upsilon_matrix with None => GetUpsilonMatrix self T | Some Y => Ok Y end)
    as [Y|e]; [|reflexivity]. simpl.
  unfold einsum_i_ij_j. rewrite length_fmap.
  destruct (has_shape (length u) (length u) Y); [|reflexivity]. simpl.
  rewrite quadratic_form_opp. reflexivity.
Qed.

End Density.

(** ** ForcePositiveDefinite: what it keeps, and the real case *)

Section Rebuilding.
Context {lib : Library}.
Local Open Scope R_scope.

Lemma mul_elementwise_Ok_inv {A} (mul : A → A → A) (M N r : Matrix A) :
  mul_elementwise mul M N = Ok r →
  r = zip_with (zip_with mul) M N ∧ length M = length N
  ∧ Forall2 (fun a b => length a = length b) M N.
Proof.
  unfold mul_elementwise.
  destruct (Nat.eqb (length M) (length N)) eqn:Hlen; simpl; [|discriminate].
  destruct (forallb _ (zip M N)) eqn:Hrows; [|discriminate].
  intros [= <-]. apply Nat.eqb_eq in Hlen. split; [reflexivity|]. split; [exact Hlen|].
  rewrite forallb_forall in Hrows.
  apply Forall2_same_length_lookup_2; [exact Hlen|]. intros i a b Ha Hb.
  apply Nat.eqb_eq. apply (Hrows (a, b)). apply list_elem_of_In.
  apply list_elem_of_lookup_2 with i. rewrite lookup_zip_with, Ha. simpl. rewrite Hb. reflexivity.
Qed.

Lemma mul_elementwise_shape {A} (mul : A → A → A) (n m : nat) (M N r : Matrix A) :
  mul_elementwise mul M N = Ok r → has_shape n m N = true → has_shape n m r = true.
Proof.
  intros (-> & Hlen & Hrows)%mul_elementwise_Ok_inv [HN HNc]%andb_true_iff.
  apply Nat.eqb_eq in HN. unfold has_shape.
  rewrite length_zip_with, Hlen, Nat.min_id, HN, Nat.eqb_refl. simpl.
  unfold has_cols. apply forallb_forall. intros row Hrow%list_elem_of_In.
  apply list_elem_of_lookup_1 in Hrow as (i & Hi).
  apply lookup_zip_with_Some in Hi as (a & b & -> & Ha & Hb).
  rewrite length_zip_with.
  pose proof (Forall2_lookup_lr _ _ _ _ _ _ Hrows Ha Hb) as Hab. simpl in Hab.
  rewrite Hab, Nat.min_id. apply Nat.eqb_eq.
  apply (has_cols_length m N b HNc). eapply list_elem_of_lookup_2, Hb.
Qed.

Lemma tile_shape (mass1 : list R) (n : nat) (mm : Matrix R) :
  mul_elementwise Rmult (tile_rows mass1 n) (tile_cols mass1 n) = Ok mm →
  length mass1 = n ∧ has_shape n n mm = true
  ∧ mm = (fun ma => (fun mb => mb * ma) <$> mass1) <$> mass1.
Proof.
  intros Hmm. pose proof Hmm as (-> & Hlen & Hrows)%mul_elementwise_Ok_inv.
  unfold tile_rows, tile_cols in *. rewrite length_replicate, length_fmap in Hlen.
  split; [symmetry; exact Hlen|].
  assert (Hc : has_shape n n ((fun x : R => replicate n x) <$> mass1) = true).
  { unfold has_shape, has_cols. rewrite length_fmap, <- Hlen, Nat.eqb_refl. simpl.
    apply forallb_forall. intros row Hrow%list_elem_of_In%list_elem_of_fmap.
    destruct Hrow as (x & -> & _). rewrite length_replicate. apply Nat.eqb_refl. }
  split; [apply (mul_elementwise_shape Rmult n n _ _ _ Hmm Hc)|].
  rewrite zip_with_fmap_r, zip_with_replicate_l by lia.
  apply list_fmap_ext. intros i ma _. simpl.
  rewrite zip_with_replicate_r_eq by lia. reflexivity.
Qed.

(** What one turn of the loop of [ForcePositiveDefinite] changes. *)
Lemma force_positive_one_Ok_inv (sqrt_mm : Matrix R) (self self' : Phonons) (iq : nat) :
  force_positive_one sqrt_mm self iq = Ok self' →
  ∃ w pols m matrix,
    DyagDinQ self (Z.of_nat iq) = Ok (w, pols)
    ∧ einsum_i_ji_ki_C ((fun x => x * x) <$> w) pols pols = Ok m
    ∧ mul_elementwise Cmul m ((fun row : list R => RtoC <$> row) <$> sqrt_mm) = Ok matrix
    ∧ self' = set_dynmats (<[iq := matrix]> (dynmats self)) self.
Proof.
  unfold force_positive_one. intros ([w pols] & Hd & H)%bind_Ok_inv.
  apply bind_Ok_inv in H as (m & Hm & H).
  apply bind_Ok_inv in H as (matrix & Hmat & [= <-]).
  exists w, pols, m, matrix. auto.
Qed.

Lemma ForcePositiveDefinite_Ok_inv (self self' : Phonons) :
  ForcePositiveDefinite self = Ok self' →
  ∃ st mass1,
    structure self = Some st ∧ mass_array (fun m => m) st = Ok mass1
    ∧ for_each (seq 0 (length (dynmats self)))
        (fun self iq =>
           do mm <- mul_elementwise Rmult (tile_rows mass1 (Z.to_nat (3 * N_atoms st)))
                      (tile_cols mass1 (Z.to_nat (3 * N_atoms st)));
           force_positive_one ((fun row : list R => sqrt <$> row) <$> mm) self iq)
        self = Ok self'.
Proof.
  unfold ForcePositiveDefinite. intros (st & Hst & H)%bind_Ok_inv.
  apply bind_Ok_inv in H as (mass1 & Hmass & H).
  exists st, mass1. split; [|split; assumption].
  unfold the_structure in Hst. destruct (structure self); congruence.
Qed.

(** X8. [ForcePositiveDefinite] changes the stored matrices and nothing
    else: when it returns, the set has as many matrices as before, every
    other attribute is as it was, and every stored matrix has the shape
    (3 N_atoms, 3 N_atoms). *)
Theorem ForcePositiveDefinite_keeps (self self' : Phonons) (st : Structure) :
  structure self = Some st →
  ForcePositiveDefinite self = Ok self' →
  length (dynmats self') = length (dynmats self)
  ∧ set_dynmats (dynmats self) self' = self
  ∧ ∀ D, D ∈ dynmats self' →
      has_shape (Z.to_nat (3 * N_atoms st)) (Z.to_nat (3 * N_atoms st)) D = true.
Proof.
  intros Hst (st' & mass1 & Hst' & Hmass & Hloop)%ForcePositiveDefinite_Ok_inv.
  assert (st' = st) as -> by congruence.
  set (n := Z.to_nat (3 * N_atoms st)) in *.
  pose (P := fun (k : nat) (s : Phonons) =>
    length (dynmats s) = length (dynmats self)
    ∧ set_dynmats (dynmats self) s = self
    ∧ (∀ i D, (i < k)%nat → dynmats s !! i = Some D → has_shape n n D = true)).
  assert (HP : P (0 + length (dynmats self))%nat self').
  { refine (for_each_seq_invariant P _ 0 _ self self' _ _ Hloop).
    - split; [reflexivity|]. split; [destruct self; reflexivity|]. intros i D Hi. lia.
    - intros k s s' Hk (Hlen & Hrest & Hshape) Hbody.
      apply bind_Ok_inv in Hbody as (mm & Hmm & Hone).
      apply force_positive_one_Ok_inv in Hone as (w & pols & m & matrix & _ & _ & Hmat & ->).
      destruct (tile_shape mass1 n mm Hmm) as (_ & Hmmshape & _).
      split; [|split].
      + simpl. rewrite length_insert. exact Hlen.
      + rewrite <- Hrest. reflexivity.
      + intros i D Hi. simpl. destruct (decide (i = k)) as [->|Hne].
        * rewrite list_lookup_insert_eq by lia. intros [= <-].
          apply (mul_elementwise_shape _ _ _ _ _ _ Hmat).
          unfold has_shape, has_cols in *. rewrite !length_fmap.
          apply andb_true_iff in Hmmshape as [-> Hc]. simpl.
          apply forallb_forall. intros row Hrow%list_elem_of_In.
          apply list_elem_of_fmap in Hrow as (r1 & -> & Hr1).
          apply list_elem_of_fmap in Hr1 as (r2 & -> & Hr2).
          rewrite !length_fmap. rewrite forallb_forall in Hc.
          apply Hc, list_elem_of_In, Hr2.
        * rewrite list_lookup_insert_ne by congruence. apply Hshape. lia. }
  destruct HP as (Hlen & Hrest & Hshape). split; [exact Hlen|]. split; [exact Hrest|].
  intros D HD. apply list_elem_of_lookup_1 in HD as (i & Hi).
  apply (Hshape i D); [|exact Hi]. simpl. rewrite <- Hlen. apply lookup_lt_is_Some. eauto.
Qed.

Lemma real_entries_to_complex (M : Matrix C) :
  real_entries M → M = to_complex ((fun row : list C => Re <$> row) <$> M).
Proof.
  intros HM. unfold to_complex. rewrite <- list_fmap_compose. symmetry.
  apply fmap_id_on. intros row Hrow. simpl. rewrite <- list_fmap_compose.
  apply fmap_id_on. intros [re im] Hz. simpl. unfold RtoC. f_equal. simpl.
  symmetry. apply (HM row _ Hrow Hz).
Qed.

Lemma dot3C_real (f a b : list R) :
  dot3C f (RtoC <$> a) (RtoC <$> b) = RtoC (dot3 f a b).
Proof.
  revert a b. induction f as [|c f IH]; intros [|x a] [|y b]; csimpl; try reflexivity.
  rewrite IH. unfold Cadd, Cmul, Cscale, RtoC. simpl. f_equal; ring.
Qed.

Lemma has_cols_fmap {A B} (g : A → B) (m : nat) (M : Matrix A) :
  has_cols m ((fun row : list A => g <$> row) <$> M) = has_cols m M.
Proof.
  unfold has_cols. induction M as [|row M IH]; csimpl; [reflexivity|].
  rewrite length_fmap, IH. reflexivity.
Qed.

Lemma einsum_C_real (f : list R) (P : Matrix R) (r : Matrix C) :
  einsum_i_ji_ki_C f (to_complex P) (to_complex P) = Ok r →
  r = to_complex ((fun a => (fun b => dot3 f a b) <$> P) <$> P)
  ∧ has_cols (length f) P = true.
Proof.
  unfold einsum_i_ji_ki_C, to_complex. rewrite has_cols_fmap.
  destruct (has_cols (length f) P); simpl; [|discriminate].
  intros [= <-]. split; [|reflexivity].
  rewrite <- !list_fmap_compose. apply list_fmap_ext. intros i a _. simpl.
  rewrite <- !list_fmap_compose. apply list_fmap_ext. intros j b _. simpl.
  apply dot3C_real.
Qed.

Lemma zip_Cmul_real (G S : Matrix R) :
  zip_with (zip_with Cmul) (to_complex G) (to_complex S)
  = to_complex (zip_with (zip_with Rmult) G S).
Proof.
  unfold to_complex. rewrite zip_with_fmap_l, zip_with_fmap_r, fmap_zip_with.
  apply zip_with_ext_in. intros a b _ _.
  rewrite zip_with_fmap_l, zip_with_fmap_r, fmap_zip_with.
  apply zip_with_ext_in. intros x y _ _. unfold Cmul, RtoC. simpl. f_equal; ring.
Qed.

Lemma sqrt_weights (G : Matrix R) (mass1 : list R) :
  (∀ m, m ∈ mass1 → 0 <= m) →
  zip_with (zip_with Rmult) G
    ((fun row : list R => sqrt <$> row)
       <$> ((fun ma => (fun mb => mb * ma) <$> mass1) <$> mass1))
  = zip_with (fun (row : list R) sa => zip_with (fun v sb => v * sb * sa) row (sqrt <$> mass1))
      G (sqrt <$> mass1).
Proof.
  intros Hpos. rewrite <- list_fmap_compose, !zip_with_fmap_r.
  apply zip_with_ext_in. intros row ma _ Hma. simpl.
  rewrite <- list_fmap_compose, !zip_with_fmap_r.
  apply zip_with_ext_in. intros v mb _ Hmb. simpl.
  rewrite sqrt_mult by (apply Hpos; assumption). ring.
Qed.

Lemma take_columns_entries {A} (M r : Matrix A) (mask : list nat) :
  take_columns M mask = Ok r →
  ∀ row z, row ∈ r → z ∈ row → ∃ src, src ∈ M ∧ z ∈ src.
Proof.
  intros H%mapM_Ok_inv row z Hrow Hz.
  apply list_elem_of_lookup_1 in Hrow as (i & Hi).
  destruct (Forall2_lookup_r _ _ _ _ _ H Hi) as (src & Hsrc & Htake).
  exists src. split; [eapply list_elem_of_lookup_2, Hsrc|].
  apply mapM_Ok_inv in Htake.
  apply list_elem_of_lookup_1 in Hz as (j & Hj).
  destruct (Forall2_lookup_r _ _ _ _ _ Htake Hj) as (k & _ & Hk).
  destruct (src !! k) as [x|] eqn:Hx; [|discriminate]. injection Hk as ->.
  eapply list_elem_of_lookup_2, Hx.
Qed.

Lemma DyagDinQ_real (self : Phonons) (iq : Z) (w : list R) (pols : Matrix C) :
  real_eigenvectors lib → DyagDinQ self iq = Ok (w, pols) → real_entries pols.
Proof.
  intros Hreal. unfold DyagDinQ. intros (real_dyn & _ & H)%bind_Ok_inv.
  apply bind_Ok_inv in H as ([eigvals pol_vects] & Heig & H).
  apply bind_Ok_inv in H as (fr & _ & H).
  apply bind_Ok_inv in H as (pv & Hpv & [= _ <-]).
  unfold np_linalg_eig, lapack in Heig.
  destruct (linalg_eig real_dyn) as [[v1 v2]|] eqn:Hl; [|discriminate].
  injection Heig as -> ->.
  intros row z Hrow Hz.
  destruct (take_columns_entries _ _ _ Hpv row z Hrow Hz) as (src & Hsrc & Hzsrc).
  apply (Hreal _ _ _ Hl src z Hsrc Hzsrc).
Qed.

Lemma mass_array_entries (f : R → R) (st : Structure) (mass1 : list R) :
  mass_array f st = Ok mass1 →
  ∀ x, x ∈ mass1 → ∃ label m, masses st !! label = Some m ∧ x = f m.
Proof.
  unfold mass_array. intros (zeros & _ & H)%bind_Ok_inv.
  apply bind_Ok_inv in H as (ms & Hms & [= <-]).
  apply mapM_Ok_inv in Hms. intros x Hx.
  apply list_elem_of_bind in Hx as (y & Hxy & Hy).
  assert (x = y) as ->.
  { apply elem_of_cons in Hxy as [->|Hxy]; [reflexivity|].
    apply elem_of_cons in Hxy as [->|Hxy]; [reflexivity|].
    apply list_elem_of_singleton in Hxy. exact Hxy. }
  apply list_elem_of_lookup_1 in Hy as (i & Hi).
  destruct (Forall2_lookup_r _ _ _ _ _ Hms Hi) as (k & _ & Hk).
  apply bind_Ok_inv in Hk as (label & _ & Hk).
  apply bind_Ok_inv in Hk as (m & Hm & [= <-]).
  exists label, m. split; [|reflexivity].
  unfold mass_of in Hm. destruct (masses st !! label); congruence.
Qed.

(** What [DyagDinQ] reads of the list of matrices: the one at the index. *)
Lemma DyagDinQ_reads_at (a b : Phonons) (k : nat) :
  structure a = structure b → length (dynmats a) = length (dynmats b) →
  dynmats a !! k = dynmats b !! k →
  DyagDinQ a (Z.of_nat k) = DyagDinQ b (Z.of_nat k).
Proof.
  intros Hs Hlen Hk. unfold DyagDinQ, mass_weighted, the_structure, py_getitem. rewrite Hs, Hlen.
  destruct (structure b) as [st|]; [|reflexivity]. simpl.
  destruct (np_zeros2 C0 (3 * N_atoms st) (3 * N_atoms st)); [|reflexivity]. simpl.
  destruct (mapM (mass_of st) (atoms st)); [|reflexivity]. simpl.
  unfold py_index.
  destruct (decide (0 ≤ Z.of_nat k < Z.of_nat (length (dynmats b)))%Z) as [_|Hout]; simpl.
  - rewrite Nat2Z.id, Hk. reflexivity.
  - destruct (decide (- Z.of_nat (length (dynmats b)) ≤ Z.of_nat k < 0)%Z); [lia|reflexivity].
Qed.

(** X9. When the eigenvectors that [DyagDinQ] returns for the stored
    matrices are real and no mass is negative, every matrix
    [ForcePositiveDefinite] stores is real, symmetric and
    positive-semidefinite, in exact arithmetic: the promise of the docstring
    holds in the real case (the eigenvectors need not even be orthogonal).
    Only the answers to the calls the method makes are constrained. *)
Theorem ForcePositiveDefinite_real_psd (self self' : Phonons) (st : Structure) :
  (∀ k D w pols, dynmats self !! k = Some D →
     DyagDinQ self (Z.of_nat k) = Ok (w, pols) → real_entries pols) →
  structure self = Some st →
  (∀ label m, masses st !! label = Some m → 0 <= m) →
  ForcePositiveDefinite self = Ok self' →
  ∀ D, D ∈ dynmats self' →
    ∃ U, D = to_complex U ∧ symmetric U ∧ positive_semidefinite U.
Proof.
  intros Hreal Hst Hmasses (st' & mass1 & Hst' & Hmass & Hloop)%ForcePositiveDefinite_Ok_inv.
  assert (st' = st) as -> by congruence.
  assert (Hpos : ∀ m, m ∈ mass1 → 0 <= m).
  { intros m Hm. destruct (mass_array_entries _ _ _ Hmass m Hm) as (label & m' & Hl & ->).
    apply (Hmasses label m' Hl). }
  set (n := Z.to_nat (3 * N_atoms st)) in *.
  pose (good := fun D : Matrix C => ∃ U, D = to_complex U ∧ symmetric U ∧ positive_semidefinite U).
  pose (P := fun (k : nat) (s : Phonons) =>
    structure s = structure self
    ∧ length (dynmats s) = length (dynmats self)
    ∧ (∀ i D, (i < k)%nat → dynmats s !! i = Some D → good D)
    ∧ (∀ i, (k ≤ i)%nat → dynmats s !! i = dynmats self !! i)).
  assert (HP : P (0 + length (dynmats self))%nat self').
  { refine (for_each_seq_invariant P _ 0 _ self self' _ _ Hloop).
    - split; [reflexivity|]. split; [reflexivity|]. split; [|reflexivity].
      intros i D Hi. lia.
    - intros k s s' Hk (Hstr & Hlen & Hgood & Hrest) Hbody.
      apply bind_Ok_inv in Hbody as (mm & Hmm & Hone).
      apply force_positive_one_Ok_inv in Hone as (w & pols & m & matrix & Hd & Hm & Hmat & ->).
      destruct (tile_shape mass1 n mm Hmm) as (_ & _ & ->).
      split; [exact Hstr|]. split; [simpl; rewrite length_insert; exact Hlen|]. split.
      + intros i D Hi. simpl. destruct (decide (i = k)) as [->|Hne].
        * rewrite list_lookup_insert_eq by lia. intros [= <-].
          rewrite (DyagDinQ_reads_at s self k Hstr Hlen (Hrest k (Nat.le_refl k))) in Hd.
          destruct (lookup_lt_is_Some_2 (dynmats self) k ltac:(lia)) as [D0 HD0].
          pose proof (Hreal k D0 w pols HD0 Hd) as Hpols.
          rewrite (real_entries_to_complex pols Hpols) in Hm.
          set (Pr := (fun row : list C => Re <$> row) <$> pols) in *.
          set (f := (fun x => x * x) <$> w) in *.
          apply einsum_C_real in Hm as (-> & Hcols).
          apply mul_elementwise_Ok_inv in Hmat as (-> & _ & _).
          change ((fun row : list R => RtoC <$> row) <$> ?S) with (to_complex S).
          rewrite zip_Cmul_real, (sqrt_weights _ mass1 Hpos), weighted_gram.
          eexists. split; [reflexivity|]. split; [apply gram_matrix_symmetric|].
          intros u _. rewrite gram_matrix_form. apply gram_form_nonneg.
          -- unfold f. apply Forall_fmap, Forall_forall. intros x _. simpl. nra.
          -- apply Forall_forall. intros [a sa] Hp. simpl.
             apply elem_of_zip_l in Hp. apply (has_cols_length _ _ _ Hcols Hp).
        * rewrite list_lookup_insert_ne by congruence. apply Hgood. lia.
      + intros i Hi. simpl. rewrite list_lookup_insert_ne by lia. apply Hrest. lia. }
  destruct HP as (_ & Hlen & Hgood & _). intros D HD.
  apply list_elem_of_lookup_1 in HD as (i & Hi).
  apply (Hgood i D); [|exact Hi]. simpl. rewrite <- Hlen. apply lookup_lt_is_Some. eauto.
Qed.

End Rebuilding.


(** ** The Upsilon matrix at every temperature *)

Section UpsilonAtT.
Context {lib : Library}.
Local Open Scope R_scope.



End UpsilonAtT.


(** ** The strained matrix *)

Section Strain.
Context {lib : Library}.
Local Open Scope R_scope.



End Strain.


(** ** What a successful load has done *)

Section Loading.
Context {lib : Library}.
Local Open Scope R_scope.

Lemma same_core_refl a : same_core a a.
Proof. repeat split. Qed.

Lemma scan_numbers_keeps (sc sc' : Scan) (toks : list string) :
  scan_numbers sc toks = Ok sc' →
  same_core (sc_self sc) (sc_self sc') ∧ q_star sc' = q_star sc.
Proof.
  unfold scan_numbers. intros H. invert_ok; simpl; repeat split.
Qed.

(** The second loop of a file: what it adds to the object. *)
Lemma scan_lines_appends (lines : list string) (sc sc' : Scan) :
  scan_lines lines sc = Ok sc' →
  nqirr (sc_self sc') = nqirr (sc_self sc)
  ∧ structure (sc_self sc') = structure (sc_self sc)
  ∧ q_stars (sc_self sc') = q_stars (sc_self sc)
  ∧ (∃ qs, q_star sc' = q_star sc ++ qs ∧ q_tot (sc_self sc') = q_tot (sc_self sc) ++ qs)
  ∧ (∃ more, dynmats (sc_self sc') = dynmats (sc_self sc) ++ more)
  ∧ ∃ line, line ∈ lines ∧ PyStr.contains "Diagonalizing" line = true.
Proof.
  revert sc. induction lines as [|line rest IH]; intros sc; simpl; [discriminate|].
  destruct (PyStr.contains "Diagonalizing" line) eqn:Hdiag.
  { intros [= <-]. simpl. repeat split.
    - exists []. rewrite !app_nil_r. split; reflexivity.
    - eexists. reflexivity.
    - exists line. split; [left|exact Hdiag]. }
  assert (Hstep : ∀ sc1,
    nqirr (sc_self sc1) = nqirr (sc_self sc)
    ∧ structure (sc_self sc1) = structure (sc_self sc)
    ∧ q_stars (sc_self sc1) = q_stars (sc_self sc)
    ∧ (∃ qs, q_star sc1 = q_star sc ++ qs ∧ q_tot (sc_self sc1) = q_tot (sc_self sc) ++ qs)
    ∧ (∃ more, dynmats (sc_self sc1) = dynmats (sc_self sc) ++ more) →
    scan_lines rest sc1 = Ok sc' →
    nqirr (sc_self sc') = nqirr (sc_self sc)
    ∧ structure (sc_self sc') = structure (sc_self sc)
    ∧ q_stars (sc_self sc') = q_stars (sc_self sc)
    ∧ (∃ qs, q_star sc' = q_star sc ++ qs ∧ q_tot (sc_self sc') = q_tot (sc_self sc) ++ qs)
    ∧ (∃ more, dynmats (sc_self sc') = dynmats (sc_self sc) ++ more)
    ∧ ∃ line0, line0 ∈ line :: rest ∧ PyStr.contains "Diagonalizing" line0 = true).
  { intros sc1 (Hn & Hs & Hqs & (qs1 & Hq1 & Hq1') & (more1 & Hm1)) Hscan.
    destruct (IH sc1 Hscan) as (Hn' & Hs' & Hqs' & (qs2 & Hq2 & Hq2') & (more2 & Hm2) & l0 & Hl0 & Hc).
    split; [congruence|]. split; [congruence|]. split; [congruence|]. split; [|split].
    - exists (qs1 ++ qs2). rewrite Hq2, Hq2', Hq1, Hq1', !app_assoc. split; reflexivity.
    - exists (more1 ++ more2). rewrite Hm2, Hm1, app_assoc. reflexivity.
    - exists l0. split; [right; exact Hl0|exact Hc]. }
  assert (Hsame : ∀ sc1, same_core (sc_self sc) (sc_self sc1) → q_star sc1 = q_star sc →
    nqirr (sc_self sc1) = nqirr (sc_self sc)
    ∧ structure (sc_self sc1) = structure (sc_self sc)
    ∧ q_stars (sc_self sc1) = q_stars (sc_self sc)
    ∧ (∃ qs, q_star sc1 = q_star sc ++ qs ∧ q_tot (sc_self sc1) = q_tot (sc_self sc) ++ qs)
    ∧ (∃ more, dynmats (sc_self sc1) = dynmats (sc_self sc) ++ more)).
  { intros sc1 (Hn & Hs & Hqs & Hqt & Hd) Hq. repeat split; try assumption.
    - exists []. rewrite !app_nil_r. split; assumption.
    - exists []. rewrite app_nil_r. exact Hd. }
  destruct (PyStr.contains "Dielectric" line).
  { apply Hstep. apply Hsame; [repeat split|reflexivity]. }
  destruct (PyStr.contains "Effective" line).
  { intros H. invert_ok. revert H. apply Hstep. apply Hsame; [repeat split|reflexivity]. }
  destruct (PyStr.contains "Raman" line).
  { intros H. invert_ok. revert H. apply Hstep. apply Hsame; [repeat split|reflexivity]. }
  destruct (PyStr.contains "q = " line).
  { intros H. invert_ok. revert H. apply Hstep. simpl. repeat split.
    - eexists. split; reflexivity.
    - exists []. rewrite app_nil_r. reflexivity. }
  destruct (PyStr.contains "ynamical" line).
  { apply Hstep. simpl. repeat split.
    - exists []. rewrite !app_nil_r. split; reflexivity.
    - eexists. reflexivity. }
  destruct (PyStr.split line) as [|tok toks] eqn:Htoks.
  { apply Hstep. apply Hsame; [apply same_core_refl|reflexivity]. }
  intros H. apply bind_Ok_inv in H as (sc1 & Hnum & H). revert H. apply Hstep.
  destruct (scan_numbers_keeps _ _ _ Hnum) as [Hcore Hq]. apply Hsame; assumption.
Qed.

(** The header of the first file: what it sets. *)
Lemma read_structure_keeps (self self' : Phonons) (dynlines dynlines' : list string) :
  read_structure self dynlines = Ok (self', dynlines') →
  nqirr self' = nqirr self ∧ q_stars self' = q_stars self ∧ q_tot self' = q_tot self
  ∧ dynmats self' = dynmats self ∧ is_Some (structure self')
  ∧ ∀ line, line ∈ dynlines' → line ∈ dynlines ∨ line = ""%string.
Proof.
  unfold read_structure. intros H.
  apply bind_Ok_inv in H as (line2 & _ & H).
  apply bind_Ok_inv in H as (ibrav & _ & H).
  apply bind_Ok_inv in H as (celldm & _ & H).
  apply bind_Ok_inv in H as (nat & _ & H).
  apply bind_Ok_inv in H as (ntyp & _ & H).
  apply bind_Ok_inv in H as (celldm1 & _ & H).
  apply bind_Ok_inv in H as (st & _ & H).
  apply bind_Ok_inv in H as (coords0 & _ & H).
  apply bind_Ok_inv in H as ([cell lines1] & Hcell & H).
  apply bind_Ok_inv in H as ([atoms_dict masses_dict] & _ & H).
  apply bind_Ok_inv in H as (st1 & _ & [= <- <-]).
  simpl. repeat split; [eauto|].
  intros line Hline. destruct (decide (ibrav = 0%Z)).
  - apply bind_Ok_inv in Hcell as (c & _ & [= _ <-]). left. exact Hline.
  - apply bind_Ok_inv in Hcell as (c & _ & [= _ <-]).
    unfold py_insert in Hline.
    repeat (apply elem_of_app in Hline as [Hline|Hline];
            [apply elem_of_take_inv in Hline
            |apply elem_of_cons in Hline as [->|Hline]; [right; reflexivity|];
             apply elem_of_drop_inv in Hline]);
      try (left; exact Hline).
Qed.

Lemma pop_to_dynmat_Ok (dynlines rest : list string) :
  pop_to_dynmat dynlines = Ok rest →
  (∃ line, line ∈ dynlines ∧ PyStr.contains "cartesian axes" line = true)
  ∧ ∀ x, x ∈ rest → x ∈ dynlines.
Proof.
  induction dynlines as [|line l IH]; simpl; [discriminate|].
  destruct (PyStr.contains "cartesian axes" line) eqn:Hc.
  - intros [= <-]. split; [exists line; split; [left|exact Hc]|]. intros x Hx. right. exact Hx.
  - intros H. destruct (IH H) as ((l0 & Hl0 & Hc0) & Hsub). split.
    + exists l0. split; [right; exact Hl0|exact Hc0].
    + intros x Hx. right. apply Hsub, Hx.
Qed.

(** One file read without error: the file exists and holds the two
    markers; the object gains one star, its q points and some matrices. *)
Lemma load_file_Ok (fs : Files) (fildyn_prefix : string) (full_name : bool)
    (self self' : Phonons) (iq : Z) :
  load_file fs fildyn_prefix full_name self iq = Ok self' →
  (∃ lines l1 l2, fs !! filepath_of fildyn_prefix full_name iq = Some lines
     ∧ l1 ∈ lines ∧ PyStr.contains "cartesian axes" (PyStr.strip l1) = true
     ∧ l2 ∈ lines ∧ PyStr.contains "Diagonalizing" (PyStr.strip l2) = true)
  ∧ nqirr self' = nqirr self ∧ is_Some (structure self')
  ∧ ∃ star more, q_stars self' = q_stars self ++ [star]
      ∧ q_tot self' = q_tot self ++ star ∧ dynmats self' = dynmats self ++ more.
Proof.
  unfold load_file.
  destruct (fs !! filepath_of fildyn_prefix full_name iq) as [lines|] eqn:Hfile; [|discriminate].
  intros H. apply bind_Ok_inv in H as ([self1 lines1] & Hhead & H).
  apply bind_Ok_inv in H as (rest & Hpop & H).
  apply bind_Ok_inv in H as (st & Hst & H).
  apply bind_Ok_inv in H as (zeros & _ & H).
  apply bind_Ok_inv in H as (sc & Hscan & [= <-]).
  destruct (pop_to_dynmat_Ok _ _ Hpop) as ((m1 & Hm1 & Hc1) & Hsub).
  destruct (scan_lines_appends _ _ _ Hscan)
    as (Hn & Hs & Hqs & (qs & Hq & Hqt) & (more & Hd) & m2 & Hm2 & Hc2).
  simpl in *.
  assert (Hhead' : nqirr self1 = nqirr self ∧ q_stars self1 = q_stars self
                   ∧ q_tot self1 = q_tot self ∧ dynmats self1 = dynmats self
                   ∧ ∀ line, line ∈ lines1 → line ∈ PyStr.strip <$> lines ∨ line = ""%string).
  { destruct (decide (iq = 0%Z)).
    - destruct (read_structure_keeps _ _ _ _ Hhead) as (? & ? & ? & ? & _ & ?). auto.
    - injection Hhead as <- <-. repeat split. intros line Hl. left. exact Hl. }
  destruct Hhead' as (Hn1 & Hqs1 & Hqt1 & Hd1 & Hlines).
  assert (Horig : ∀ marker line, line ∈ lines1 → PyStr.contains marker line = true →
                  PyStr.contains marker ""%string = false →
                  ∃ l, l ∈ lines ∧ PyStr.contains marker (PyStr.strip l) = true).
  { intros marker line Hl Hc Hempty. destruct (Hlines line Hl) as [Hin| ->].
    - apply list_elem_of_fmap in Hin as (l & -> & Hin). exists l. split; assumption.
    - congruence. }
  destruct (Horig _ m1 Hm1 Hc1 eq_refl) as (l1 & Hl1 & Hl1c).
  destruct (Horig _ m2 (Hsub _ Hm2) Hc2 eq_refl) as (l2 & Hl2 & Hl2c).
  split; [exists lines, l1, l2; auto|].
  split; [congruence|]. split.
  { rewrite Hs. unfold the_structure in Hst. destruct (structure self1); [eauto|discriminate]. }
  exists qs, more. rewrite Hqs, Hqt, Hd, Hqs1, Hqt1, Hd1. simpl in Hq. subst qs.
  repeat split.
Qed.

(** X12. [LoadFromQE] appends and never resets: when it returns, the
    attribute [nqirr] of the object is what it was (the argument [nqirr] is
    not stored), the object is initialized and has a structure, one star is
    added per file, the q points of the new stars are added to [q_tot] in
    order, and the matrices that were stored stay in front of the new ones.
    Loaded into a fresh object, [q_tot] is the concatenation of [q_stars]. *)
Theorem LoadFromQE_appends (fs : Files) (self self' : Phonons) (fildyn_prefix : string)
    (nqirr0 : Z) (full_name : bool) :
  LoadFromQE fs self fildyn_prefix nqirr0 full_name = Ok self' →
  nqirr self' = nqirr self ∧ initialized self' = true ∧ is_Some (structure self')
  ∧ ∃ stars more,
      length stars = Z.to_nat nqirr0
      ∧ q_stars self' = q_stars self ++ stars
      ∧ q_tot self' = q_tot self ++ concat stars
      ∧ dynmats self' = dynmats self ++ more.
Proof.
  unfold LoadFromQE. destruct (decide (nqirr0 ≤ 0)%Z); [discriminate|].
  destruct (full_name && bool_decide (nqirr0 > 1)%Z); [discriminate|].
  intros (s & Hloop & [= <-])%bind_Ok_inv.
  pose (P := fun (k : nat) (s : Phonons) =>
    nqirr s = nqirr self ∧ is_Some (structure s)
    ∧ ∃ stars more, length stars = k ∧ q_stars s = q_stars self ++ stars
        ∧ q_tot s = q_tot self ++ concat stars ∧ dynmats s = dynmats self ++ more).
  assert (HP : P (length (py_range nqirr0)) s).
  { refine (for_each_counting P _ _ _ _ _ _ Hloop).
    - split; [reflexivity|]. split; [simpl; eauto|]. exists [], []. simpl.
      rewrite !app_nil_r. repeat split.
    - intros k s0 iq s1 (Hn & _ & stars & more & Hlen & Hqs & Hqt & Hd) Hfile.
      destruct (load_file_Ok _ _ _ _ _ _ Hfile) as (_ & Hn1 & Hs1 & star & more1 & Hqs1 & Hqt1 & Hd1).
      split; [congruence|]. split; [exact Hs1|].
      exists (stars ++ [star]), (more ++ more1).
      rewrite length_app, Hlen, Hqs1, Hqt1, Hd1, Hqs, Hqt, Hd, concat_app. simpl.
      rewrite app_nil_r, !app_assoc. repeat split. lia. }
  unfold py_range in HP. rewrite length_fmap, length_seq in HP.
  destruct HP as (Hn & Hs & stars & more & Hlen & Hqs & Hqt & Hd).
  simpl. split; [exact Hn|]. split; [reflexivity|]. split; [exact Hs|].
  exists stars, more. auto.
Qed.

(** X13. [LoadFromQE] returns only if [nqirr] is positive and, for every
    q point below it, the file of that q point exists and holds a line with
    "cartesian axes" and a line with "Diagonalizing". *)
Theorem LoadFromQE_needs_files (fs : Files) (self self' : Phonons) (fildyn_prefix : string)
    (nqirr0 : Z) (full_name : bool) :
  LoadFromQE fs self fildyn_prefix nqirr0 full_name = Ok self' →
  (0 < nqirr0)%Z
  ∧ ∀ iq, (0 ≤ iq < nqirr0)%Z →
      ∃ lines l1 l2, fs !! filepath_of fildyn_prefix full_name iq = Some lines
        ∧ l1 ∈ lines ∧ PyStr.contains "cartesian axes" (PyStr.strip l1) = true
        ∧ l2 ∈ lines ∧ PyStr.contains "Diagonalizing" (PyStr.strip l2) = true.
Proof.
  unfold LoadFromQE. destruct (decide (nqirr0 ≤ 0)%Z); [discriminate|].
  destruct (full_name && bool_decide (nqirr0 > 1)%Z); [discriminate|].
  intros (s & Hloop & _)%bind_Ok_inv. split; [lia|]. intros iq Hiq.
  destruct (for_each_Ok_each _ _ _ _ Hloop iq) as (s0 & s1 & Hfile).
  { unfold py_range. apply list_elem_of_fmap. exists (Z.to_nat iq).
    split; [lia|]. apply elem_of_seq. lia. }
  apply (load_file_Ok _ _ _ _ _ _ Hfile).
Qed.

(** X14. A first file of fewer than three lines ends the load with
    [IndexError]: the header is read from the third line without a check of
    the length. *)
Theorem LoadFromQE_short_file (fs : Files) (self : Phonons) (fildyn_prefix : string)
    (nqirr0 : Z) (full_name : bool) (lines : list string) :
  (0 < nqirr0)%Z → (full_name = true → nqirr0 = 1%Z) →
  fs !! filepath_of fildyn_prefix full_name 0 = Some lines →
  (length lines < 3)%nat →
  LoadFromQE fs self fildyn_prefix nqirr0 full_name
  = Raise (IndexError "index out of range").
Proof.
  intros Hn Hfull Hfile Hshort. unfold LoadFromQE.
  destruct (decide (nqirr0 ≤ 0)%Z); [lia|].
  assert (full_name && bool_decide (nqirr0 > 1)%Z = false) as ->.
  { destruct full_name; [|reflexivity]. simpl. apply bool_decide_eq_false_2.
    rewrite Hfull by reflexivity. lia. }
  rewrite (py_range_split nqirr0 0) by lia. simpl.
  unfold load_file at 1. rewrite Hfile. simpl.
  unfold read_structure, py_getitem, py_index. rewrite length_fmap.
  destruct (decide (0 ≤ 2 < Z.of_nat (length lines))%Z); [lia|].
  destruct (decide (- Z.of_nat (length lines) ≤ 2 < 0)%Z); [lia|]. reflexivity.
Qed.

End Loading.


(** ** What save_qe writes *)

Section Saving.

Lemma save_qe_types_spec (st : Structure) :
  (0 ≤ N_atoms st ≤ Z.of_nat (length (atoms st)))%Z →
  ∃ types, save_qe_types st = Ok types ∧ NoDup types
    ∧ ∀ a, a ∈ types ↔ a ∈ take (Z.to_nat (N_atoms st)) (atoms st).
Proof.
  intros HN. unfold save_qe_types.
  replace (py_range (N_atoms st)) with (py_range (Z.of_nat (Z.to_nat (N_atoms st))))
    by (rewrite Z2Nat.id; [reflexivity|lia]).
  apply (for_each_range
           (fun k types => NoDup types ∧ ∀ a, a ∈ types ↔ a ∈ take k (atoms st))).
  - split; [constructor|]. intros a. rewrite take_0. reflexivity.
  - intros k types Hk (Hnd & Hin).
    destruct (lookup_lt_is_Some_2 (atoms st) k ltac:(lia)) as [a Ha].
    rewrite (py_getitem_Ok _ _ a) by (rewrite ?Nat2Z.id; first [lia|exact Ha]). simpl.
    rewrite (take_S_r _ _ _ Ha).
    destruct (bool_decide (a ∈ types)) eqn:Hdec.
    + apply bool_decide_eq_true_1 in Hdec. eexists. split; [reflexivity|].
      split; [exact Hnd|]. intros b. rewrite elem_of_app, list_elem_of_singleton, <- Hin.
      split; [auto|]. intros [?| ->]; assumption.
    + apply bool_decide_eq_false_1 in Hdec. eexists. split; [reflexivity|]. split.
      * apply NoDup_app. split; [exact Hnd|]. split; [|apply NoDup_singleton].
        intros b Hb ->%list_elem_of_singleton. contradiction.
      * intros b. rewrite !elem_of_app, Hin. reflexivity.
Qed.

Lemma save_qe_itau_spec (types : list string) :
  NoDup types →
  ∃ itau, save_qe_itau types = Ok itau
    ∧ ∀ t k, itau !! t = Some k ↔ (1 ≤ k)%Z ∧ types !! Z.to_nat (k - 1) = Some t.
Proof.
  intros Hnd. unfold save_qe_itau.
  destruct (for_each_range
           (fun n (itau : gmap string Z) =>
              ∀ t k, itau !! t = Some k
                     ↔ (1 ≤ k ≤ Z.of_nat n)%Z ∧ types !! Z.to_nat (k - 1) = Some t)
           (fun (itau : gmap string Z) i =>
              do t <- py_getitem types i; Ok (<[t := (i + 1)%Z]> itau))
           (length types) ∅) as (itau & Hitau & Hspec).
  - intros t k. rewrite lookup_empty. split; [discriminate|]. intros [? _]. lia.
  - intros k0 itau Hk0 HP.
    destruct (lookup_lt_is_Some_2 types k0 Hk0) as [t0 Ht0].
    rewrite (py_getitem_Ok _ _ t0) by (rewrite ?Nat2Z.id; first [lia|exact Ht0]). simpl.
    eexists. split; [reflexivity|]. intros t k.
    destruct (decide (t = t0)) as [->|Hne].
    + rewrite lookup_insert_eq. split.
      * intros [= <-]. split; [lia|].
        replace (Z.to_nat (Z.of_nat k0 + 1 - 1)) with k0 by lia. exact Ht0.
      * intros [Hk Hl]. f_equal.
        pose proof (NoDup_lookup _ _ _ _ Hnd Hl Ht0). lia.
    + rewrite lookup_insert_ne by congruence. rewrite HP. split.
      * intros [Hk Hl]. split; [lia|exact Hl].
      * intros [Hk Hl]. split; [|exact Hl].
        destruct (decide (k = Z.of_nat k0 + 1)%Z) as [->|]; [|lia].
        replace (Z.to_nat (Z.of_nat k0 + 1 - 1)) with k0 in Hl by lia. congruence.
  - exists itau. split; [exact Hitau|]. intros t k. rewrite Hspec. split.
    + intros [Hk Hl]. split; [lia|exact Hl].
    + intros [Hk Hl]. split; [|exact Hl].
      apply lookup_lt_Some in Hl. lia.
Qed.

(** X15. On a structure whose atom count does not exceed its list of
    labels, [save_qe] numbers the species so that the file can be read
    back: the species are the labels of the atoms, each once, numbered from
    1 in the order of first appearance, and the number written on the line
    of every atom is the position of its own label in the species lines. *)
Theorem save_qe_species_numbers (st : Structure) :
  (0 ≤ N_atoms st ≤ Z.of_nat (length (atoms st)))%Z →
  ∃ types itau,
    save_qe_types st = Ok types ∧ save_qe_itau types = Ok itau
    ∧ NoDup types
    ∧ (∀ a, a ∈ types ↔ a ∈ take (Z.to_nat (N_atoms st)) (atoms st))
    ∧ ∀ i a, (i < Z.to_nat (N_atoms st))%nat → atoms st !! i = Some a →
        ∃ k, save_qe_species_number st itau (Z.of_nat i) = Ok k
          ∧ (1 ≤ k ≤ Z.of_nat (length types))%Z
          ∧ types !! Z.to_nat (k - 1) = Some a.
Proof.
  intros HN. destruct (save_qe_types_spec st HN) as (types & Htypes & Hnd & Hin).
  destruct (save_qe_itau_spec types Hnd) as (itau & Hitau & Hspec).
  exists types, itau. split; [exact Htypes|]. split; [exact Hitau|]. split; [exact Hnd|].
  split; [exact Hin|]. intros i a Hi Ha.
  assert (Ha' : a ∈ types).
  { apply Hin. apply list_elem_of_lookup_2 with i. rewrite lookup_take_lt by exact Hi. exact Ha. }
  apply list_elem_of_lookup_1 in Ha' as (j & Hj).
  exists (Z.of_nat j + 1)%Z. unfold save_qe_species_number.
  rewrite (py_getitem_Ok _ _ a) by (rewrite ?Nat2Z.id; first [lia|exact Ha]). simpl.
  assert (Hl : itau !! a = Some (Z.of_nat j + 1)%Z).
  { apply Hspec. split; [lia|]. replace (Z.to_nat (Z.of_nat j + 1 - 1)) with j by lia. exact Hj. }
  rewrite Hl. split; [reflexivity|]. apply lookup_lt_Some in Hj as Hj'. split; [lia|].
  replace (Z.to_nat (Z.of_nat j + 1 - 1)) with j by lia. exact Hj.
Qed.

(** X16. The files [save_qe(filename, full_name)] writes are the files
    [LoadFromQE(filename, self.nqirr, full_name)] reads, in the same order,
    unless [full_name] is set on a set of several irreducible q points. *)
Theorem save_qe_filenames_are_read (self : Phonons) (filename : string)
    (full_name : bool) :
  full_name = false ∨ nqirr self = 1%Z →
  save_qe_filenames self filename full_name
  = filepath_of filename full_name <$> py_range (nqirr self).
Proof.
  intros H. unfold save_qe_filenames, filepath_of, PyStr.of_int.
  destruct full_name; simpl.
  - destruct H as [H|H]; [discriminate|]. rewrite H. reflexivity.
  - reflexivity.
Qed.

End Saving.


(** ** Random structures *)

Section RandomStructures.
Context {lib : Library}.
Local Open Scope R_scope.

Lemma np_max_ge (l : list Z) (x : Z) : x ∈ l → (x ≤ np_max l)%Z.
Proof.
  unfold np_max. generalize (hd 0%Z l) as d. intros d Hx.
  induction l as [|a l IH]; [inversion Hx|]. simpl.
  apply elem_of_cons in Hx as [->|Hx]; [lia|]. specialize (IH Hx). lia.
Qed.

(** X17. [ExtractRandomStructures] refuses every set whose count of
    irreducible q points is not 1, and, on a set with a structure, every
    list [isolate_atoms] that holds an index equal to the atom count or
    above (an index below zero passes the test). *)
Theorem ExtractRandomStructures_guards (self : Phonons) (size : Z) (T : R)
    (isolate_atoms : list Z) (normal : nat → nat → Matrix R) :
  (nqirr self ≠ 1%Z →
     ExtractRandomStructures self size T isolate_atoms normal
     = Raise supercells_not_implemented)
  ∧ (∀ st x, nqirr self = 1%Z → structure self = Some st →
       x ∈ isolate_atoms → (N_atoms st ≤ x)%Z →
       ExtractRandomStructures self size T isolate_atoms normal
       = Raise isolate_atoms_out_of_boundary).
Proof.
  split.
  - intros Hq. unfold ExtractRandomStructures.
    destruct (decide (nqirr self ≠ 1%Z)); [reflexivity|contradiction].
  - intros st x Hq Hst Hx Hbig. unfold ExtractRandomStructures.
    destruct (decide (nqirr self ≠ 1%Z)); [contradiction|].
    destruct isolate_atoms as [|y l]; [inversion Hx|]. simpl.
    unfold the_structure. rewrite Hst. simpl.
    pose proof (np_max_ge _ _ Hx) as Hmax.
    destruct (decide (np_max (y :: l) >= N_atoms st)%Z); [reflexivity|lia].
Qed.

Lemma set_row_Ok_inv {A} (M M' : Matrix A) (r : Z) (vals : list A) :
  set_row M r vals = Ok M' →
  ∃ k, py_index (length M) r = Ok k ∧ M' = <[k := vals]> M ∧ is_Some (M !! k).
Proof.
  unfold set_row. intros (k & Hk & H)%bind_Ok_inv.
  destruct (M !! k) as [row|] eqn:Hrow; [|discriminate].
  destruct (Nat.eqb (length row) (length vals)); [|discriminate].
  injection H as <-. exists k. eauto.
Qed.

Lemma displaced_frame (st tmp : Structure) (total_coords : Matrix R) (ncols i : nat) :
  displaced st total_coords ncols i = Ok tmp →
  same_frame st tmp ∧ N_atoms tmp = N_atoms st.
Proof.
  unfold displaced, Structure_copy.
  apply (for_each_invariant (fun s => same_frame st s ∧ N_atoms s = N_atoms st)).
  - repeat split.
  - intros s k s' _ ((Ha & Hm & Hu & Hh & Hc) & HN) H. invert_ok.
    match goal with Hset : set_row _ _ _ = Ok _ |- _ =>
      apply set_row_Ok_inv in Hset as (j & _ & -> & _) end.
    unfold same_frame. simpl. rewrite length_insert. repeat split; assumption.
Qed.

Lemma isolated_frame (isolate_atoms : list Z) (st tmp tmp' : Structure) :
  same_frame st tmp →
  isolated isolate_atoms tmp = Ok tmp' →
  same_frame st tmp'
  ∧ N_atoms tmp' = if Nat.eqb (length isolate_atoms) 0 then N_atoms tmp
                   else Z.of_nat (length isolate_atoms).
Proof.
  intros Hframe. unfold isolated.
  destruct (Nat.eqb (length isolate_atoms) 0); [intros [= <-]; auto|].
  apply (for_each_invariant
           (fun s => same_frame st s ∧ N_atoms s = Z.of_nat (length isolate_atoms))).
  - destruct Hframe as (? & ? & ? & ? & ?). repeat split; assumption.
  - intros s [j x] s' _ ((Ha & Hm & Hu & Hh & Hc) & HN) H. invert_ok.
    match goal with Hset : set_row _ _ _ = Ok _ |- _ =>
      apply set_row_Ok_inv in Hset as (k & _ & -> & _) end.
    unfold same_frame. simpl. rewrite length_insert. repeat split; assumption.
Qed.

Lemma ExtractRandomStructures_Ok_inv (self : Phonons) (size : Z) (T : R)
    (isolate_atoms : list Z) (normal : nat → nat → Matrix R) (out : list Structure) :
  ExtractRandomStructures self size T isolate_atoms normal = Ok out →
  ∃ ws pol_vects st total_coords,
    DyagDinQ self 0 = Ok (ws, pol_vects) ∧ structure self = Some st
    ∧ einsum_ij_j_kj ((fun row : list C => Re <$> row) <$> drop_columns 3 pol_vects)
        (if Reqb T 0 then (fun w => 1 / sqrt (2 * w) * BOHR_TO_ANG) <$> drop 3 ws
         else (fun w => 1 / sqrt (tanh (1 / (K_to_Ry * T) * w / 2) * 2 * w) * BOHR_TO_ANG)
                <$> drop 3 ws)
        (normal (Z.to_nat size) (length (drop 3 ws))) = Ok total_coords
    ∧ mapM (M := Result)
        (fun i => do tmp_str <- displaced st total_coords
                                  (length (normal (Z.to_nat size) (length (drop 3 ws)))) i;
                  isolated isolate_atoms tmp_str)
        (seq 0 (Z.to_nat size)) = Ok out.
Proof.
  unfold ExtractRandomStructures. destruct (decide (nqirr self ≠ 1%Z)); [discriminate|].
  intros H. apply bind_Ok_inv in H as (u & _ & H).
  apply bind_Ok_inv in H as ([ws pol_vects] & Hd & H).
  apply bind_Ok_inv in H as (st & Hst & H).
  apply bind_Ok_inv in H as (z & _ & H).
  apply bind_Ok_inv in H as (mass1 & _ & H).
  apply bind_Ok_inv in H as (tc & Htc & H).
  exists ws, pol_vects, st, tc. split; [exact Hd|]. split; [|split; assumption].
  unfold the_structure in Hst. destruct (structure self); congruence.
Qed.

(** X18. When [ExtractRandomStructures] returns, it returns [size]
    structures, each with the labels, the masses, the cell and the number of
    coordinate rows of the structure of the set; with [isolate_atoms] the
    atom count of each is the number of indices given, while the labels and
    the rows beyond are not removed. *)
Theorem ExtractRandomStructures_output (self : Phonons) (st : Structure) (size : Z) (T : R)
    (isolate_atoms : list Z) (normal : nat → nat → Matrix R) (out : list Structure) :
  structure self = Some st →
  ExtractRandomStructures self size T isolate_atoms normal = Ok out →
  length out = Z.to_nat size
  ∧ ∀ s, s ∈ out →
      atoms s = atoms st ∧ masses s = masses st ∧ unit_cell s = unit_cell st
      ∧ length (coords s) = length (coords st)
      ∧ N_atoms s = if Nat.eqb (length isolate_atoms) 0 then N_atoms st
                    else Z.of_nat (length isolate_atoms).
Proof.
  intros Hst (ws & pol_vects & st' & tc & _ & Hst' & _ & Hout)%ExtractRandomStructures_Ok_inv.
  assert (st' = st) as -> by congruence.
  apply mapM_Ok_inv in Hout. split.
  - rewrite <- (Forall2_length _ _ _ Hout), length_seq. reflexivity.
  - intros s Hs. apply list_elem_of_lookup_1 in Hs as (j & Hj).
    destruct (Forall2_lookup_r _ _ _ _ _ Hout Hj) as (i & _ & Hi).
    apply bind_Ok_inv in Hi as (tmp & Htmp & Hiso).
    destruct (displaced_frame _ _ _ _ _ Htmp) as [Hframe HN].
    destruct (isolated_frame _ st _ _ Hframe Hiso) as [(Ha & Hm & Hu & _ & Hc) HN'].
    rewrite HN in HN'. auto.
Qed.

Lemma dot3_zero_r (a p r : list R) : (∀ x, x ∈ r → x = 0) → dot3 a p r = 0.
Proof.
  revert p r. induction a as [|c a IH]; intros [|y p] [|z r] Hz; simpl; try reflexivity.
  rewrite (Hz z) by left. rewrite IH; [ring|]. intros x Hx. apply Hz. right. exact Hx.
Qed.

Lemma lookup_total_zero (row : list R) (i : nat) : (∀ x, x ∈ row → x = 0) → row !!! i = 0.
Proof.
  intros Hz. rewrite list_lookup_total_alt. destruct (row !! i) as [x|] eqn:Hx; simpl.
  - apply Hz. eapply list_elem_of_lookup_2, Hx.
  - reflexivity.
Qed.

Lemma iadd_broadcast_zero (row v row' : list R) :
  (∀ x, x ∈ v → x = 0) → iadd_broadcast row v = Ok row' → row' = row.
Proof.
  intros Hz. unfold iadd_broadcast.
  destruct (Nat.eqb (length v) (length row)) eqn:Hlen.
  - intros [= <-]. apply Nat.eqb_eq in Hlen. clear -Hz Hlen.
    revert v Hz Hlen. induction row as [|r row IH]; intros [|x v] Hz Hlen; simpl in *;
      try reflexivity; try discriminate.
    rewrite (Hz x) by left. rewrite (IH v); [f_equal; ring| |lia].
    intros y Hy. apply Hz. right. exact Hy.
  - destruct v as [|x [|y v]]; try discriminate. intros [= <-].
    rewrite (Hz x) by left. apply fmap_id_on. intros r _. ring.
Qed.

Lemma with_coords_same (s : Structure) : with_coords (coords s) s = s.
Proof. destruct s. reflexivity. Qed.

(** With a draw of zeros no atom moves. *)
Lemma displaced_zero (st tmp : Structure) (total_coords : Matrix R) (ncols i : nat) :
  (∀ row x, row ∈ total_coords → x ∈ row → x = 0) →
  displaced st total_coords ncols i = Ok tmp → tmp = st.
Proof.
  intros Hz. unfold displaced, Structure_copy.
  apply (for_each_invariant (fun s => s = st)); [reflexivity|].
  intros s k s' _ -> H.
  apply bind_Ok_inv in H as (row & Hrow & H).
  apply bind_Ok_inv in H as (slice & Hslice & H).
  apply bind_Ok_inv in H as (label & _ & H).
  apply bind_Ok_inv in H as (m & _ & H).
  apply bind_Ok_inv in H as (row' & Hadd & H).
  apply bind_Ok_inv in H as (coords' & Hset & [= <-]).
  assert (row' = row) as ->.
  { refine (iadd_broadcast_zero _ _ _ _ Hadd). intros x Hx.
    apply list_elem_of_fmap in Hx as (y & -> & Hy).
    assert (y = 0) as ->; [|unfold Rdiv; ring].
    unfold mode_slice in Hslice. destruct (Nat.ltb i ncols); [|discriminate].
    injection Hslice as <-. apply list_elem_of_fmap in Hy as (r & -> & Hr).
    apply lookup_total_zero. intros z Hzr. apply (Hz r z); [|exact Hzr].
    apply elem_of_take_inv in Hr. apply elem_of_drop_inv in Hr. exact Hr. }
  apply py_getitem_Ok_inv in Hrow as (j & Hj & Hlook).
  apply set_row_Ok_inv in Hset as (j' & Hj' & -> & _).
  assert (j' = j) as -> by congruence.
  rewrite list_insert_id by exact Hlook. apply with_coords_same.
Qed.

(** X19. The displacement is carried by the random numbers alone: where
    the amplitudes are defined (a temperature that is not negative, positive
    masses, positive frequencies after the first three, which are left
    out), with a draw of zeros and no [isolate_atoms], every structure
    returned is the structure of the set. *)
Theorem ExtractRandomStructures_zero_draw (self : Phonons) (st : Structure) (size : Z)
    (T : R) (normal : nat → nat → Matrix R) (w : list R) (pols : Matrix C)
    (out : list Structure) :
  0 <= T →
  structure self = Some st →
  (∀ label m, masses st !! label = Some m → 0 < m) →
  DyagDinQ self 0 = Ok (w, pols) → (∀ x, x ∈ drop 3 w → 0 < x) →
  (∀ a b row x, row ∈ normal a b → x ∈ row → x = 0) →
  ExtractRandomStructures self size T [] normal = Ok out →
  out = replicate (Z.to_nat size) st.
Proof.
  intros _ Hst _ _ _ Hzero
    (ws & pol_vects & st' & tc & _ & Hst' & Htc & Hout)%ExtractRandomStructures_Ok_inv.
  assert (st' = st) as -> by congruence.
  assert (Hz : ∀ row x, row ∈ tc → x ∈ row → x = 0).
  { unfold einsum_ij_j_kj in Htc.
    destruct (has_cols _ _ && has_cols _ _); [|discriminate]. injection Htc as <-.
    intros row x Hrow Hx. apply list_elem_of_fmap in Hrow as (p & -> & _).
    apply list_elem_of_fmap in Hx as (r & -> & Hr). apply dot3_zero_r.
    intros z Hzr. apply (Hzero _ _ r z Hr Hzr). }
  apply mapM_Ok_inv in Hout.
  apply list_eq_same_length with (Z.to_nat size).
  - apply length_replicate.
  - rewrite <- (Forall2_length _ _ _ Hout), length_seq. reflexivity.
  - intros j s s' Hj Hs Hs'. apply lookup_replicate in Hs' as [-> _].
    destruct (Forall2_lookup_r _ _ _ _ _ Hout Hs) as (i & _ & Hi).
    apply bind_Ok_inv in Hi as (tmp & Htmp & Hiso).
    apply (displaced_zero _ _ _ _ _ Hz) in Htmp as ->.
    unfold isolated in Hiso. simpl in Hiso. congruence.
Qed.

End RandomStructures.


(** ** Energy, forces and the ratio of probabilities *)

Section Displacements.
Context {lib : Library}.
Local Open Scope R_scope.
Variable get_displacement : Structure → option Structure → Result (Matrix R).

(** X20. The weight of a structure against the set that generated it,
    at the same temperature, is 1 whenever its probability density is not
    zero. *)
Theorem GetRatioProbability_same_set (self : Phonons) (struct : Structure) (T p : R)
    (disp : Matrix R) :
  get_displacement struct (structure self) = Ok disp →
  GetProbability self (Disp2 disp) T None true = Ok p → p ≠ 0 →
  GetRatioProbability get_displacement self struct T self T = Ok 1.
Proof.
  intros Hd Hp Hne. unfold GetRatioProbability. rewrite Hd. simpl. rewrite Hp. simpl.
  f_equal. field. exact Hne.
Qed.

Lemma Csum_scale_real (v row : list R) :
  Csum (zip_with Cscale v (RtoC <$> row)) = RtoC (dot v row).
Proof.
  revert row. induction v as [|x v IH]; intros [|y row]; csimpl; try reflexivity.
  rewrite IH. unfold Cadd, Cscale, RtoC. simpl. f_equal; ring.
Qed.

Lemma Csum_scale_zeros (v : list R) (row : list C) :
  (∀ x, x ∈ v → x = 0) → Csum (zip_with Cscale v row) = C0.
Proof.
  revert row. induction v as [|x v IH]; intros [|z row] Hz; simpl; try reflexivity.
  rewrite IH by (intros y Hy; apply Hz; right; exact Hy).
  rewrite (Hz x) by left. unfold Cadd, Cscale, C0. simpl. f_equal; ring.
Qed.

Lemma get_energy_forces_Ok_inv (self : Phonons) (struct : Structure) (vector1d : bool)
    (e : C) (f : Forces) :
  get_energy_forces get_displacement self struct vector1d = Ok (e, f) →
  ∃ disp rv0 dyn Frv e0,
    get_displacement struct (structure self) = Ok disp
    ∧ reshape_to disp (N_atoms struct * 3) = Ok rv0
    ∧ py_getitem (dynmats self) 0 = Ok dyn
    ∧ dot_matrix_vector dyn ((fun x => x * A_TO_BOHR) <$> rv0) = Ok Frv
    ∧ dot_vector ((fun x => x * A_TO_BOHR) <$> rv0) Frv = Ok e0
    ∧ e = Cscale 0.5 e0
    ∧ (∀ z, z ∈ force_entries f → z ∈ Cscale A_TO_BOHR <$> Frv).
Proof.
  unfold get_energy_forces. intros H.
  apply bind_Ok_inv in H as (disp & Hdisp & H).
  apply bind_Ok_inv in H as (rv0 & Hrv & H).
  apply bind_Ok_inv in H as (dyn & Hdyn & H).
  apply bind_Ok_inv in H as (Frv & HF & H).
  apply bind_Ok_inv in H as (e0 & He & H).
  exists disp, rv0, dyn, Frv, e0. repeat (split; [assumption|]).
  destruct vector1d; simpl in H.
  - injection H as <- <-. split; [reflexivity|]. intros z Hz. exact Hz.
  - apply bind_Ok_inv in H as (st & _ & H).
    apply bind_Ok_inv in H as (rows & Hrows & [= <- <-]). split; [reflexivity|].
    intros z Hz. simpl in Hz. unfold reshape_rows3 in Hrows.
    destruct (decide (N_atoms st < 0)%Z); [discriminate|].
    destruct (Nat.eqb _ _); [|discriminate]. injection Hrows as <-.
    apply elem_of_concat in Hz as (row & Hz & Hrow).
    apply list_elem_of_fmap in Hrow as (k & -> & _).
    apply elem_of_take_inv in Hz. apply elem_of_drop_inv in Hz. exact Hz.
Qed.

(** X21. At a structure that is not displaced from the reference (every
    entry of the displacement is zero), whenever [get_energy_forces]
    returns, the energy is 0 and every force is 0, with both shapes of the
    forces. *)
Theorem get_energy_forces_at_rest (self : Phonons) (struct : Structure) (vector1d : bool)
    (disp : Matrix R) (e : C) (f : Forces) :
  get_displacement struct (structure self) = Ok disp →
  (∀ row x, row ∈ disp → x ∈ row → x = 0) →
  get_energy_forces get_displacement self struct vector1d = Ok (e, f) →
  e = C0 ∧ ∀ z, z ∈ force_entries f → z = C0.
Proof.
  intros Hd Hzero (disp' & rv0 & dyn & Frv & e0 & Hd' & Hrv & _ & HF & He & -> & Hf)%get_energy_forces_Ok_inv.
  assert (disp' = disp) as -> by congruence.
  assert (Hrvz : ∀ x, x ∈ (fun x => x * A_TO_BOHR) <$> rv0 → x = 0).
  { intros x Hx. apply list_elem_of_fmap in Hx as (y & -> & Hy).
    assert (y = 0) as ->; [|ring].
    unfold reshape_to in Hrv. destruct (decide (N_atoms struct * 3 < 0)%Z); [discriminate|].
    unfold reshape_flat in Hrv. destruct (Nat.eqb _ _); [|discriminate]. injection Hrv as <-.
    apply elem_of_concat in Hy as (row & Hy & Hrow). apply (Hzero row y Hrow Hy). }
  assert (HFz : ∀ z, z ∈ Frv → z = C0).
  { unfold dot_matrix_vector in HF. destruct (has_cols _ dyn); [|discriminate].
    injection HF as <-. intros z Hz. apply list_elem_of_fmap in Hz as (row & -> & _).
    apply Csum_scale_zeros, Hrvz. }
  split.
  - unfold dot_vector in He. destruct (Nat.eqb _ _); [|discriminate]. injection He as <-.
    rewrite (Csum_scale_zeros _ _ Hrvz). unfold Cscale, C0. simpl. f_equal; ring.
  - intros z Hz. apply Hf in Hz. apply list_elem_of_fmap in Hz as (y & -> & Hy).
    rewrite (HFz y Hy). unfold Cscale, C0. simpl. f_equal; ring.
Qed.

(** X22. When the first stored matrix is real and
    positive-semidefinite, the energy [get_energy_forces] returns is real and
    not negative, for every displacement. *)
Theorem get_energy_forces_energy_nonneg (self : Phonons) (struct : Structure)
    (vector1d : bool) (U : Matrix R) (e : C) (f : Forces) :
  dynmats self !! 0%nat = Some (to_complex U) → positive_semidefinite U →
  get_energy_forces get_displacement self struct vector1d = Ok (e, f) →
  0 <= Re e ∧ Im e = 0.
Proof.
  intros HU Hpsd (disp & rv0 & dyn & Frv & e0 & _ & _ & Hdyn & HF & He & -> & _)%get_energy_forces_Ok_inv.
  set (rv := (fun x => x * A_TO_BOHR) <$> rv0) in *.
  assert (dyn = to_complex U) as ->.
  { pose proof (py_getitem_Ok (dynmats self) 0 (to_complex U) ltac:(lia) HU). congruence. }
  unfold dot_matrix_vector in HF. destruct (has_cols _ _); [|discriminate].
  injection HF as <-. unfold dot_vector in He.
  destruct (Nat.eqb _ _) eqn:Hlen; [|discriminate]. injection He as <-.
  apply Nat.eqb_eq in Hlen. unfold to_complex in *. rewrite !length_fmap in Hlen.
  rewrite <- list_fmap_compose.
  rewrite (list_fmap_ext _ (fun row => RtoC (dot row rv)) U)
    by (intros i row _; simpl; rewrite Csum_scale_real; f_equal; apply dot_comm).
  rewrite (list_fmap_compose (fun row => dot row rv) RtoC), Csum_scale_real.
  fold (quadratic_form rv U rv). pose proof (Hpsd rv Hlen) as Hq.
  unfold Cscale, RtoC. simpl. split; [lra|ring].
Qed.

End Displacements.


(** ** The constructor on other arguments *)

Section Construction.
Context {lib : Library}.


End Construction.


Section WellFormed.
Context {lib : Library}.
Local Open Scope R_scope.

(** Every label of the species table has a mass. *)
Lemma read_species_covers (dynlines : list string) (ntyp : Z)
    (atoms_dict : gmap Z string) (masses_dict : gmap string R) :
  read_species dynlines ntyp = Ok (atoms_dict, masses_dict) →
  ∀ k label, atoms_dict !! k = Some label → is_Some (masses_dict !! label).
Proof.
  unfold read_species.
  intros H. 
  refine (for_each_invariant
            (fun d : gmap Z string * gmap string R =>
               ∀ k label, d.1 !! k = Some label → is_Some (d.2 !! label))
            _ _ _ (atoms_dict, masses_dict) _ _ H).
  - intros k label. simpl. rewrite lookup_empty. discriminate.
  - intros [ad md] i [ad' md'] _ Hinv Hbody. simpl in Hinv, Hbody.
    apply bind_Ok_inv in Hbody as (atm_line & _ & Hbody).
    apply bind_Ok_inv in Hbody as (label0 & _ & Hbody).
    apply bind_Ok_inv in Hbody as (mass_str & _ & Hbody).
    apply bind_Ok_inv in Hbody as (mass & _ & Hbody).
    injection Hbody as <- <-. simpl.
    intros k label Hk. destruct (decide (k = i)) as [->|Hne].
    + rewrite lookup_insert_eq in Hk. injection Hk as <-. rewrite lookup_insert_eq. eauto.
    + rewrite lookup_insert_ne in Hk by congruence.
      destruct (decide (PyStr.strip label0 = label)) as [->|Hl].
      * rewrite lookup_insert_eq. eauto.
      * rewrite lookup_insert_ne by congruence. apply (Hinv k label Hk).
Qed.

Lemma has_cols_Forall {A} (m : nat) (M : Matrix A) :
  has_cols m M = true ↔ Forall (fun row => length row = m) M.
Proof.
  unfold has_cols. rewrite forallb_forall, Forall_forall. split.
  - intros H row Hrow. apply Nat.eqb_eq, H, list_elem_of_In, Hrow.
  - intros H row Hrow. apply Nat.eqb_eq, H, list_elem_of_In, Hrow.
Qed.

Lemma has_shape_spec {A} (n m : nat) (M : Matrix A) :
  has_shape n m M = true ↔ length M = n ∧ Forall (fun row => length row = m) M.
Proof.
  unfold has_shape. rewrite andb_true_iff, Nat.eqb_eq, has_cols_Forall. reflexivity.
Qed.

Lemma np_zeros2_shape {A} (z : A) (n m : Z) (M : Matrix A) :
  np_zeros2 z n m = Ok M →
  (0 ≤ n)%Z ∧ (0 ≤ m)%Z ∧ has_shape (Z.to_nat n) (Z.to_nat m) M = true.
Proof.
  unfold np_zeros2. destruct (decide _) as [|Hn]; [discriminate|]. intros [= <-].
  split; [lia|]. split; [lia|]. apply has_shape_spec. rewrite length_replicate.
  split; [reflexivity|]. apply Forall_replicate, length_replicate.
Qed.

Lemma set_row_shape {A} (n m : nat) (M M' : Matrix A) (r : Z) (vals : list A) :
  set_row M r vals = Ok M' → has_shape n m M = true → has_shape n m M' = true.
Proof.
  unfold set_row. intros (k & Hk & H)%bind_Ok_inv.
  destruct (M !! k) as [row|] eqn:Hrow; [|discriminate].
  destruct (Nat.eqb (length row) (length vals)) eqn:Hlen; [|discriminate].
  injection H as <-. apply Nat.eqb_eq in Hlen.
  rewrite !has_shape_spec, length_insert. intros [Hn Hall]. split; [exact Hn|].
  apply Forall_insert; [exact Hall|].
  rewrite <- Hlen. apply (proj1 (Forall_lookup _ _) Hall k row Hrow).
Qed.

Lemma set_entry_shape {A} (n m : nat) (M M' : Matrix A) (r c : Z) (x : A) :
  set_entry M r c x = Ok M' → has_shape n m M = true → has_shape n m M' = true.
Proof.
  unfold set_entry. intros (k & Hk & H)%bind_Ok_inv.
  destruct (M !! k) as [row|] eqn:Hrow; [|discriminate].
  apply bind_Ok_inv in H as (j & _ & [= <-]).
  rewrite !has_shape_spec, length_insert. intros [Hn Hall]. split; [exact Hn|].
  apply Forall_insert; [exact Hall|].
  rewrite length_insert. apply (proj1 (Forall_lookup _ _) Hall k row Hrow).
Qed.


(** The loop over the atoms: one label per atom, each from the table. *)
Lemma read_atoms_Ok (dynlines : list string) (atoms_dict : gmap Z string)
    (nat ntyp : Z) (alat : R) (st st' : Structure) :
  read_atoms dynlines atoms_dict nat ntyp alat st = Ok st' →
  N_atoms st' = N_atoms st ∧ masses st' = masses st
  ∧ (∀ n m, has_shape n m (coords st) = true → has_shape n m (coords st') = true)
  ∧ ∃ labels, atoms st' = atoms st ++ labels ∧ length labels = Z.to_nat nat
      ∧ ∀ l, l ∈ labels → ∃ k, atoms_dict !! k = Some l.
Proof.
  unfold read_atoms. intros H.
  pose (P := fun (k : Datatypes.nat) (s : Structure) =>
    N_atoms s = N_atoms st ∧ masses s = masses st
    ∧ (∀ n m, has_shape n m (coords st) = true → has_shape n m (coords s) = true)
    ∧ ∃ labels, atoms s = atoms st ++ labels ∧ length labels = k
        ∧ ∀ l, l ∈ labels → ∃ j, atoms_dict !! j = Some l).
  assert (HP : P (length (py_range nat)) st').
  { refine (for_each_counting P _ _ _ _ _ _ H).
    - repeat split; [auto|]. exists []. rewrite app_nil_r. repeat split.
      intros l Hl. inversion Hl.
    - intros k s i s' (HN & Hm & Hc & labels & Ha & Hlen & Hl) Hbody.
      apply bind_Ok_inv in Hbody as (line & _ & Hbody).
      apply bind_Ok_inv in Hbody as (atom_info & _ & Hbody).
      apply bind_Ok_inv in Hbody as (species & _ & Hbody).
      apply bind_Ok_inv in Hbody as (label & Hlabel & Hbody).
      apply bind_Ok_inv in Hbody as (row & _ & Hbody).
      apply bind_Ok_inv in Hbody as (coords' & Hset & [= <-]).
      split; [exact HN|]. split; [exact Hm|]. split.
      { intros n m Hnm. apply (set_row_shape n m _ _ _ _ Hset), Hc, Hnm. }
      exists (labels ++ [label]).
      change (atoms s ++ [label] = atoms st ++ labels ++ [label]
              ∧ length (labels ++ [label]) = S k
              ∧ ∀ l, l ∈ labels ++ [label] → ∃ j, atoms_dict !! j = Some l).
      rewrite Ha, app_assoc, length_app. simpl.
      split; [reflexivity|]. split; [lia|].
      intros l [Hin| ->%list_elem_of_singleton]%elem_of_app; [apply Hl, Hin|].
      destruct (atoms_dict !! int_of_float species) as [l0|] eqn:Hl0; [|discriminate].
      injection Hlabel as <-. eauto. }
  unfold py_range in HP. rewrite length_fmap, length_seq in HP. exact HP.
Qed.

(** The header of the first file, read into a structure without atoms,
    leaves a well formed structure. *)
Lemma read_structure_well_formed (self self' : Phonons) (st0 : Structure)
    (dynlines dynlines' : list string) :
  structure self = Some st0 → atoms st0 = [] →
  read_structure self dynlines = Ok (self', dynlines') →
  ∃ st, structure self' = Some st ∧ well_formed st ∧ has_unit_cell st = true.
Proof.
  intros Hst0 Hatoms. unfold read_structure, the_structure. intros H.
  apply bind_Ok_inv in H as (line2 & _ & H).
  apply bind_Ok_inv in H as (ibrav & _ & H).
  apply bind_Ok_inv in H as (celldm & _ & H).
  apply bind_Ok_inv in H as (nat & _ & H).
  apply bind_Ok_inv in H as (ntyp & _ & H).
  apply bind_Ok_inv in H as (celldm1 & _ & H).
  apply bind_Ok_inv in H as (st & Hst & H).
  apply bind_Ok_inv in H as (coords0 & Hzeros & H).
  apply bind_Ok_inv in H as ([cell lines1] & _ & H).
  apply bind_Ok_inv in H as ([atoms_dict masses_dict] & Hspecies & H).
  apply bind_Ok_inv in H as (st1 & Hatm & [= <- <-]).
  cbn [structure set_alat] in Hst. rewrite Hst0 in Hst. injection Hst as <-.
  apply np_zeros2_shape in Hzeros as (Hnat & _ & Hshape).
  destruct (read_atoms_Ok _ _ _ _ _ _ _ Hatm) as (HN & Hm & Hc & labels & Ha & Hlen & Hl).
  cbn in HN, Hm, Hc, Ha. rewrite Hatoms in Ha. cbn in Ha.
  exists st1. split; [reflexivity|]. split.
  - unfold well_formed, masses_cover. rewrite HN, Ha, Hm.
    split; [exact Hnat|]. split; [exact Hlen|]. split; [apply Hc, Hshape|].
    intros a Ha'. destruct (Hl a Ha') as (k & Hk).
    apply (read_species_covers _ _ _ _ Hspecies k a Hk).
  - unfold read_atoms in Hatm.
    refine (for_each_invariant (fun s => has_unit_cell s = true) _ _ _ _ _ _ Hatm);
      [reflexivity|].
    intros s i s' _ Hs Hbody. invert_ok. exact Hs.
Qed.


Lemma scan_numbers_shape (n m : nat) (sc sc' : Scan) (toks : list string) :
  scan_numbers sc toks = Ok sc' →
  has_shape n m (current_dyn sc) = true → has_shape n m (current_dyn sc') = true.
Proof.
  unfold scan_numbers. intros H Hshape.
  destruct (reading_dielectric sc); [invert_ok; exact Hshape|].
  destruct (reading_eff_charges sc); [invert_ok; exact Hshape|].
  destruct (reading_raman sc); [invert_ok; exact Hshape|].
  destruct (Nat.eqb (length toks) 2); [invert_ok; exact Hshape|].
  destruct (Nat.eqb (length toks) 6); [|injection H as <-; exact Hshape].
  apply bind_Ok_inv in H as (dyn & Hdyn & [= <-]). cbn [current_dyn].
  refine (for_each_invariant (fun D => has_shape n m D = true) _ _ _ _ Hshape _ Hdyn).
  intros D k D' _ HD Hbody.
  apply bind_Ok_inv in Hbody as (re & _ & Hbody).
  apply bind_Ok_inv in Hbody as (im & _ & Hbody).
  apply (set_entry_shape n m _ _ _ _ _ Hbody HD).
Qed.

(** The second loop of a file stores at least one matrix, and every matrix
    it stores has the shape of the array it fills. *)
Lemma scan_lines_shapes (n m : nat) (lines : list string) (sc sc' : Scan) :
  scan_lines lines sc = Ok sc' →
  has_shape n m (current_dyn sc) = true →
  ∃ more, dynmats (sc_self sc') = dynmats (sc_self sc) ++ more
    ∧ (1 ≤ length more)%nat ∧ ∀ D, D ∈ more → has_shape n m D = true.
Proof.
  revert sc. induction lines as [|line rest IH]; intros sc; simpl; [discriminate|].
  intros H Hshape.
  destruct (PyStr.contains "Diagonalizing" line).
  { injection H as <-. exists [current_dyn sc]. simpl. split; [reflexivity|].
    split; [lia|]. intros D ->%list_elem_of_singleton. exact Hshape. }
  assert (Hstep : ∀ sc1, dynmats (sc_self sc1) = dynmats (sc_self sc) →
            current_dyn sc1 = current_dyn sc → scan_lines rest sc1 = Ok sc' →
            ∃ more, dynmats (sc_self sc') = dynmats (sc_self sc) ++ more
              ∧ (1 ≤ length more)%nat ∧ ∀ D, D ∈ more → has_shape n m D = true).
  { intros sc1 Hd Hc Hscan. rewrite <- Hd. apply (IH sc1 Hscan). rewrite Hc. exact Hshape. }
  destruct (PyStr.contains "Dielectric" line).
  { eapply Hstep; [| |exact H]; reflexivity. }
  destruct (PyStr.contains "Effective" line).
  { invert_ok. eapply Hstep; [| |exact H]; reflexivity. }
  destruct (PyStr.contains "Raman" line).
  { invert_ok. eapply Hstep; [| |exact H]; reflexivity. }
  destruct (PyStr.contains "q = " line).
  { invert_ok. eapply Hstep; [| |exact H]; reflexivity. }
  destruct (PyStr.contains "ynamical" line).
  { destruct (IH _ H Hshape) as (more & Hd & Hlen & Hall). cbn in Hd.
    exists (current_dyn sc :: more). rewrite Hd, <- app_assoc. split; [reflexivity|].
    split; [simpl; lia|].
    intros D [->|HD]%elem_of_cons; [exact Hshape|apply Hall, HD]. }
  destruct (PyStr.split line) as [|tok toks] eqn:Htoks.
  { apply (IH sc H Hshape). }
  apply bind_Ok_inv in H as (sc1 & Hnum & H).
  destruct (scan_numbers_keeps _ _ _ Hnum) as [(_ & _ & _ & _ & Hd) _].
  rewrite <- Hd. apply (IH sc1 H). apply (scan_numbers_shape n m _ _ _ Hnum Hshape).
Qed.

(** One file read without error: the structure it leaves, and the
    matrices it stores. *)
Lemma load_file_shapes (fs : Files) (fildyn_prefix : string) (full_name : bool)
    (self self' : Phonons) (iq : Z) :
  load_file fs fildyn_prefix full_name self iq = Ok self' →
  ∃ st more, structure self' = Some st
    ∧ (iq ≠ 0%Z → structure self = Some st)
    ∧ (iq = 0%Z → ∀ st0, structure self = Some st0 → atoms st0 = [] →
         well_formed st ∧ has_unit_cell st = true)
    ∧ dynmats self' = dynmats self ++ more ∧ (1 ≤ length more)%nat
    ∧ ∀ D, D ∈ more →
        has_shape (Z.to_nat (3 * N_atoms st)) (Z.to_nat (3 * N_atoms st)) D = true.
Proof.
  unfold load_file.
  destruct (fs !! filepath_of fildyn_prefix full_name iq) as [lines|]; [|discriminate].
  intros H. apply bind_Ok_inv in H as ([self1 lines1] & Hhead & H).
  apply bind_Ok_inv in H as (rest & _ & H).
  apply bind_Ok_inv in H as (st & Hst & H).
  apply bind_Ok_inv in H as (zeros & Hzeros & H).
  apply bind_Ok_inv in H as (sc & Hscan & [= <-]).
  apply np_zeros2_shape in Hzeros as (_ & _ & Hshape).
  destruct (scan_lines_shapes _ _ _ _ _ Hscan Hshape) as (more & Hd & Hlen & Hall).
  destruct (scan_lines_appends _ _ _ Hscan) as (_ & Hs & _).
  cbn in Hd, Hs. unfold the_structure in Hst.
  destruct (structure self1) as [st1|] eqn:Hst1; [|discriminate]. injection Hst as ->.
  exists st, more. cbn. split; [exact Hs|].
  destruct (decide (iq = 0%Z)) as [->|Hiq].
  - split; [intros Hne; contradiction|]. split.
    + intros _ st0 Hst0 Hatoms.
      destruct (read_structure_well_formed _ _ _ _ _ Hst0 Hatoms Hhead) as (st' & Hst' & Hwf).
      rewrite Hst1 in Hst'. injection Hst' as <-. exact Hwf.
    + destruct (read_structure_keeps _ _ _ _ Hhead) as (_ & _ & _ & Hd1 & _).
      rewrite Hd, Hd1. auto.
  - injection Hhead as <- <-. split; [intros _; exact Hst1|].
    split; [intros Hz; contradiction|]. auto.
Qed.

(** What a successful [LoadFromQE] leaves: a well formed structure and, per
    file, at least one matrix of the shape the structure asks for. *)
Lemma LoadFromQE_loaded (fs : Files) (self self' : Phonons) (fildyn_prefix : string)
    (nqirr0 : Z) (full_name : bool) :
  LoadFromQE fs self fildyn_prefix nqirr0 full_name = Ok self' →
  ∃ st more, structure self' = Some st ∧ well_formed st ∧ has_unit_cell st = true
    ∧ dynmats self' = dynmats self ++ more ∧ (Z.to_nat nqirr0 ≤ length more)%nat
    ∧ ∀ D, D ∈ more →
        has_shape (Z.to_nat (3 * N_atoms st)) (Z.to_nat (3 * N_atoms st)) D = true.
Proof.
  unfold LoadFromQE. destruct (decide (nqirr0 ≤ 0)%Z) as [|Hpos]; [discriminate|].
  destruct (full_name && bool_decide (nqirr0 > 1)%Z); [discriminate|].
  intros (s & Hloop & [= <-])%bind_Ok_inv.
  unfold py_range in Hloop. rewrite for_each_fmap in Hloop.
  pose (P := fun (k : nat) (s : Phonons) =>
    match k with
    | O => s = set_structure (Some Structure_new) self
    | S _ => ∃ st more, structure s = Some st ∧ well_formed st ∧ has_unit_cell st = true
        ∧ dynmats s = dynmats self ++ more ∧ (k ≤ length more)%nat
        ∧ ∀ D, D ∈ more →
            has_shape (Z.to_nat (3 * N_atoms st)) (Z.to_nat (3 * N_atoms st)) D = true
    end).
  assert (HP : P (0 + Z.to_nat nqirr0)%nat s).
  { refine (for_each_seq_invariant P _ 0 _ _ _ _ _ Hloop); [reflexivity|].
    intros k s0 s1 _ HP0 Hfile.
    destruct (load_file_shapes _ _ _ _ _ _ Hfile) as (st & more & Hst & Hold & Hnew & Hd & Hlen & Hall).
    destruct k as [|k]; cbn [P] in HP0 |- *.
    - subst s0. destruct (Hnew eq_refl Structure_new eq_refl eq_refl) as [Hwf Hcell].
      exists st, more. cbn in Hd. repeat (split; [assumption|]). exact Hall.
    - destruct HP0 as (st0 & more0 & Hst0 & Hwf & Hcell & Hd0 & Hlen0 & Hall0).
      assert (Hsame : Some st0 = Some st) by (rewrite <- Hst0; apply Hold; lia).
      injection Hsame as ->.
      exists st, (more0 ++ more). rewrite Hd, Hd0, app_assoc, length_app.
      split; [exact Hst|]. split; [exact Hwf|]. split; [exact Hcell|].
      split; [reflexivity|]. split; [lia|].
      intros D [HD|HD]%elem_of_app; [apply Hall0, HD|apply Hall, HD]. }
  destruct (Z.to_nat nqirr0) as [|k] eqn:Hk; [lia|]. cbn [P Nat.add] in HP.
  destruct HP as (st & more & Hst & Hwf & Hcell & Hd & Hlen & Hall).
  exists st, more. cbn. repeat (split; [assumption|]). exact Hall.
Qed.

(** X24. A set loaded by [LoadFromQE] has a well formed structure, whatever
    the object held before: the atom count is not negative and equals the
    number of atom labels and of coordinate rows, every coordinate row has
    three entries, every atom label has a mass in the mass table, and the
    unit cell is marked as present. *)
Theorem LoadFromQE_well_formed (fs : Files) (self self' : Phonons) (fildyn_prefix : string)
    (nqirr0 : Z) (full_name : bool) :
  LoadFromQE fs self fildyn_prefix nqirr0 full_name = Ok self' →
  ∃ st, structure self' = Some st ∧ well_formed st ∧ has_unit_cell st = true.
Proof.
  intros H. destruct (LoadFromQE_loaded _ _ _ _ _ _ H) as (st & more & Hst & Hwf & Hcell & _).
  exists st. auto.
Qed.

(** X25. [LoadFromQE] stores at least one matrix per file read, behind the
    matrices the object held, and every matrix it stores is a square array
    of side 3 N, with N the atom count of the structure it leaves. *)
Theorem LoadFromQE_matrix_shapes (fs : Files) (self self' : Phonons) (fildyn_prefix : string)
    (nqirr0 : Z) (full_name : bool) :
  LoadFromQE fs self fildyn_prefix nqirr0 full_name = Ok self' →
  ∃ st more, structure self' = Some st
    ∧ dynmats self' = dynmats self ++ more ∧ (Z.to_nat nqirr0 ≤ length more)%nat
    ∧ ∀ D, D ∈ more →
        has_shape (Z.to_nat (3 * N_atoms st)) (Z.to_nat (3 * N_atoms st)) D = true.
Proof.
  intros H. destruct (LoadFromQE_loaded _ _ _ _ _ _ H) as (st & more & Hst & _ & _ & Hrest).
  exists st, more. auto.
Qed.

End WellFormed.


(** ** The further properties on the inputs of the examples *)

Section Runs.
Local Open Scope R_scope.
Local Transparent gmap_empty.

Lemma ForcePositiveDefinite_unit_set :
  ∃ self', ForcePositiveDefinite (lib := Reference.library) Examples.unit_set = Ok self'.
Proof. eexists. evaluate. reflexivity. Qed.


Lemma ExtractRandomStructures_unit_set :
  ∃ out, ExtractRandomStructures (lib := Reference.library) Examples.unit_set 2 0 []
           Examples.zero_draw = Ok out.
Proof. eexists. evaluate. reflexivity. Qed.

Lemma get_energy_forces_unit_set :
  ∃ e f, get_energy_forces Examples.at_rest Examples.unit_set Examples.one_atom false
         = Ok (e, f).
Proof. eexists _, _. evaluate. reflexivity. Qed.

Lemma GetProbability_unit_set :
  ∃ p, GetProbability (lib := Reference.library) Examples.unit_set
         (Disp2 (replicate (Z.to_nat (N_atoms Examples.one_atom)) [0; 0; 0])) 0 None true = Ok p
       ∧ p ≠ 0.
Proof.
  eexists. split.
  - evaluate. reflexivity.
  - rewrite sqrt_1, Rmult_1_l. apply Rgt_not_eq, exp_pos.
Qed.

Lemma reference_real_eigenvectors : real_eigenvectors Reference.library.
Proof.
  intros M vals vecs [= <- <-] row z Hrow Hz.
  unfold Reference.identity, build in Hrow.
  apply list_elem_of_fmap in Hrow as (i & -> & _).
  apply list_elem_of_fmap in Hz as (j & -> & _).
  destruct (Nat.eqb i j); reflexivity.
Qed.

Lemma one_atom_masses (label : string) (m : R) :
  masses Examples.one_atom !! label = Some m → 0 <= m.
Proof.
  intros H. change (masses Examples.one_atom) with ({[ "H"%string := 1 ]} : gmap string R) in H.
  apply lookup_singleton_Some in H as [_ <-]. lra.
Qed.

Lemma two_atoms_masses (label : string) (m : R) :
  masses Examples.two_atoms !! label = Some m → 0 < m.
Proof.
  intros H. change (masses Examples.two_atoms) with ({[ "H"%string := 1 ]} : gmap string R) in H.
  apply lookup_singleton_Some in H as [_ <-]. lra.
Qed.

(** Two atoms with the identity matrix: three modes are kept, each of
    frequency 1. *)
Lemma DyagDinQ_two_atoms :
  ∃ w pols,
    DyagDinQ (lib := Reference.library)
      (Examples.gamma_set Examples.two_atoms (Examples.diag [1; 1; 1; 1; 1; 1])) 0
    = Ok (w, pols)
    ∧ length (drop 3 w) = 3%nat ∧ ∀ x, x ∈ drop 3 w → 0 < x.
Proof.
  eexists _, _. split; [evaluate; reflexivity|]. split; [reflexivity|].
  intros x Hx. cbn [drop] in Hx.
  assert (x = sqrt (1 / sqrt (1 * 1) * 1 - 0 * 0)) as ->.
  { repeat (apply elem_of_cons in Hx as [->|Hx]; [reflexivity|]). inversion Hx. }
  apply sqrt_lt_R0. replace (1 * 1) with 1 by ring. rewrite sqrt_1. lra.
Qed.

Lemma ExtractRandomStructures_two_atoms :
  ∃ out, ExtractRandomStructures (lib := Reference.library)
           (Examples.gamma_set Examples.two_atoms (Examples.diag [1; 1; 1; 1; 1; 1]))
           2 0 [] Examples.zero_draw = Ok out.
Proof. eexists. evaluate. reflexivity. Qed.

Lemma rdiag3_psd (a b c : R) :
  0 <= a → 0 <= b → 0 <= c → positive_semidefinite (Examples.rdiag [a; b; c]).
Proof.
  intros Ha Hb Hc u Hu.
  destruct u as [|x1 [|x2 [|x3 [|]]]]; try discriminate Hu.
  compute_reals.
  pose proof (Rle_0_sqr x1). pose proof (Rle_0_sqr x2). pose proof (Rle_0_sqr x3).
  unfold Rsqr in *. nra.
Qed.

End Runs.

Lemma ForcePositiveDefinite_keeps_witness :
  ∃ self', ForcePositiveDefinite (lib := Reference.library) Examples.unit_set = Ok self'
    ∧ length (dynmats self') = length (dynmats Examples.unit_set)
    ∧ set_dynmats (dynmats Examples.unit_set) self' = Examples.unit_set
    ∧ ∀ D, D ∈ dynmats self' →
        has_shape (Z.to_nat (3 * N_atoms Examples.one_atom))
          (Z.to_nat (3 * N_atoms Examples.one_atom)) D = true.
Proof.
  destruct ForcePositiveDefinite_unit_set as [self' Hrun]. exists self'.
  split; [exact Hrun|].
  exact (ForcePositiveDefinite_keeps (lib := Reference.library) Examples.unit_set self'
           Examples.one_atom eq_refl Hrun).
Defined.

Lemma ForcePositiveDefinite_real_psd_witness :
  ∃ self', ForcePositiveDefinite (lib := Reference.library) Examples.unit_set = Ok self'
    ∧ ∀ D, D ∈ dynmats self' →
        ∃ U, D = to_complex U ∧ symmetric U ∧ positive_semidefinite U.
Proof.
  destruct ForcePositiveDefinite_unit_set as [self' Hrun]. exists self'.
  split; [exact Hrun|].
  apply (ForcePositiveDefinite_real_psd (lib := Reference.library) Examples.unit_set self'
           Examples.one_atom); [|reflexivity|exact one_atom_masses|exact Hrun].
  intros k D w pols _ Hd.
  exact (DyagDinQ_real (lib := Reference.library) _ _ w pols reference_real_eigenvectors Hd).
Defined.



Lemma LoadFromQE_appends_witness :
  ∃ self', LoadFromQE (lib := Reference.library) {[ "dyn1"%string := Examples.sample_file ]}
             (Phonons_blank 1) "dyn" 1 false = Ok self'
    ∧ nqirr self' = nqirr (Phonons_blank 1) ∧ initialized self' = true
    ∧ is_Some (structure self')
    ∧ ∃ stars more,
        length stars = Z.to_nat 1
        ∧ q_stars self' = q_stars (Phonons_blank 1) ++ stars
        ∧ q_tot self' = q_tot (Phonons_blank 1) ++ concat stars
        ∧ dynmats self' = dynmats (Phonons_blank 1) ++ more.
Proof.
  destruct LoadFromQE_sample_file as (self' & st & Hrun & _). exists self'.
  split; [exact Hrun|].
  exact (LoadFromQE_appends (lib := Reference.library) _ _ _ _ _ _ Hrun).
Defined.

Lemma LoadFromQE_needs_files_witness :
  ∃ self', LoadFromQE (lib := Reference.library) {[ "dyn1"%string := Examples.sample_file ]}
             (Phonons_blank 1) "dyn" 1 false = Ok self'
    ∧ (0 < 1)%Z
    ∧ ∀ iq, (0 ≤ iq < 1)%Z →
        ∃ lines l1 l2,
          ({[ "dyn1"%string := Examples.sample_file ]} : Files) !! filepath_of "dyn" false iq
          = Some lines
          ∧ l1 ∈ lines ∧ PyStr.contains "cartesian axes" (PyStr.strip l1) = true
          ∧ l2 ∈ lines ∧ PyStr.contains "Diagonalizing" (PyStr.strip l2) = true.
Proof.
  destruct LoadFromQE_sample_file as (self' & st & Hrun & _). exists self'.
  split; [exact Hrun|].
  exact (LoadFromQE_needs_files (lib := Reference.library) _ _ _ _ _ _ Hrun).
Defined.

Lemma LoadFromQE_short_file_witness :
  LoadFromQE (lib := Reference.library)
    {[ "dyn1"%string := ["Dynamical matrix file"; ""]%string ]} (Phonons_blank 1) "dyn" 1 false
  = Raise (IndexError "index out of range").
Proof.
  apply (LoadFromQE_short_file (lib := Reference.library) _ _ _ _ _
           ["Dynamical matrix file"; ""]%string).
  - lia.
  - discriminate.
  - reflexivity.
  - simpl. lia.
Defined.

Lemma save_qe_species_numbers_witness :
  let st := mkStructure 3 ["H"; "O"; "H"]%string [[0; 0; 0]; [1; 0; 0]; [2; 0; 0]]%R
              {[ "H"%string := 1%R ]} (unit_cell Examples.one_atom) true in
  ∃ types itau,
    save_qe_types st = Ok types ∧ save_qe_itau types = Ok itau
    ∧ NoDup types
    ∧ (∀ a, a ∈ types ↔ a ∈ take (Z.to_nat (N_atoms st)) (atoms st))
    ∧ ∀ i a, (i < Z.to_nat (N_atoms st))%nat → atoms st !! i = Some a →
        ∃ k, save_qe_species_number st itau (Z.of_nat i) = Ok k
          ∧ (1 ≤ k ≤ Z.of_nat (length types))%Z
          ∧ types !! Z.to_nat (k - 1) = Some a.
Proof.
  intros st. apply (save_qe_species_numbers st). simpl. lia.
Defined.

Lemma save_qe_filenames_are_read_witness :
  save_qe_filenames Examples.unit_set "dyn" false
  = filepath_of "dyn" false <$> py_range (nqirr Examples.unit_set).
Proof.
  apply (save_qe_filenames_are_read Examples.unit_set "dyn" false). left. reflexivity.
Defined.

Lemma ExtractRandomStructures_output_witness :
  ∃ out, ExtractRandomStructures (lib := Reference.library) Examples.unit_set 2 0 []
           Examples.zero_draw = Ok out
    ∧ length out = Z.to_nat 2
    ∧ ∀ s, s ∈ out →
        atoms s = atoms Examples.one_atom ∧ masses s = masses Examples.one_atom
        ∧ unit_cell s = unit_cell Examples.one_atom
        ∧ length (coords s) = length (coords Examples.one_atom)
        ∧ N_atoms s = if Nat.eqb (length (@nil Z)) 0 then N_atoms Examples.one_atom
                      else Z.of_nat (length (@nil Z)).
Proof.
  destruct ExtractRandomStructures_unit_set as [out Hrun]. exists out. split; [exact Hrun|].
  exact (ExtractRandomStructures_output (lib := Reference.library) Examples.unit_set
           Examples.one_atom 2 0%R [] Examples.zero_draw out eq_refl Hrun).
Defined.

Lemma ExtractRandomStructures_zero_draw_witness :
  ∃ out, ExtractRandomStructures (lib := Reference.library)
           (Examples.gamma_set Examples.two_atoms (Examples.diag [1; 1; 1; 1; 1; 1]%R))
           2 0 [] Examples.zero_draw = Ok out
    ∧ out = replicate (Z.to_nat 2) Examples.two_atoms.
Proof.
  destruct ExtractRandomStructures_two_atoms as [out Hrun]. exists out. split; [exact Hrun|].
  destruct DyagDinQ_two_atoms as (w & pols & Hdyag & _ & Hpos).
  apply (ExtractRandomStructures_zero_draw (lib := Reference.library)
           (Examples.gamma_set Examples.two_atoms (Examples.diag [1; 1; 1; 1; 1; 1]%R))
           Examples.two_atoms 2 0%R Examples.zero_draw w pols out
           ltac:(lra) eq_refl two_atoms_masses Hdyag Hpos); [|exact Hrun].
  intros a b row x Hrow Hx. unfold Examples.zero_draw in Hrow.
  apply elem_of_replicate in Hrow as [-> _]. apply elem_of_replicate in Hx as [-> _].
  reflexivity.
Defined.

Lemma GetRatioProbability_same_set_witness :
  GetRatioProbability (lib := Reference.library) Examples.at_rest Examples.unit_set
    Examples.one_atom 0 Examples.unit_set 0 = Ok 1%R.
Proof.
  destruct GetProbability_unit_set as (p & Hp & Hne).
  exact (GetRatioProbability_same_set (lib := Reference.library) Examples.at_rest
           Examples.unit_set Examples.one_atom 0%R p _ eq_refl Hp Hne).
Defined.

Lemma get_energy_forces_at_rest_witness :
  ∃ e f, get_energy_forces Examples.at_rest Examples.unit_set Examples.one_atom false
         = Ok (e, f)
    ∧ e = C0 ∧ ∀ z, z ∈ force_entries f → z = C0.
Proof.
  destruct get_energy_forces_unit_set as (e & f & Hrun). exists e, f. split; [exact Hrun|].
  apply (get_energy_forces_at_rest Examples.at_rest Examples.unit_set Examples.one_atom
           false _ e f eq_refl); [|exact Hrun].
  intros row x Hrow Hx. apply elem_of_replicate in Hrow as [-> _].
  repeat (apply elem_of_cons in Hx as [->|Hx]; [reflexivity|]). inversion Hx.
Defined.

Lemma get_energy_forces_energy_nonneg_witness :
  ∃ e f, get_energy_forces Examples.at_rest Examples.unit_set Examples.one_atom false
         = Ok (e, f)
    ∧ (0 <= Re e)%R ∧ Im e = 0%R.
Proof.
  destruct get_energy_forces_unit_set as (e & f & Hrun). exists e, f. split; [exact Hrun|].
  apply (get_energy_forces_energy_nonneg Examples.at_rest Examples.unit_set
           Examples.one_atom false (Examples.rdiag [1; 1; 1]%R) e f); [reflexivity| |exact Hrun].
  apply rdiag3_psd; lra.
Defined.

Lemma DyagDinQ_index_witness :
  DyagDinQ (lib := Reference.library) Examples.unit_set (-1)
  = DyagDinQ (lib := Reference.library) Examples.unit_set (1 + -1)
  ∧ DyagDinQ (lib := Reference.library) Examples.unit_set 1
    = Raise (IndexError "index out of range").
Proof.
  split.
  - apply (proj1 (DyagDinQ_index (lib := Reference.library) Examples.unit_set (-1))).
    simpl. lia.
  - apply (proj2 (DyagDinQ_index (lib := Reference.library) Examples.unit_set 1)
             Examples.one_atom).
    + reflexivity.
    + simpl. lia.
    + intros a Ha. apply list_elem_of_singleton in Ha as ->. eexists. reflexivity.
    + simpl. lia.
Defined.

Lemma ExtractRandomStructures_guards_witness :
  let supercell := mkPhonons (dynmats Examples.unit_set) 2 (q_tot Examples.unit_set)
                     None None None 1%R true (q_stars Examples.unit_set)
                     (structure Examples.unit_set) in
  ExtractRandomStructures (lib := Reference.library) supercell 1 0 [] Examples.zero_draw
  = Raise supercells_not_implemented
  ∧ ExtractRandomStructures (lib := Reference.library) Examples.unit_set 1 0 [0; 1]%Z
      Examples.zero_draw
    = Raise isolate_atoms_out_of_boundary.
Proof.
  intros supercell. split.
  - apply (proj1 (ExtractRandomStructures_guards (lib := Reference.library) supercell 1 0%R []
                    Examples.zero_draw)).
    discriminate.
  - apply (proj2 (ExtractRandomStructures_guards (lib := Reference.library) Examples.unit_set
                    1 0%R [0; 1]%Z Examples.zero_draw) Examples.one_atom 1%Z).
    + reflexivity.
    + reflexivity.
    + right. left.
    + simpl. lia.
Defined.

Lemma LoadFromQE_well_formed_witness :
  ∃ self', LoadFromQE (lib := Reference.library) {[ "dyn1"%string := Examples.sample_file ]}
             (Phonons_blank 1) "dyn" 1 false = Ok self'
    ∧ ∃ st, structure self' = Some st ∧ well_formed st ∧ has_unit_cell st = true.
Proof.
  destruct LoadFromQE_sample_file as (self' & st & Hrun & _). exists self'.
  split; [exact Hrun|].
  exact (LoadFromQE_well_formed (lib := Reference.library) _ _ _ _ _ _ Hrun).
Defined.

Lemma LoadFromQE_matrix_shapes_witness :
  ∃ self', LoadFromQE (lib := Reference.library) {[ "dyn1"%string := Examples.sample_file ]}
             (Phonons_blank 1) "dyn" 1 false = Ok self'
    ∧ ∃ st more, structure self' = Some st
        ∧ dynmats self' = dynmats (Phonons_blank 1) ++ more
        ∧ (Z.to_nat 1 ≤ length more)%nat
        ∧ ∀ D, D ∈ more →
            has_shape (Z.to_nat (3 * N_atoms st)) (Z.to_nat (3 * N_atoms st)) D = true.
Proof.
  destruct LoadFromQE_sample_file as (self' & st & Hrun & _). exists self'.
  split; [exact Hrun|].
  exact (LoadFromQE_matrix_shapes (lib := Reference.library) _ _ _ _ _ _ Hrun).
Defined.
